(** * VALUE:time virtual room: the [RoomDO] durable object of [src/worker.js]

    A shallow embedding of the room actor (storage gateway, invite tokens,
    room mutations, session hub, WebSocket listeners) and the properties of
    the specification that were checked against it. *)

From Stdlib Require Import ZArith Lia.
From Stdlib.Strings Require Import String Ascii Byte.
From stdpp Require Import gmap strings list.

Local Open Scope Z_scope.
Local Open Scope string_scope.
Local Set Warnings "-register-all".

(** ** JavaScript strings

    A string is a sequence of code units.  The model keeps the code units
    below 256 (Rocq's [ascii]); every string literal of the program and
    every token [makeToken] builds lies in that range. *)

Module JsString.

(** ECMAScript WhiteSpace and LineTerminator code units below 256:
    TAB, LF, VT, FF, CR, SPACE and NBSP. *)
Definition is_whitespace (c : ascii) : bool :=
  let n := N_of_ascii c in
  ((9 <=? n) && (n <=? 13) || (n =? 32) || (n =? 160))%N.

Fixpoint trimStart (s : string) : string :=
  match s with
  | String c s' => if is_whitespace c then trimStart s' else s
  | EmptyString => EmptyString
  end.

Definition reverse (s : string) : string :=
  string_of_list_ascii (rev (list_ascii_of_string s)).

Definition trimEnd (s : string) : string := reverse (trimStart (reverse s)).

(** [s.trim()] *)
Definition trim (s : string) : string := trimEnd (trimStart s).

(** [s.slice(0, max)] for a non-negative [max] *)
Definition slice0 (max : nat) (s : string) : string :=
  string_of_list_ascii (take max (list_ascii_of_string s)).

(** [s.endsWith(suffix)] *)
Definition endsWith (suffix s : string) : bool :=
  let n := String.length s in
  let k := String.length suffix in
  (k <=? n)%nat && String.eqb (String.substring (n - k) k s) suffix.

(** [s.replaceAll(c, r)] for a pattern of one code unit *)
Fixpoint replaceAll (c : ascii) (r : string) (s : string) : string :=
  match s with
  | EmptyString => EmptyString
  | String x s' =>
      if Ascii.eqb x c then r ++ replaceAll c r s'
      else String x (replaceAll c r s')
  end.

(** JavaScript truthiness of a string *)
Definition truthy (s : string) : bool := negb (String.eqb s "").

(** [a || b] on strings *)
Definition or_else (a b : string) : string := if truthy a then a else b.

End JsString.

(** ** Plain objects used as dictionaries

    [invites] is a plain object: reading [invites[token]] looks at the own
    properties first and then at [Object.prototype]. *)

Module JsObject.

(** The property names every plain object inherits from
    [Object.prototype]; each holds a function, except [__proto__], which
    yields the prototype object itself.  All of them are truthy. *)
Definition prototype_names : list string :=
  [ "constructor"; "hasOwnProperty"; "isPrototypeOf";
    "propertyIsEnumerable"; "toLocaleString"; "toString"; "valueOf";
    "__defineGetter__"; "__defineSetter__"; "__lookupGetter__";
    "__lookupSetter__"; "__proto__" ].

Definition inherited (k : string) : bool :=
  bool_decide (k ∈ prototype_names).

(** The result of [obj[k]] on a plain object whose own properties have
    values of type [V]. *)
Inductive Lookup (V : Type) : Type :=
| Own (v : V)
| Inherited
| Undefined.
Arguments Own {V} v.
Arguments Inherited {V}.
Arguments Undefined {V}.

Definition get {V} (obj : gmap string V) (k : string) : Lookup V :=
  match obj !! k with
  | Some v => Own v
  | None => if inherited k then Inherited else Undefined
  end.

End JsObject.

(** ** JavaScript numbers as far as the program computes with them:
    integer milliseconds, and [NaN] when an operand is [undefined]. *)

Inductive JsNumber : Type :=
| Num (z : Z)
| NaN.

(** [a > b]; any comparison with [NaN] is false *)
Definition js_gt (a b : JsNumber) : bool :=
  match a, b with
  | Num x, Num y => x >? y
  | _, _ => false
  end.

(** ** Values produced by [JSON.parse]

    A number is kept as its canonical rendering ([String(n)]): the program
    only tests numbers for truthiness and converts them to strings, and a
    parsed number is falsy exactly when it renders as [0].  An object is
    the list of its own properties, each name once. *)

Inductive Json : Type :=
| JNull
| JBool (b : bool)
| JNumber (rendering : string)
| JString (s : string)
| JArray (items : list Json)
| JObject (fields : list (string * Json)).

Module JsValue.

Definition truthy (v : Json) : bool :=
  match v with
  | JNull => false
  | JBool b => b
  | JNumber r => negb (String.eqb r "0")
  | JString s => JsString.truthy s
  | JArray _ | JObject _ => true
  end.

Fixpoint assoc (k : string) (fields : list (string * Json)) : option Json :=
  match fields with
  | [] => None
  | (k', v) :: rest => if String.eqb k k' then Some v else assoc k rest
  end.

(** [v.k] for a property name [k] that no built-in prototype defines
    (the program reads [kind], [payload], [type] and [content]): an own
    property of an object, [undefined] ([None]) otherwise. *)
Definition prop (v : Json) (k : string) : option Json :=
  match v with
  | JObject fields => assoc k fields
  | _ => None
  end.

(** [String(v)]; [None] is the [TypeError] it throws.  An object is
    converted by its [toString]: a parsed object that has no own
    property of that name inherits the one of [Object.prototype], which
    returns ["[object Object]"]; one that has such a property holds a
    value that cannot be called, [valueOf] gives the object back, and
    the conversion throws.  An array is converted by [join]: the items
    left to right, [null] as the empty string, so it throws when an
    item does. *)
Fixpoint toString (v : Json) : option string :=
  match v with
  | JNull => Some "null"
  | JBool true => Some "true"
  | JBool false => Some "false"
  | JNumber r => Some r
  | JString s => Some s
  | JArray items =>
      let fix join (xs : list Json) : option (list string) :=
        match xs with
        | [] => Some []
        | x :: rest =>
            match (match x with JNull => Some "" | _ => toString x end) with
            | Some t => option_map (cons t) (join rest)
            | None => None
            end
        end in
      option_map (String.concat ",") (join items)
  | JObject fields =>
      match assoc "toString" fields with
      | Some _ => None
      | None => Some "[object Object]"
      end
  end.

(** [v === "literal"] *)
Definition is_string (v : option Json) (lit : string) : bool :=
  match v with
  | Some (JString s) => String.eqb s lit
  | _ => false
  end.

(** [v ?? d], with [None] for [undefined] *)
Definition nullish_or (v : option Json) (d : Json) : Json :=
  match v with
  | None | Some JNull => d
  | Some x => x
  end.

(** [!v], with [None] for [undefined] *)
Definition not (v : option Json) : bool :=
  match v with
  | None => true
  | Some x => negb (truthy x)
  end.

(** [v || d], with [None] for [undefined] *)
Definition or_else (v : option Json) (d : Json) : Json :=
  match v with
  | None => d
  | Some x => if truthy x then x else d
  end.

End JsValue.

(** [clampStr(s, max)]: [String(s ?? "").trim().slice(0, max)];
    [None] when [String] throws. *)
Definition clampStr (s : option Json) (max : nat) : option string :=
  option_map (fun t => JsString.slice0 max (JsString.trim t))
    (JsValue.toString (JsValue.nullish_or s (JString ""))).

(** ** Data model: the records kept under the storage keys [room] and
    [invites] *)

Record Participant : Type := {
  p_id : string;
  p_name : string;
  p_role : string;
  p_joinedAt : Z;
}.

Record FocusState : Type := {
  f_type : string;
  f_content : string;
  f_author : string;
  f_authorName : string;
  f_ts : Z;
}.

Record TimelineEvent : Type := {
  t_ts : Z;
  t_kind : string;
  t_by : string;
}.

Record Room : Type := {
  startedAt : Z;
  focus : FocusState;
  participants : list Participant;
  timeline : list TimelineEvent;
}.

Record Invite : Type := {
  createdAt : Z;
  ttlMs : Z;
}.

(** The payload of a [presence] frame, built by [_publicState]. *)
Record PublicState : Type := {
  ps_startedAt : Z;
  ps_participants : list Participant;
  ps_focus : FocusState;
}.

(** What the actor serializes: the frames [{kind: "presence", payload}]
    and [{kind: "focus", payload}], and the invite reply
    [{token, expiresAt}].  The text [JSON.stringify] makes of one is kept
    symbolic: it is determined by the message. *)
Inductive Message : Type :=
| Presence (payload : PublicState)
| Focus (payload : FocusState)
| Issued (token : string) (expiresAt : Z).

Inductive Frame : Type :=
| JsonText (m : Message).

(** ** The actor's world *)

(** One call of [this.state.storage.put]. *)
Inductive Put : Type :=
| PutRoom (room : Room)
| PutInvites (invites : gmap string Invite).

(** A value of [this.sessions]: [{ ws, name, role }]; [ws] is the server
    end of the connection's socket pair. *)
Record Session : Type := {
  s_ws : nat;
  s_name : string;
  s_role : string;
}.

Inductive SocketState : Type :=
| Created
| Accepted
| Closed (code : Z).

Record World : Type := {
  (** durable storage, keys [room] and [invites] *)
  stored_room : option Room;
  stored_invites : option (gmap string Invite);
  (** every [storage.put] so far, oldest first *)
  puts : list Put;
  (** [this.sessions], a [Map] in insertion order *)
  sessions : list (string * Session);
  (** sockets by handle; a [WebSocketPair] adds two *)
  sockets : list SocketState;
  (** frames delivered by [send], oldest first *)
  sent : list (nat * Frame);
  (** listeners installed on a server socket, with the [clientId] their
      closures captured *)
  listening : list (nat * string);
  (** number of [JSON.stringify] calls *)
  stringified : nat;
  (** the readings [Date.now()] returns, and how many were taken *)
  clock : nat -> Z;
  clock_reads : nat;
  (** the values [crypto.randomUUID()] returns *)
  uuids : nat -> string;
  uuid_reads : nat;
  (** the bytes [crypto.getRandomValues] delivers *)
  entropy : nat -> byte;
  entropy_reads : nat;
}.

(** Field updates. *)
Definition set_stored_room (v : option Room) (w : World) : World :=
  {| stored_room := v; stored_invites := stored_invites w; puts := puts w;
     sessions := sessions w; sockets := sockets w; sent := sent w;
     listening := listening w; stringified := stringified w;
     clock := clock w; clock_reads := clock_reads w; uuids := uuids w;
     uuid_reads := uuid_reads w; entropy := entropy w;
     entropy_reads := entropy_reads w |}.

Definition set_stored_invites (v : option (gmap string Invite)) (w : World)
  : World :=
  {| stored_room := stored_room w; stored_invites := v; puts := puts w;
     sessions := sessions w; sockets := sockets w; sent := sent w;
     listening := listening w; stringified := stringified w;
     clock := clock w; clock_reads := clock_reads w; uuids := uuids w;
     uuid_reads := uuid_reads w; entropy := entropy w;
     entropy_reads := entropy_reads w |}.

Definition set_puts (v : list Put) (w : World) : World :=
  {| stored_room := stored_room w; stored_invites := stored_invites w;
     puts := v; sessions := sessions w; sockets := sockets w; sent := sent w;
     listening := listening w; stringified := stringified w;
     clock := clock w; clock_reads := clock_reads w; uuids := uuids w;
     uuid_reads := uuid_reads w; entropy := entropy w;
     entropy_reads := entropy_reads w |}.

Definition set_sessions (v : list (string * Session)) (w : World) : World :=
  {| stored_room := stored_room w; stored_invites := stored_invites w;
     puts := puts w; sessions := v; sockets := sockets w; sent := sent w;
     listening := listening w; stringified := stringified w;
     clock := clock w; clock_reads := clock_reads w; uuids := uuids w;
     uuid_reads := uuid_reads w; entropy := entropy w;
     entropy_reads := entropy_reads w |}.

Definition set_sockets (v : list SocketState) (w : World) : World :=
  {| stored_room := stored_room w; stored_invites := stored_invites w;
     puts := puts w; sessions := sessions w; sockets := v; sent := sent w;
     listening := listening w; stringified := stringified w;
     clock := clock w; clock_reads := clock_reads w; uuids := uuids w;
     uuid_reads := uuid_reads w; entropy := entropy w;
     entropy_reads := entropy_reads w |}.

Definition set_sent (v : list (nat * Frame)) (w : World) : World :=
  {| stored_room := stored_room w; stored_invites := stored_invites w;
     puts := puts w; sessions := sessions w; sockets := sockets w; sent := v;
     listening := listening w; stringified := stringified w;
     clock := clock w; clock_reads := clock_reads w; uuids := uuids w;
     uuid_reads := uuid_reads w; entropy := entropy w;
     entropy_reads := entropy_reads w |}.

Definition set_listening (v : list (nat * string)) (w : World) : World :=
  {| stored_room := stored_room w; stored_invites := stored_invites w;
     puts := puts w; sessions := sessions w; sockets := sockets w;
     sent := sent w; listening := v; stringified := stringified w;
     clock := clock w; clock_reads := clock_reads w; uuids := uuids w;
     uuid_reads := uuid_reads w; entropy := entropy w;
     entropy_reads := entropy_reads w |}.

Definition set_stringified (v : nat) (w : World) : World :=
  {| stored_room := stored_room w; stored_invites := stored_invites w;
     puts := puts w; sessions := sessions w; sockets := sockets w;
     sent := sent w; listening := listening w; stringified := v;
     clock := clock w; clock_reads := clock_reads w; uuids := uuids w;
     uuid_reads := uuid_reads w; entropy := entropy w;
     entropy_reads := entropy_reads w |}.

Definition set_clock_reads (v : nat) (w : World) : World :=
  {| stored_room := stored_room w; stored_invites := stored_invites w;
     puts := puts w; sessions := sessions w; sockets := sockets w;
     sent := sent w; listening := listening w; stringified := stringified w;
     clock := clock w; clock_reads := v; uuids := uuids w;
     uuid_reads := uuid_reads w; entropy := entropy w;
     entropy_reads := entropy_reads w |}.

Definition set_uuid_reads (v : nat) (w : World) : World :=
  {| stored_room := stored_room w; stored_invites := stored_invites w;
     puts := puts w; sessions := sessions w; sockets := sockets w;
     sent := sent w; listening := listening w; stringified := stringified w;
     clock := clock w; clock_reads := clock_reads w; uuids := uuids w;
     uuid_reads := v; entropy := entropy w;
     entropy_reads := entropy_reads w |}.

Definition set_entropy_reads (v : nat) (w : World) : World :=
  {| stored_room := stored_room w; stored_invites := stored_invites w;
     puts := puts w; sessions := sessions w; sockets := sockets w;
     sent := sent w; listening := listening w; stringified := stringified w;
     clock := clock w; clock_reads := clock_reads w; uuids := uuids w;
     uuid_reads := uuid_reads w; entropy := entropy w; entropy_reads := v |}.

(** Computations of the actor: one inbound event runs to completion
    before the next one starts, so state is threaded sequentially. *)
Definition M (A : Type) : Type := World -> A * World.

Definition ret {A} (a : A) : M A := fun w => (a, w).

Definition bind {A B} (c : M A) (k : A -> M B) : M B :=
  fun w => let (a, w') := c w in k a w'.

Notation "'let*' x ':=' c 'in' k" := (bind c (fun x => k))
  (at level 10, x name, c at level 100, k at level 200, only parsing).
Notation "'do*' c 'in' k" := (bind c (fun _ => k))
  (at level 10, c at level 100, k at level 200, only parsing).

Definition exec {A} (c : M A) (w : World) : World := snd (c w).
Definition eval {A} (c : M A) (w : World) : A := fst (c w).

Definition modify (f : World -> World) : M unit := fun w => (tt, f w).
Definition gets {A} (f : World -> A) : M A := fun w => (f w, w).

Module Env.

(** [Date.now()] *)
Definition now : M Z :=
  let* t := gets (fun w => clock w (clock_reads w)) in
  do* modify (fun w => set_clock_reads (S (clock_reads w)) w) in
  ret t.

(** [crypto.randomUUID()] *)
Definition randomUUID : M string :=
  let* u := gets (fun w => uuids w (uuid_reads w)) in
  do* modify (fun w => set_uuid_reads (S (uuid_reads w)) w) in
  ret u.

(** [crypto.getRandomValues(new Uint8Array(n))]; [None] is the
    [QuotaExceededError] it throws for more than 65536 bytes, before
    any byte is drawn. *)
Definition getRandomValues (n : nat) : M (option (list byte)) :=
  if (65536 <? N.of_nat n)%N then ret None
  else
    let* a := gets (fun w =>
      map (fun i => entropy w (entropy_reads w + i)%nat) (seq 0 n)) in
    do* modify (fun w => set_entropy_reads (entropy_reads w + n)%nat w) in
    ret (Some a).

(** [JSON.stringify(message)] *)
Definition stringify (m : Message) : M Frame :=
  do* modify (fun w => set_stringified (S (stringified w)) w) in
  ret (JsonText m).

End Env.

(** ** Persistence gateway: [this.state.storage] *)

Module Storage.

Definition get_room : M (option Room) := gets stored_room.
Definition get_invites : M (option (gmap string Invite)) :=
  gets stored_invites.

Definition put_room (room : Room) : M unit :=
  modify (fun w =>
    set_puts (puts w ++ [PutRoom room])%list (set_stored_room (Some room) w)).

Definition put_invites (invites : gmap string Invite) : M unit :=
  modify (fun w =>
    set_puts (puts w ++ [PutInvites invites])%list
             (set_stored_invites (Some invites) w)).

End Storage.

(** ** Session hub: [this.sessions] (a [Map]) and the sockets *)

Module Sessions.

(** [Map.prototype.set]: an existing key keeps its position. *)
Fixpoint set (k : string) (v : Session) (m : list (string * Session))
  : list (string * Session) :=
  match m with
  | [] => [(k, v)]
  | (k', v') :: rest =>
      if String.eqb k k' then (k, v) :: rest else (k', v') :: set k v rest
  end.

Fixpoint get (k : string) (m : list (string * Session)) : option Session :=
  match m with
  | [] => None
  | (k', v) :: rest => if String.eqb k k' then Some v else get k rest
  end.

Definition delete (k : string) (m : list (string * Session))
  : list (string * Session) :=
  filter (fun kv => negb (String.eqb k (fst kv))) m.

End Sessions.

Module Socket.

(** [new WebSocketPair()]: the handles of the client and server ends *)
Definition pair : M (nat * nat) :=
  let* n := gets (fun w => length (sockets w)) in
  do* modify (fun w => set_sockets (sockets w ++ [Created; Created])%list w) in
  ret (n, S n).

(** [ws.accept()] *)
Definition accept (ws : nat) : M unit :=
  modify (fun w => set_sockets (<[ws := Accepted]> (sockets w)) w).

(** A socket takes frames once accepted and until it is closed. *)
Definition is_open (socks : list SocketState) (ws : nat) : bool :=
  match socks !! ws with
  | Some Accepted => true
  | _ => false
  end.

(** [ws.send(data)]; the result is [false] when the call throws, which
    it does on a socket that is not open. *)
Definition send (ws : nat) (data : Frame) : M bool :=
  let* open := gets (fun w => is_open (sockets w) ws) in
  if open then
    do* modify (fun w => set_sent (sent w ++ [(ws, data)])%list w) in
    ret true
  else ret false.

(** [ws.close(code, reason)]; [false] when the call throws *)
Definition close (ws : nat) (code : Z) : M bool :=
  let* open := gets (fun w => is_open (sockets w) ws) in
  if open then
    do* modify (fun w =>
          set_sockets (<[ws := Closed code]> (sockets w)) w) in
    ret true
  else ret false.

End Socket.

(** [for (const x of xs) body(x)] *)
Fixpoint for_each {A} (body : A -> M unit) (xs : list A) : M unit :=
  match xs with
  | [] => ret tt
  | x :: rest => do* body x in for_each body rest
  end.

(** ** Invite tokens: [makeToken] *)

Module Base64.

(** The character of a six-bit value in the alphabet
    [A-Z a-z 0-9 + /]. *)
Definition char (n : N) : ascii :=
  if (n <? 26)%N then ascii_of_N (65 + n)
  else if (n <? 52)%N then ascii_of_N (97 + (n - 26))
  else if (n <? 62)%N then ascii_of_N (48 + (n - 52))
  else if (n =? 62)%N then "+"%char
  else "/"%char.

(** [btoa(s)] on a binary string: three code units become four
    characters, a shorter rest is padded with [=]. *)
Fixpoint btoa (s : string) : string :=
  match s with
  | EmptyString => EmptyString
  | String a EmptyString =>
      let x := N_of_ascii a in
      String (char (x / 4)) (String (char (x mod 4 * 16)) "==")
  | String a (String b EmptyString) =>
      let x := N_of_ascii a in
      let y := N_of_ascii b in
      String (char (x / 4))
        (String (char (x mod 4 * 16 + y / 16))
           (String (char (y mod 16 * 4)) "="))
  | String a (String b (String c rest)) =>
      let x := N_of_ascii a in
      let y := N_of_ascii b in
      let z := N_of_ascii c in
      String (char (x / 4))
        (String (char (x mod 4 * 16 + y / 16))
           (String (char (y mod 16 * 4 + z / 64))
              (String (char (z mod 64)) (btoa rest))))
  end%N.

End Base64.

(** [String.fromCharCode(...a)] for a [Uint8Array] *)
Definition fromCharCode (a : list byte) : string :=
  string_of_list_ascii (map ascii_of_byte a).

(** The pure part of [makeToken]: what it makes of the random bytes. *)
Definition token_of_bytes (a : list byte) : string :=
  JsString.replaceAll "="%char ""
    (JsString.replaceAll "/"%char "_"
       (JsString.replaceAll "+"%char "-"
          (Base64.btoa (fromCharCode a)))).

Definition makeToken (bytes : nat) : M (option string) :=
  let* a := Env.getRandomValues bytes in
  ret (option_map token_of_bytes a).

(** ** The room actor: methods of [RoomDO] *)

Definition _getRoom : M Room :=
  let* room := Storage.get_room in
  match room with
  | Some r => ret r
  | None =>
      let* startedAt := Env.now in
      let fresh :=
        {| startedAt := startedAt;
           focus := {| f_type := "question"; f_content := ""; f_author := "";
                       f_authorName := ""; f_ts := startedAt |};
           participants := [];
           timeline := [ {| t_ts := startedAt; t_kind := "room_started";
                            t_by := "" |} ] |} in
      do* Storage.put_room fresh in
      ret fresh
  end.

Definition _publicState : M PublicState :=
  let* room := _getRoom in
  ret {| ps_startedAt := startedAt room;
         ps_participants := participants room;
         ps_focus := focus room |}.

Definition _getFocus : M FocusState :=
  let* room := _getRoom in
  ret (focus room).

Definition _addParticipant (p : Participant) : M unit :=
  let* room := _getRoom in
  let participants' := (participants room ++ [p])%list in
  let* ts := Env.now in
  let timeline' :=
    (timeline room
     ++ [ {| t_ts := ts; t_kind := "join"; t_by := p_id p |} ])%list in
  Storage.put_room
    {| startedAt := startedAt room; focus := focus room;
       participants := participants'; timeline := timeline' |}.

Definition _removeParticipant (id : string) : M unit :=
  let* room := _getRoom in
  let participants' :=
    filter (fun x => negb (String.eqb (p_id x) id)) (participants room) in
  let* ts := Env.now in
  let timeline' :=
    (timeline room
     ++ [ {| t_ts := ts; t_kind := "leave"; t_by := id |} ])%list in
  Storage.put_room
    {| startedAt := startedAt room; focus := focus room;
       participants := participants'; timeline := timeline' |}.

Definition _setFocus (byId type content : string) : M unit :=
  let* room := _getRoom in
  let* sender := gets (fun w => Sessions.get byId (sessions w)) in
  let* ts := Env.now in
  let focus' :=
    {| f_type := type; f_content := content; f_author := byId;
       f_authorName :=
         match sender with
         | Some s => JsString.or_else (s_name s) ""
         | None => ""
         end;
       f_ts := ts |} in
  let* ts' := Env.now in
  let timeline' :=
    (timeline room
     ++ [ {| t_ts := ts'; t_kind := "set_focus"; t_by := byId |} ])%list in
  Storage.put_room
    {| startedAt := startedAt room; focus := focus';
       participants := participants room; timeline := timeline' |}.

Definition _broadcast (message : Message) : M unit :=
  let* data := Env.stringify message in
  let* all := gets sessions in
  for_each (fun kv =>
              let* _ := Socket.send (s_ws (snd kv)) data in
              ret tt)
           all.

(** ** [RoomDO.fetch] *)

(** A request, with its URL taken apart as [new URL(req.url)] does. *)
Record Request : Type := {
  method : string;
  hostname : string;
  pathname : string;
  searchParams : list (string * string);
}.

(** [url.searchParams.get(name)]: the first value, [null] when absent *)
Fixpoint searchParams_get (name : string) (ps : list (string * string))
  : option Json :=
  match ps with
  | [] => None
  | (k, v) :: rest =>
      if String.eqb name k then Some (JString v) else searchParams_get name rest
  end.

Inductive Body : Type :=
| NoBody
| Text (s : string)
| Json_ (data : Frame).

Record Response : Type := {
  status : Z;
  body : Body;
  webSocket : option nat;
}.

(** A call either returns a response or ends in an uncaught exception. *)
Inductive Outcome : Type :=
| Returned (r : Response)
| Threw.

Definition text_response (s : string) (st : Z) : Outcome :=
  Returned {| status := st; body := Text s; webSocket := None |}.

Definition INVITE_TTL_MS : Z := 15 * 60 * 1000.

(** How the promise of an [async] listener settles: [Rejected] when
    its body throws. *)
Inductive Settled : Type :=
| Fulfilled
| Rejected.

(** The [message] listener of a connection; [data] is the result of
    [JSON.parse(evt.data)], [None] when it throws.  Nothing catches what
    [clampStr] throws. *)
Definition on_message (clientId : string) (server : nat) (data : option Json)
  : M Settled :=
  match data with
  | None => ret Fulfilled
  | Some msg =>
      if JsValue.not (Some msg) || JsValue.not (JsValue.prop msg "kind")
      then ret Fulfilled
      else if JsValue.is_string (JsValue.prop msg "kind") "set_focus" then
        let payload :=
          JsValue.or_else (JsValue.prop msg "payload") (JObject []) in
        let type :=
          if JsValue.is_string (JsValue.prop payload "type") "text"
          then "text" else "question" in
        match
          clampStr
            (Some (JsValue.or_else (JsValue.prop payload "content")
                                   (JString "")))
            4000
        with
        | None => ret Rejected
        | Some content =>
            do* _setFocus clientId type content in
            let* f := _getFocus in
            do* _broadcast (Focus f) in
            ret Fulfilled
        end
      else if JsValue.is_string (JsValue.prop msg "kind") "leave" then
        let* _ := Socket.close server 1000 in
        ret Fulfilled
      else ret Fulfilled
  end.

(** The [close] listener of a connection. *)
Definition on_close (clientId : string) : M unit :=
  do* modify (fun w =>
        set_sessions (Sessions.delete clientId (sessions w)) w) in
  do* _removeParticipant clientId in
  let* st := _publicState in
  _broadcast (Presence st).

(** The [error] listener of a connection. *)
Definition on_error (server : nat) : M unit :=
  let* _ := Socket.close server 1011 in
  ret tt.

(** The credentials of a connection request: the [token], [name] and
    [role] query parameters, trimmed and capped.  A query parameter is
    a string or [null], on which [clampStr] does not throw: these are
    the values the three calls in the WebSocket branch return. *)
Definition ws_token (req : Request) : string :=
  default "" (clampStr (searchParams_get "token" (searchParams req)) 200).

Definition ws_name (req : Request) : string :=
  JsString.or_else
    (default ""
       (clampStr (Some (JsValue.or_else
                          (searchParams_get "name" (searchParams req))
                          (JString "Gast"))) 40))
    "Gast".

Definition ws_role (req : Request) : string :=
  JsString.or_else
    (default ""
       (clampStr (Some (JsValue.or_else
                          (searchParams_get "role" (searchParams req))
                          (JString "Gast"))) 20))
    "Gast".

(** The rest of the WebSocket branch, once the invite is accepted: the
    socket pair, the session, the join, the first frames and the
    listeners. *)
Definition upgrade (name role : string) : M Outcome :=
  let* pair := Socket.pair in
  let client := fst pair in
  let server := snd pair in
  do* Socket.accept server in
  let* clientId := Env.randomUUID in
  do* modify (fun w =>
        set_sessions
          (Sessions.set clientId
             {| s_ws := server; s_name := name; s_role := role |}
             (sessions w)) w) in
  let* joinedAt := Env.now in
  do* _addParticipant
        {| p_id := clientId; p_name := name; p_role := role;
           p_joinedAt := joinedAt |} in
  (* initial state *)
  let* st := _publicState in
  let* data := Env.stringify (Presence st) in
  let* delivered := Socket.send server data in
  if negb delivered then ret Threw
  else
    let* st' := _publicState in
    do* _broadcast (Presence st') in
    do* modify (fun w =>
          set_listening (listening w ++ [(server, clientId)])%list w) in
    ret (Returned {| status := 101; body := NoBody;
                     webSocket := Some client |}).

Definition fetch (req : Request) : M Outcome :=
  if String.eqb (method req) "POST" && String.eqb (hostname req) "do"
     && String.eqb (pathname req) "/init"
  then
    (* internal init *)
    let* startedAt := Env.now in
    let room :=
      {| startedAt := startedAt;
         focus := {| f_type := "question"; f_content := ""; f_author := "";
                     f_authorName := ""; f_ts := startedAt |};
         participants := [];
         timeline := [ {| t_ts := startedAt; t_kind := "room_started";
                          t_by := "" |} ] |} in
    do* Storage.put_room room in
    do* Storage.put_invites ∅ in
    ret (text_response "ok" 200)
  else if String.eqb (method req) "POST" && String.eqb (hostname req) "do"
          && String.eqb (pathname req) "/invite"
  then
    (* internal invite *)
    let* made := makeToken 18 in
    match made with
    | None => ret Threw
    | Some token =>
        let* stored := Storage.get_invites in
        let invites := default ∅ stored in
        let* created := Env.now in
        (* a token has 24 characters, [__proto__] has nine: the
           assignment defines an own property *)
        let invites' :=
          <[token := {| createdAt := created; ttlMs := INVITE_TTL_MS |}]>
            invites in
        do* Storage.put_invites invites' in
        let* t := Env.now in
        let* data := Env.stringify (Issued token (t + INVITE_TTL_MS)) in
        ret (Returned {| status := 200; body := Json_ data;
                         webSocket := None |})
    end
  else if JsString.endsWith "/ws" (pathname req)
  then
    (* WebSocket *)
    match
      clampStr (searchParams_get "token" (searchParams req)) 200,
      clampStr (Some (JsValue.or_else
                        (searchParams_get "name" (searchParams req))
                        (JString "Gast"))) 40,
      clampStr (Some (JsValue.or_else
                        (searchParams_get "role" (searchParams req))
                        (JString "Gast"))) 20
    with
    | Some token, Some name0, Some role0 =>
        let name := JsString.or_else name0 "Gast" in
        let role := JsString.or_else role0 "Gast" in
        if negb (JsString.truthy token)
        then ret (text_response "Missing token" 401)
        else
          let* stored := Storage.get_invites in
          let invites := default ∅ stored in
          match JsObject.get invites token with
          | JsObject.Undefined => ret (text_response "Invalid invite" 401)
          | entry =>
              let* t := Env.now in
              let age :=
                match entry with
                | JsObject.Own e => Num (t - createdAt e)
                | _ => NaN
                end in
              let ttl :=
                match entry with
                | JsObject.Own e => Num (ttlMs e)
                | _ => NaN
                end in
              if js_gt age ttl then
                let invites' := delete token invites in
                do* Storage.put_invites invites' in
                ret (text_response "Invite expired" 401)
              else
                upgrade name role
          end
    | _, _, _ => ret Threw
    end
  else ret (text_response "Not found" 404).

(** ** Inbound events of one room actor *)

Inductive Event : Type :=
| Fetch (req : Request)
| SocketMessage (server : nat) (data : option Json)
| SocketClose (server : nat) (code : Z)
| SocketError (server : nat).

(** The [clientId] the listeners of a server socket captured. *)
Fixpoint listener_of (server : nat) (ls : list (nat * string))
  : option string :=
  match ls with
  | [] => None
  | (ws, clientId) :: rest =>
      if Nat.eqb ws server then Some clientId else listener_of server rest
  end.

Definition handle (ev : Event) : M unit :=
  match ev with
  | Fetch req => let* _ := fetch req in ret tt
  | SocketMessage server data =>
      let* l := gets (fun w => listener_of server (listening w)) in
      match l with
      | Some clientId =>
          let* _ := on_message clientId server data in
          ret tt
      | None => ret tt
      end
  | SocketClose server code =>
      (* the event reports the connection closed: a send on it throws
         from now on *)
      let* _ := Socket.close server code in
      let* l := gets (fun w => listener_of server (listening w)) in
      match l with
      | Some clientId => on_close clientId
      | None => ret tt
      end
  | SocketError server =>
      let* l := gets (fun w => listener_of server (listening w)) in
      match l with
      | Some _ => on_error server
      | None => ret tt
      end
  end.

Fixpoint run (evs : list Event) : M unit :=
  match evs with
  | [] => ret tt
  | ev :: rest => do* handle ev in run rest
  end.

(** The world of an actor that has not run yet, for given readings of the
    clock and of the two random sources. *)
Definition genesis (clk : nat -> Z) (ids : nat -> string) (rnd : nat -> byte)
  : World :=
  {| stored_room := None; stored_invites := None; puts := [];
     sessions := []; sockets := []; sent := []; listening := [];
     stringified := 0;
     clock := clk; clock_reads := 0;
     uuids := ids; uuid_reads := 0;
     entropy := rnd; entropy_reads := 0 |}.

(** The requests the router sends to the actor: [POST https://do/init]
    and [POST https://do/invite]. *)
Definition init_request : Request :=
  {| method := "POST"; hostname := "do"; pathname := "/init";
     searchParams := [] |}.

Definition invite_request : Request :=
  {| method := "POST"; hostname := "do"; pathname := "/invite";
     searchParams := [] |}.

(** The three mutation entry points of the room. *)
Inductive Mutation : Type :=
| Join (p : Participant)
| Leave (id : string)
| SetFocus (byId type content : string).

Definition mutate (m : Mutation) : M unit :=
  match m with
  | Join p => _addParticipant p
  | Leave id => _removeParticipant id
  | SetFocus byId type content => _setFocus byId type content
  end.

(** The timeline kind that names the triggering event, and who caused it. *)
Definition kind_of (m : Mutation) : string :=
  match m with
  | Join _ => "join"
  | Leave _ => "leave"
  | SetFocus _ _ _ => "set_focus"
  end.

Definition actor_of (m : Mutation) : string :=
  match m with
  | Join p => p_id p
  | Leave id => id
  | SetFocus byId _ _ => byId
  end.

(** Roster events of one room: a successful join adds the participant of
    the new connection, a disconnect removes by session id. *)
Inductive Arrival : Type :=
| Connect (p : Participant)
| Disconnect (id : string).

Definition arrive (a : Arrival) : M unit :=
  match a with
  | Connect p => _addParticipant p
  | Disconnect id => _removeParticipant id
  end.

Definition replay (evs : list Arrival) : M unit := for_each arrive evs.

(** The participants that joined, in join order, and the ids that
    disconnected. *)
Fixpoint joined (evs : list Arrival) : list Participant :=
  match evs with
  | [] => []
  | Connect p :: rest => p :: joined rest
  | Disconnect _ :: rest => joined rest
  end.

Fixpoint disconnected (evs : list Arrival) : list string :=
  match evs with
  | [] => []
  | Connect _ :: rest => disconnected rest
  | Disconnect id :: rest => id :: disconnected rest
  end.

(** Session ids are allocated fresh: the id of a joining connection was
    not used by an earlier event of the room ([seen] holds the ids used so
    far). *)
Fixpoint fresh_ids (seen : list string) (evs : list Arrival) : Prop :=
  match evs with
  | [] => True
  | Connect p :: rest => (p_id p ∉ seen) /\ fresh_ids (p_id p :: seen) rest
  | Disconnect id :: rest => fresh_ids (id :: seen) rest
  end.

(** The deliveries a broadcast of [data] owes: one per registered
    session whose socket takes frames, in the order of the session map. *)
Definition deliveries (data : Frame) (socks : list SocketState)
    (all : list (string * Session)) : list (nat * Frame) :=
  map (fun kv => (s_ws (snd kv), data))
      (filter (fun kv => Socket.is_open socks (s_ws (snd kv))) all).

(** The initial focus and the creation event of the specification. *)
Definition fresh_focus (ts : Z) : FocusState :=
  {| f_type := "question"; f_content := ""; f_author := "";
     f_authorName := ""; f_ts := ts |}.

Definition room_started (ts : Z) : TimelineEvent :=
  {| t_ts := ts; t_kind := "room_started"; t_by := "" |}.

(** The fresh room of the specification: created at [now], with the
    initial focus, nobody present and the one [room_started] event. *)
Definition fresh_room (now : Z) : Room :=
  {| startedAt := now; focus := fresh_focus now; participants := [];
     timeline := [room_started now] |}.

(** A focus as the data model describes it: one of the two types, and a
    content within the cap. *)
Definition well_formed_focus (f : FocusState) : Prop :=
  (f_type f = "question" \/ f_type f = "text")
  /\ (String.length (f_content f) <= 4000)%nat.

(** Events that set the focus: a parsed message of kind [set_focus]. *)
Definition is_set_focus (ev : Event) : bool :=
  match ev with
  | SocketMessage _ (Some msg) =>
      JsValue.is_string (JsValue.prop msg "kind") "set_focus"
  | _ => false
  end.

(** [c] keeps [Q]: from a world in [Q] it ends in a world in [Q]. *)
Definition keeps {A} (Q : World -> Prop) (c : M A) : Prop :=
  forall w, Q w -> Q (exec c w).

(** The stored room, if there is one, satisfies [P]. *)
Definition room_inv (P : Room -> Prop) (w : World) : Prop :=
  forall r, stored_room w = Some r -> P r.

(** The focus of the stored room is well formed. *)
Definition focus_ok (r : Room) : Prop := well_formed_focus (focus r).

(** The focus of the stored room is still the initial one. *)
Definition focus_initial (r : Room) : Prop :=
  focus r = fresh_focus (startedAt r).

(** The reply that hands the client end of a new socket pair over. *)
Definition upgraded (w : World) : Outcome :=
  Returned {| status := 101; body := NoBody;
              webSocket := Some (length (sockets w)) |}.

(** Nothing of a connection was set up between [w] and [w']: same
    sockets, sessions, listeners and frames, and the same room. *)
Definition no_upgrade (w w' : World) : Prop :=
  sockets w' = sockets w /\ sessions w' = sessions w
  /\ listening w' = listening w /\ sent w' = sent w
  /\ stored_room w' = stored_room w.

(** The URL-safe alphabet: letters, digits, [-] and [_]. *)
Definition url_safe (c : ascii) : bool :=
  let n := N_of_ascii c in
  ((65 <=? n) && (n <=? 90) || (97 <=? n) && (n <=? 122)
   || (48 <=? n) && (n <=? 57) || (n =? 45) || (n =? 95))%N.

(** The character a six-bit value ends up as in a token. *)
Definition url_char (n : N) : ascii :=
  if (n =? 62)%N then "-"%char
  else if (n =? 63)%N then "_"%char
  else Base64.char n.

Definition sextets : list N := map N.of_nat (seq 0 64).

(** The value of a byte as a code unit. *)
Definition code (b : byte) : N := N_of_ascii (ascii_of_byte b).

(** ** A concrete room *)

Module Scenario.

(** A clock that advances five milliseconds per reading, and then
    stands shortly before the expiry reported for the first invite. *)
Definition clk (n : nat) : Z :=
  if (n <? 3)%nat then 1000 + 5 * Z.of_nat n else 901007.

Definition ids (n : nat) : string :=
  "session-" ++ String (ascii_of_nat (48 + n)) "".

Definition rnd (n : nat) : byte :=
  default x00 (Byte.of_N (N.of_nat (n * 37 + 11) mod 256)).

(** The room right after [POST /room] created it. *)
Definition created : World :=
  exec (fetch init_request) (genesis clk ids rnd).

(** The same room after one [POST /room/R/invite]. *)
Definition invited : World := exec (fetch invite_request) created.

(** [GET /room/R/ws?token=..&name=..&role=..] *)
Definition connect_request (token name role : string) : Request :=
  {| method := "GET"; hostname := "rooms.example";
     pathname := "/room/R/ws";
     searchParams := [("token", token); ("name", name); ("role", role)] |}.

(** A second room, on a clock that keeps its pace: created, one invite
    issued, then Ada and Bob connected with it. *)
Definition steady (n : nat) : Z := 1000 + 5 * Z.of_nat n.

Definition opened : World :=
  exec (fetch invite_request)
    (exec (fetch init_request) (genesis steady ids rnd)).

Definition token : string := "CzBVep_E6Q4zWH2ix-wRNluA".

Definition with_ada : World :=
  exec (fetch (connect_request token " Ada " "Host")) opened.

Definition with_bob : World :=
  exec (fetch (connect_request token "Bob" "")) with_ada.

(** Ada's connection breaks; her [close] event has not been handled. *)
Definition ada_gone : World := exec (Socket.close 1 1006) with_bob.

(** [{kind: "set_focus", payload: {type: "poll", content: "  Hello  "}}] *)
Definition poll_message : Json :=
  JObject [("kind", JString "set_focus");
           ("payload", JObject [("type", JString "poll");
                                ("content", JString "  Hello  ")])].

(** [{kind: "set_focus", payload: {content: {toString: 1}}}] *)
Definition unstringable_message : Json :=
  JObject [("kind", JString "set_focus");
           ("payload", JObject [("content",
                                 JObject [("toString", JNumber "1")])])].

Definition ada : Participant :=
  {| p_id := "a"; p_name := "Ada"; p_role := "Host"; p_joinedAt := 1 |}.

Definition bob : Participant :=
  {| p_id := "b"; p_name := "Bob"; p_role := "Gast"; p_joinedAt := 2 |}.

End Scenario.

(** The participants a reader of the room sees. *)
Definition roster (w : World) : list Participant :=
  participants (eval _getRoom w).

(** The code units of a string, and what [trimStart] leaves of them. *)
Fixpoint skip_whitespace (l : list ascii) : list ascii :=
  match l with
  | c :: l' => if JsString.is_whitespace c then skip_whitespace l' else l
  | [] => []
  end.

(** No whitespace at the front, or at the back, of a sequence of code
    units. *)
Definition clean_front (l : list ascii) : Prop :=
  match l with
  | c :: _ => JsString.is_whitespace c = false
  | [] => True
  end.

Definition clean_back (l : list ascii) : Prop := clean_front (rev l).

Definition units (s : string) : list ascii := list_ascii_of_string s.

(** A sequence of whitespace only. *)
Definition blank (l : list ascii) : Prop :=
  Forall (fun c => JsString.is_whitespace c = true) l.

(** A query parameter that is absent or holds whitespace only. *)
Definition missing_or_blank (v : option Json) : Prop :=
  match v with
  | None => True
  | Some (JString s) => blank (units s)
  | Some _ => False
  end.

(** The [kind] of a parsed message, when it is a string. *)
Definition kind_is (msg : Json) (k : string) : bool :=
  JsValue.is_string (JsValue.prop msg "kind") k.

(** The internal create call: [POST https://do/init]. *)
Definition is_init (req : Request) : bool :=
  String.eqb (method req) "POST" && String.eqb (hostname req) "do"
  && String.eqb (pathname req) "/init".

(** Events that re-create the room. *)
Definition resets (ev : Event) : bool :=
  match ev with
  | Fetch req => is_init req
  | _ => false
  end.

(** A property of what is stored under the [room] key. *)
Definition stored (R : option Room -> Prop) (w : World) : Prop :=
  R (stored_room w).
(** The stored room continues [r0]: same creation instant, and the
    timeline of [r0] is an initial part of its timeline. *)
Definition continues (r0 : Room) (o : option Room) : Prop :=
  exists r, o = Some r /\ startedAt r = startedAt r0
            /\ timeline r0 `prefix_of` timeline r.

(** A timeline opens with the creation event of its room and goes on
    with joins, leaves and focus changes only. *)
Definition mutation_event (e : TimelineEvent) : Prop :=
  t_kind e = "join" \/ t_kind e = "leave" \/ t_kind e = "set_focus".

Definition timeline_shape (r : Room) : Prop :=
  exists rest,
    timeline r = room_started (startedAt r) :: rest
    /\ Forall mutation_event rest.

(** A name and role as a connection carries them. *)
Definition identity_ok (name role : string) : Prop :=
  name <> "" /\ (String.length name <= 40)%nat
  /\ role <> "" /\ (String.length role <= 20)%nat.

(** A participant with such a name and role whose join is on record. *)
Definition participant_ok (tl : list TimelineEvent) (p : Participant) : Prop :=
  identity_ok (p_name p) (p_role p)
  /\ exists e, e ∈ tl /\ t_kind e = "join" /\ t_by e = p_id p.

Definition roster_ok (r : Room) : Prop :=
  Forall (participant_ok (timeline r)) (participants r).

(** A property of an existing room, void while there is none. *)
Definition when_stored (P : Room -> Prop) (o : option Room) : Prop :=
  forall r, o = Some r -> P r.

(** The internal invite call: [POST https://do/invite]. *)
Definition is_invite (req : Request) : bool :=
  String.eqb (method req) "POST" && String.eqb (hostname req) "do"
  && String.eqb (pathname req) "/invite".



(** ** The Worker in front of the rooms: the default export *)

(** [s] without the prefix [p], when it starts with it. *)
Fixpoint strip_prefix (p s : string) : option string :=
  match p, s with
  | EmptyString, _ => Some s
  | String a p', String b s' =>
      if Ascii.eqb a b then strip_prefix p' s' else None
  | String _ _, EmptyString => None
  end.

(** The longest run of characters other than [/] at the front of a
    string, and what follows it: how [([^/]+)] is matched before a
    slash. *)
Fixpoint segment (s : string) : string * string :=
  match s with
  | EmptyString => (EmptyString, EmptyString)
  | String c s' =>
      if Ascii.eqb c "/" then (EmptyString, s)
      else (String c (fst (segment s')), snd (segment s'))
  end.

(** [m[1]] of [path.match(/^\/room\/([^/]+)<suffix>$/)], [None] when the
    match is [null]; the suffix is [\/invite] or [\/ws]. *)
Definition room_path (suffix path : string) : option string :=
  match strip_prefix "/room/" path with
  | None => None
  | Some rest =>
      let seg := fst (segment rest) in
      if negb (String.eqb seg "") && String.eqb (snd (segment rest)) suffix
      then Some seg else None
  end.

(** No slash in a string. *)
Definition slashless (s : string) : Prop :=
  Forall (fun c => c <> "/"%char) (list_ascii_of_string s).

Module Worker.

(** Plain objects with string values, in insertion order. *)
Definition Headers : Type := list (string * string).

Definition CORS : Headers :=
  [("Access-Control-Allow-Origin", "*");
   ("Access-Control-Allow-Methods", "GET,HEAD,POST,OPTIONS");
   ("Access-Control-Allow-Headers", "content-type")].

(** [o[k] = v] *)
Fixpoint assign (k v : string) (o : Headers) : Headers :=
  match o with
  | [] => [(k, v)]
  | (k', v') :: rest =>
      if String.eqb k k' then (k, v) :: rest else (k', v') :: assign k v rest
  end.

(** [{ ...a, ...b }] *)
Definition spread (a b : Headers) : Headers :=
  fold_left (fun o kv => assign (fst kv) (snd kv) o) b a.

(** [o[k]] *)
Fixpoint get (k : string) (o : Headers) : option string :=
  match o with
  | [] => None
  | (k', v) :: rest => if String.eqb k k' then Some v else get k rest
  end.

(** What the worker serializes: [{ roomId }] and [{ error }]. *)
Inductive Payload : Type :=
| RoomId (roomId : string)
| Error (error : string).

Inductive Content : Type :=
| Raw (s : string)
| Stringified (obj : Payload).

(** A response made by [resp]. *)
Record Built : Type := {
  b_status : Z;
  b_headers : Headers;
  b_body : Content;
}.

Definition resp (body : Content) (status : Z) (extra : Headers) : Built :=
  {| b_status := status; b_headers := spread CORS extra; b_body := body |}.

Definition json (obj : Payload) (status : Z) : Built :=
  resp (Stringified obj) status
    [("Content-Type", "application/json; charset=utf-8")].

Definition bad (msg : string) (status : Z) : Built := json (Error msg) status.

(** What the promise of the handler settles to: a response of the
    worker's own, the settlement of [stub.fetch] passed on as it is, or
    an exception. *)
Inductive Reply : Type :=
| Answered (r : Built)
| Relayed (o : Outcome)
| Thrown.

(** The actors behind the binding [env.ROOMS], one per name, and the
    worker's own readings of [crypto.randomUUID]. *)
Record Cloud : Type := {
  rooms : string -> World;
  edge_uuids : nat -> string;
  edge_uuid_reads : nat;
}.

(** [env.ROOMS.get(env.ROOMS.idFromName(roomId)).fetch(r)] *)
Definition stub_fetch (roomId : string) (r : Request) (c : Cloud)
  : Outcome * Cloud :=
  let ow := fetch r (rooms c roomId) in
  (fst ow,
   {| rooms := fun k => if String.eqb k roomId then snd ow else rooms c k;
      edge_uuids := edge_uuids c;
      edge_uuid_reads := edge_uuid_reads c |}).

(** [POST /room] *)
Definition is_create (req : Request) : bool :=
  String.eqb (method req) "POST" && String.eqb (pathname req) "/room".

(** The handler.  [decodeURIComponent] is a parameter: [None] is its
    [URIError]. *)
Definition fetch (decodeURIComponent : string -> option string)
    (req : Request) (c : Cloud) : Reply * Cloud :=
  if String.eqb (method req) "OPTIONS"
  then (Answered (resp (Raw "") 204 []), c)
  else
    let path := pathname req in
    if String.eqb (method req) "POST" && String.eqb path "/room"
    then
      let roomId := edge_uuids c (edge_uuid_reads c) in
      let c1 := {| rooms := rooms c; edge_uuids := edge_uuids c;
                   edge_uuid_reads := S (edge_uuid_reads c) |} in
      let oc := stub_fetch roomId init_request c1 in
      match fst oc with
      | Threw => (Thrown, snd oc)
      | Returned _ => (Answered (json (RoomId roomId) 200), snd oc)
      end
    else
      match (if String.eqb (method req) "POST"
             then room_path "/invite" path else None) with
      | Some m1 =>
          match decodeURIComponent m1 with
          | None => (Thrown, c)
          | Some roomId =>
              let oc := stub_fetch roomId invite_request c in
              (Relayed (fst oc), snd oc)
          end
      | None =>
          match (if String.eqb (method req) "GET"
                 then room_path "/ws" path else None) with
          | Some m1 =>
              match decodeURIComponent m1 with
              | None => (Thrown, c)
              | Some roomId =>
                  let oc := stub_fetch roomId req c in
                  (Relayed (fst oc), snd oc)
              end
          | None => (Answered (bad "Not found" 404), c)
          end
      end.

End Worker.

(** Where a request is sent, if anywhere: the name of the room and the
    request its actor is handed. *)
Definition relayed_to (decode : string -> option string) (req : Request)
    (c : Worker.Cloud) : option (string * Request) :=
  if String.eqb (method req) "OPTIONS" then None
  else if Worker.is_create req
  then Some (Worker.edge_uuids c (Worker.edge_uuid_reads c), init_request)
  else if String.eqb (method req) "POST"
  then match room_path "/invite" (pathname req) with
       | Some m1 => option_map (fun id => (id, invite_request)) (decode m1)
       | None => None
       end
  else if String.eqb (method req) "GET"
  then match room_path "/ws" (pathname req) with
       | Some m1 => option_map (fun id => (id, req)) (decode m1)
       | None => None
       end
  else None.

(** * Properties *)

(** ** The monad *)

Lemma exec_bind {A B} (c : M A) (k : A -> M B) (w : World) :
  exec (bind c k) w = exec (k (eval c w)) (exec c w).
Proof. unfold exec, eval, bind. destruct (c w); reflexivity. Qed.

Lemma eval_bind {A B} (c : M A) (k : A -> M B) (w : World) :
  eval (bind c k) w = eval (k (eval c w)) (exec c w).
Proof. unfold exec, eval, bind. destruct (c w); reflexivity. Qed.

Lemma run_pair {A} (c : M A) (w : World) : c w = (eval c w, exec c w).
Proof. unfold exec, eval. destruct (c w); reflexivity. Qed.

(** ** Loading the room *)

Lemma getRoom_stored (w : World) (r : Room) :
  stored_room w = Some r -> _getRoom w = (r, w).
Proof.
  intros H. unfold _getRoom, bind, Storage.get_room, gets.
  rewrite H. reflexivity.
Qed.

(** On first access the room is built from one clock reading and written
    once. *)
Lemma getRoom_absent (w : World) :
  stored_room w = None ->
  let t := clock w (clock_reads w) in
  let fresh :=
    {| startedAt := t; focus := fresh_focus t; participants := [];
       timeline := [room_started t] |} in
  _getRoom w =
    (fresh,
     set_puts (puts w ++ [PutRoom fresh])%list
       (set_stored_room (Some fresh) (set_clock_reads (S (clock_reads w)) w))).
Proof.
  intros H. unfold _getRoom, bind, Storage.get_room, gets.
  rewrite H. reflexivity.
Qed.

(** After a load the room is in storage, so a second load changes nothing. *)
Lemma getRoom_persisted (w : World) :
  stored_room (exec _getRoom w) = Some (eval _getRoom w).
Proof.
  destruct (stored_room w) as [r|] eqn:E.
  - unfold exec, eval. rewrite (getRoom_stored w r E). exact E.
  - unfold exec, eval. rewrite (getRoom_absent w E). reflexivity.
Qed.

Lemma getRoom_again (w : World) :
  _getRoom (exec _getRoom w) = (eval _getRoom w, exec _getRoom w).
Proof. apply getRoom_stored, getRoom_persisted. Qed.

(** A load leaves the session hub alone. *)
Lemma getRoom_hub (w : World) :
  sessions (exec _getRoom w) = sessions w
  /\ sockets (exec _getRoom w) = sockets w
  /\ sent (exec _getRoom w) = sent w
  /\ stringified (exec _getRoom w) = stringified w.
Proof.
  unfold exec. destruct (stored_room w) as [r|] eqn:E.
  - rewrite (getRoom_stored w r E). auto.
  - rewrite (getRoom_absent w E). auto.
Qed.

(** ** Mutations *)

(** What one mutation does to the world the load leaves behind: it writes
    the room once, with the timeline one event longer. *)
Lemma mutate_step (m : Mutation) (w : World) :
  let room := eval _getRoom w in
  let w1 := exec _getRoom w in
  let w2 := exec (mutate m) w in
  exists (ev : TimelineEvent) (room' : Room),
    t_kind ev = kind_of m /\ t_by ev = actor_of m
    /\ timeline room' = (timeline room ++ [ev])%list
    /\ startedAt room' = startedAt room
    /\ puts w2 = (puts w1 ++ [PutRoom room'])%list
    /\ stored_room w2 = Some room'
    /\ match m with
       | Join p =>
           participants room' = (participants room ++ [p])%list
           /\ focus room' = focus room
       | Leave id =>
           participants room' =
             filter (fun x => negb (String.eqb (p_id x) id)) (participants room)
           /\ focus room' = focus room
       | SetFocus byId type content =>
           participants room' = participants room
           /\ f_type (focus room') = type
           /\ f_content (focus room') = content
           /\ f_author (focus room') = byId
       end.
Proof.
  intros room w1 w2. subst room w1 w2. unfold exec, eval.
  destruct (mutate m w) as [u w2] eqn:Em.
  destruct m as [p|id|byId type content]; simpl in Em;
    [unfold _addParticipant in Em|unfold _removeParticipant in Em
    |unfold _setFocus in Em];
    unfold bind at 1 in Em; destruct (_getRoom w) as [room w1];
    injection Em as _ <-; simpl;
    eexists (Build_TimelineEvent _ _ _), (Build_Room _ _ _ _); simpl;
    repeat split; reflexivity.
Qed.

Lemma mutate_hub (m : Mutation) (w : World) :
  sessions (exec (mutate m) w) = sessions w
  /\ sockets (exec (mutate m) w) = sockets w
  /\ sent (exec (mutate m) w) = sent w
  /\ stringified (exec (mutate m) w) = stringified w.
Proof.
  destruct (getRoom_hub w) as (H1 & H2 & H3 & H4). revert H1 H2 H3 H4.
  unfold exec.
  destruct (mutate m w) as [u w2] eqn:Em.
  destruct m as [p|id|byId type content]; simpl in Em;
    [unfold _addParticipant in Em|unfold _removeParticipant in Em
    |unfold _setFocus in Em];
    unfold bind at 1 in Em; destruct (_getRoom w) as [room w1];
    injection Em as _ <-; simpl; auto.
Qed.

Lemma mutate_timeline (m : Mutation) (w : World) :
  length (timeline (eval _getRoom (exec (mutate m) w)))
  = S (length (timeline (eval _getRoom w))).
Proof.
  destruct (mutate_step m w) as (ev & room' & _ & _ & Ht & _ & _ & Hs & _).
  unfold eval at 1. rewrite (getRoom_stored _ _ Hs). simpl.
  rewrite Ht, length_app. simpl. lia.
Qed.

Lemma mutations_timeline (ms : list Mutation) (w : World) :
  length (timeline (eval _getRoom (exec (for_each mutate ms) w)))
  = (length (timeline (eval _getRoom w)) + length ms)%nat.
Proof.
  revert w. induction ms as [|m ms IH]; intros w; simpl.
  - unfold exec at 1. simpl. lia.
  - rewrite exec_bind, IH, mutate_timeline. lia.
Qed.

Lemma init_room (w : World) :
  let t := clock w (clock_reads w) in
  stored_room (exec (fetch init_request) w)
  = Some {| startedAt := t; focus := fresh_focus t; participants := [];
            timeline := [room_started t] |}.
Proof. reflexivity. Qed.

(** C1. Every mutation of the room (adding a participant, removing one,
    setting the focus) appends exactly one timeline event, whose kind is
    that of the triggering event and whose [by] is its author, and the
    appended timeline and the state change reach storage in one and the
    same [put] (the only write the mutation adds after the room is
    loaded).  Hence after creation, explicit or on first access, and [N]
    mutations the timeline has [N + 1] events. *)
Theorem mutation_appends_one_event :
  (forall (m : Mutation) (w : World),
     let room := eval _getRoom w in
     let w1 := exec _getRoom w in
     let w2 := exec (mutate m) w in
     exists (ev : TimelineEvent) (room' : Room),
       t_kind ev = kind_of m /\ t_by ev = actor_of m
       /\ timeline room' = (timeline room ++ [ev])%list
       /\ puts w2 = (puts w1 ++ [PutRoom room'])%list
       /\ stored_room w2 = Some room'
       /\ match m with
          | Join p =>
              participants room' = (participants room ++ [p])%list
              /\ focus room' = focus room
          | Leave id =>
              participants room' =
                filter (fun x => negb (String.eqb (p_id x) id))
                       (participants room)
              /\ focus room' = focus room
          | SetFocus byId type content =>
              participants room' = participants room
              /\ f_type (focus room') = type
              /\ f_content (focus room') = content
              /\ f_author (focus room') = byId
          end)
  /\ (forall (ms : list Mutation) (w : World),
        length (timeline (eval _getRoom
                  (exec (for_each mutate ms) (exec (fetch init_request) w))))
        = (length ms + 1)%nat)
  /\ (forall (ms : list Mutation) (w : World),
        length (timeline (eval _getRoom
                  (exec (for_each mutate ms)
                     (exec _getRoom (set_stored_room None w)))))
        = (length ms + 1)%nat).
Proof.
  split; [|split].
  - intros m w.
    destruct (mutate_step m w)
      as (ev & room' & H1 & H2 & H3 & _ & H4 & H5 & H6).
    exists ev, room'. repeat split; try assumption.
  - intros ms w. rewrite mutations_timeline.
    unfold eval at 1. rewrite (getRoom_stored _ _ (init_room w)). simpl. lia.
  - intros ms w. rewrite mutations_timeline.
    unfold eval at 1. rewrite getRoom_again.
    unfold eval. rewrite getRoom_absent by reflexivity. simpl. lia.
Qed.

(** ** The roster under joins and disconnects *)

(** The roster is read off the stored room; a room not yet created has
    nobody in it. *)
Lemma roster_stored (w : World) :
  roster w = match stored_room w with
             | Some r => participants r
             | None => []
             end.
Proof.
  unfold roster, eval. destruct (stored_room w) as [r|] eqn:E.
  - rewrite (getRoom_stored w r E). reflexivity.
  - rewrite (getRoom_absent w E). reflexivity.
Qed.

Lemma arrive_roster (a : Arrival) (w : World) :
  roster (exec (arrive a) w) =
  match a with
  | Connect p => (roster w ++ [p])%list
  | Disconnect id =>
      filter (fun x => negb (String.eqb (p_id x) id)) (roster w)
  end.
Proof.
  unfold roster.
  destruct a as [p|id].
  - destruct (mutate_step (Join p) w)
      as (ev & room' & _ & _ & _ & _ & _ & Hs & Hp & _).
    simpl in *. unfold eval at 1. rewrite (getRoom_stored _ _ Hs). exact Hp.
  - destruct (mutate_step (Leave id) w)
      as (ev & room' & _ & _ & _ & _ & _ & Hs & Hp & _).
    simpl in *. unfold eval at 1. rewrite (getRoom_stored _ _ Hs). exact Hp.
Qed.

Lemma keep_not_id (id : string) (x : Participant) :
  negb (String.eqb (p_id x) id) <-> p_id x ≠ id.
Proof.
  destruct (String.eqb_spec (p_id x) id) as [E|E]; simpl; split; intros H;
    try done.
Qed.

(** Removing an id that no participant carries keeps the whole roster. *)
Lemma remove_absent (id : string) (l : list Participant) :
  id ∉ map p_id l ->
  filter (fun x => negb (String.eqb (p_id x) id)) l = l.
Proof.
  induction l as [|x l IH]; intros H; [reflexivity|].
  simpl in H. apply not_elem_of_cons in H as [Hx Hl].
  rewrite filter_cons_True by (apply keep_not_id; congruence).
  f_equal. apply IH, Hl.
Qed.

Lemma filter_agree {A} (P Q : A -> Prop) `{DP : !forall x, Decision (P x)}
    `{DQ : !forall x, Decision (Q x)} (l : list A) :
  (forall x, x ∈ l -> P x <-> Q x) -> filter P l = filter Q l.
Proof.
  induction l as [|a l IH]; intros H; [reflexivity|].
  assert (Hl : filter P l = filter Q l).
  { apply IH. intros x Hx. apply H. right. exact Hx. }
  destruct (decide (P a)) as [Pa|Pa].
  - rewrite !filter_cons_True; [congruence|apply H; [left|exact Pa]|exact Pa].
  - rewrite !filter_cons_False; [exact Hl| |exact Pa].
    intros Qa. apply Pa, H; [left|exact Qa].
Qed.

Lemma later_joiners_differ (id : string) (evs : list Arrival)
    (seen : list string) :
  id ∈ seen -> fresh_ids seen evs ->
  forall x, x ∈ joined evs -> p_id x ≠ id.
Proof.
  revert seen.
  induction evs as [|[q|j] evs IH]; intros seen Hid Hf x Hx; simpl in *.
  - apply elem_of_nil in Hx. destruct Hx.
  - destruct Hf as [Hq Hf]. apply elem_of_cons in Hx as [->|Hx].
    + intros E. apply Hq. rewrite E. exact Hid.
    + apply (IH (p_id q :: seen)); [right; exact Hid|exact Hf|exact Hx].
  - apply (IH (j :: seen)); [right; exact Hid|exact Hf|exact Hx].
Qed.

(** The roster after a replay: the old roster and the joiners, without
    the ids that disconnected. *)
Lemma replay_roster (evs : list Arrival) (w : World) (seen : list string) :
  fresh_ids seen evs ->
  roster (exec (replay evs) w) =
  (filter (fun x => p_id x ∉ disconnected evs) (roster w)
   ++ filter (fun x => p_id x ∉ disconnected evs) (joined evs))%list.
Proof.
  revert w seen. induction evs as [|a evs IH]; intros w seen Hf.
  - simpl. unfold exec at 1. simpl.
    rewrite app_nil_r. symmetry.
    induction (roster w) as [|x l IHl]; [reflexivity|].
    rewrite filter_cons_True by apply not_elem_of_nil. f_equal. exact IHl.
  - unfold replay. simpl for_each. rewrite exec_bind. fold (replay evs).
    destruct a as [p|id]; simpl in Hf.
    + destruct Hf as [Hp Hf].
      rewrite (IH _ (p_id p :: seen) Hf).
      rewrite (arrive_roster (Connect p) w). simpl.
      rewrite filter_app, <- app_assoc. f_equal.
      symmetry. apply (filter_app _ [p]).
    + rewrite (IH _ (id :: seen) Hf).
      rewrite (arrive_roster (Disconnect id) w). simpl. f_equal.
      * rewrite list_filter_filter. apply list_filter_iff.
        intros x. rewrite keep_not_id, not_elem_of_cons. tauto.
      * apply filter_agree. intros x Hx.
        rewrite not_elem_of_cons.
        pose proof (later_joiners_differ id evs (id :: seen)
                      ltac:(left) Hf x Hx). tauto.
Qed.

(** C2. For every sequence of successful joins and disconnects applied to
    a room with an empty roster, in which every joining session id is
    fresh, the resulting participants are exactly the joined participants
    whose id did not disconnect, in their join order: removal filters the
    sequence and never reorders it. *)
Theorem roster_is_joined_minus_disconnected
    (evs : list Arrival) (w : World) :
  fresh_ids [] evs ->
  roster w = [] ->
  let result := roster (exec (replay evs) w) in
  result = filter (fun p => p_id p ∉ disconnected evs) (joined evs)
  /\ (forall i, i ∈ map p_id result <->
                i ∈ map p_id (joined evs) /\ i ∉ disconnected evs)
  /\ sublist result (joined evs).
Proof.
  intros Hf Hw result.
  assert (Hr : result =
               filter (fun p => p_id p ∉ disconnected evs) (joined evs)).
  { subst result. rewrite (replay_roster evs w [] Hf), Hw. reflexivity. }
  split; [exact Hr|split].
  - intros i. rewrite Hr, !list_elem_of_fmap. split.
    + intros (x & -> & Hx). apply list_elem_of_filter in Hx as [Hd Hx].
      split; [exists x; split; [reflexivity|exact Hx]|exact Hd].
    + intros [(x & -> & Hx) Hd]. exists x. split; [reflexivity|].
      apply list_elem_of_filter. split; assumption.
  - rewrite Hr. apply sublist_filter.
Qed.

Lemma roster_is_joined_minus_disconnected_witness :
  let evs := [Connect Scenario.ada; Connect Scenario.bob; Disconnect "a"] in
  fresh_ids [] evs
  /\ roster Scenario.created = []
  /\ roster (exec (replay evs) Scenario.created) = [Scenario.bob].
Proof.
  intros evs.
  assert (Hf : fresh_ids [] evs).
  { simpl. split; [apply not_elem_of_nil|]. split; [|exact I].
    intros H. apply list_elem_of_singleton in H. discriminate. }
  assert (Hw : roster Scenario.created = []) by reflexivity.
  split; [exact Hf|]. split; [exact Hw|].
  exact (proj1 (roster_is_joined_minus_disconnected evs Scenario.created
                  Hf Hw)).
Defined.


(** C10. Removing a participant by an id that no participant of the room
    carries leaves the roster as it was, and still appends a [leave]
    event with [by] equal to that id and writes the room: a second
    removal of the same id changes no roster but lengthens the timeline
    again. *)
Theorem remove_absent_participant (id : string) (w : World) :
  id ∉ map p_id (roster w) ->
  let room := eval _getRoom w in
  let w' := exec (_removeParticipant id) w in
  (exists (ev : TimelineEvent) (room' : Room),
     stored_room w' = Some room'
     /\ puts w' = (puts (exec _getRoom w) ++ [PutRoom room'])%list
     /\ participants room' = participants room
     /\ timeline room' = (timeline room ++ [ev])%list
     /\ t_kind ev = "leave" /\ t_by ev = id)
  /\ roster (exec (_removeParticipant id) w') = roster w'
  /\ length (timeline (eval _getRoom (exec (_removeParticipant id) w')))
     = S (length (timeline (eval _getRoom w'))).
Proof.
  intros Hid room w'. subst room w'. split; [|split].
  - destruct (mutate_step (Leave id) w)
      as (ev & room' & Hk & Hb & Ht & _ & Hp & Hs & Hr & _).
    simpl in *. exists ev, room'. repeat split; try assumption.
    rewrite Hr. apply remove_absent, Hid.
  - rewrite !(arrive_roster (Disconnect id)).
    apply list_filter_filter_l. tauto.
  - apply (mutate_timeline (Leave id)).
Qed.

Lemma remove_absent_participant_witness :
  ("session-9" ∉ map p_id (roster Scenario.with_bob))
  /\ roster (exec (_removeParticipant "session-9")
               (exec (_removeParticipant "session-9") Scenario.with_bob))
     = roster (exec (_removeParticipant "session-9") Scenario.with_bob).
Proof.
  assert (Hid : "session-9" ∉ map p_id (roster Scenario.with_bob)).
  { change (map p_id (roster Scenario.with_bob))
      with ["session-0"; "session-1"].
    intros H. apply elem_of_cons in H as [H|H]; [discriminate|].
    apply list_elem_of_singleton in H. discriminate. }
  split; [exact Hid|].
  exact (proj1 (proj2 (remove_absent_participant "session-9"
                         Scenario.with_bob Hid))).
Defined.


(** ** Broadcast *)

Lemma send_run (ws : nat) (data : Frame) (w : World) :
  Socket.send ws data w =
  if Socket.is_open (sockets w) ws
  then (true, set_sent (sent w ++ [(ws, data)])%list w)
  else (false, w).
Proof.
  unfold Socket.send, bind, gets, modify, ret.
  destruct (Socket.is_open (sockets w) ws); reflexivity.
Qed.

Lemma send_each (data : Frame) (all : list (string * Session)) (w : World) :
  exec (for_each (fun kv => let* _ := Socket.send (s_ws (snd kv)) data in
                            ret tt) all) w
  = set_sent (sent w ++ deliveries data (sockets w) all)%list w.
Proof.
  revert w. induction all as [|[k s] all IH]; intros w.
  - unfold exec, deliveries. simpl. rewrite app_nil_r. destruct w; reflexivity.
  - simpl for_each. rewrite exec_bind, IH. clear IH.
    unfold deliveries, exec, bind. rewrite send_run. simpl.
    destruct (Socket.is_open (sockets w) (s_ws s)) eqn:E; simpl.
    + rewrite filter_cons_True by (simpl; rewrite E; exact I).
      simpl. rewrite <- app_assoc. reflexivity.
    + rewrite filter_cons_False by (simpl; rewrite E; exact id).
      reflexivity.
Qed.

Lemma broadcast_run (message : Message) (w : World) :
  exec (_broadcast message) w
  = set_sent
      (sent w ++ deliveries (JsonText message) (sockets w) (sessions w))%list
      (set_stringified (S (stringified w)) w).
Proof.
  unfold _broadcast. rewrite exec_bind.
  change (eval (Env.stringify message) w) with (JsonText message).
  change (exec (Env.stringify message) w)
    with (set_stringified (S (stringified w)) w).
  rewrite exec_bind.
  change (eval (gets sessions) (set_stringified (S (stringified w)) w))
    with (sessions w).
  change (exec (gets sessions) (set_stringified (S (stringified w)) w))
    with (set_stringified (S (stringified w)) w).
  rewrite send_each. reflexivity.
Qed.

(** C6. [_broadcast] serializes the message once and attempts every
    registered connection: each connection whose socket takes the frame
    receives it, in the order of the session map, whatever happens on the
    others.  In particular, when the send on one connection [j] of [K]
    fails and the others are open, the other [K - 1] all receive the
    message. *)
Theorem broadcast_best_effort (message : Message) (w : World) :
  let w' := exec (_broadcast message) w in
  stringified w' = S (stringified w)
  /\ sent w' =
     (sent w ++ deliveries (JsonText message) (sockets w) (sessions w))%list
  /\ sessions w' = sessions w
  /\ (forall (pre post : list (string * Session)) (j : string) (sj : Session),
        sessions w = (pre ++ (j, sj) :: post)%list ->
        Socket.is_open (sockets w) (s_ws sj) = false ->
        (forall kv, kv ∈ (pre ++ post)%list ->
                    Socket.is_open (sockets w) (s_ws (snd kv)) = true) ->
        sent w' =
          (sent w ++ map (fun kv => (s_ws (snd kv), JsonText message))
                         (pre ++ post))%list
        /\ length (sent w')
           = (length (sent w) + (length (sessions w) - 1))%nat).
Proof.
  intros w'. subst w'. rewrite broadcast_run. simpl.
  split; [reflexivity|]. split; [reflexivity|]. split; [reflexivity|].
  intros pre post j sj Hs Hj Hothers.
  assert (Hall : deliveries (JsonText message) (sockets w) (sessions w)
                 = map (fun kv => (s_ws (snd kv), JsonText message))
                       (pre ++ post)%list).
  { unfold deliveries. rewrite Hs. f_equal.
    rewrite filter_app.
    rewrite filter_cons_False by (simpl; rewrite Hj; exact id).
    rewrite <- filter_app.
    induction (pre ++ post)%list as [|x l IH]; [reflexivity|].
    rewrite filter_cons_True.
    - f_equal. apply IH. intros kv Hkv. apply Hothers. right. exact Hkv.
    - simpl. rewrite Hothers by left. exact I. }
  rewrite Hall. split; [reflexivity|].
  rewrite Hs, !length_app, length_map, !length_app. simpl. lia.
Qed.

Lemma broadcast_best_effort_witness :
  let w := Scenario.ada_gone in
  let ada := {| s_ws := 1; s_name := "Ada"; s_role := "Host" |} in
  let bob := {| s_ws := 3; s_name := "Bob"; s_role := "Gast" |} in
  let message := Focus (fresh_focus 0) in
  sessions w = ([] ++ ("session-0", ada) :: [("session-1", bob)])%list
  /\ Socket.is_open (sockets w) (s_ws ada) = false
  /\ sent (exec (_broadcast message) w)
     = (sent w ++ [(3%nat, JsonText message)])%list.
Proof.
  intros w ada bob message.
  assert (Hs : sessions w
               = ([] ++ ("session-0", ada) :: [("session-1", bob)])%list)
    by reflexivity.
  assert (Hj : Socket.is_open (sockets w) (s_ws ada) = false) by reflexivity.
  split; [exact Hs|]. split; [exact Hj|].
  refine (proj1 (proj2 (proj2 (proj2 (broadcast_best_effort message w)))
                  [] [("session-1", bob)] "session-0" ada Hs Hj _)).
  intros kv Hkv. apply list_elem_of_singleton in Hkv. subst kv. reflexivity.
Defined.


(** ** Setting the focus *)

Lemma length_string_of_list_ascii (l : list ascii) :
  String.length (string_of_list_ascii l) = length l.
Proof. induction l as [|c l IH]; simpl; congruence. Qed.

(** What [clampStr] returns is capped, whatever value it is given. *)
Lemma clampStr_length (v : option Json) (max : nat) (s : string) :
  clampStr v max = Some s -> (String.length s <= max)%nat.
Proof.
  unfold clampStr, JsString.slice0.
  destruct (JsValue.toString _) as [t|]; [|discriminate].
  intros [= <-].
  rewrite length_string_of_list_ascii, length_take. lia.
Qed.

Lemma or_else_empty (a : string) : JsString.or_else a "" = a.
Proof.
  unfold JsString.or_else, JsString.truthy.
  destruct (String.eqb_spec a ""); simpl; congruence.
Qed.

Lemma setFocus_stored (byId type content : string) (w : World) :
  let room := eval _getRoom w in
  exists ts ts' : Z,
    stored_room (exec (_setFocus byId type content) w) =
    Some {| startedAt := startedAt room;
            focus :=
              {| f_type := type; f_content := content; f_author := byId;
                 f_authorName :=
                   match Sessions.get byId (sessions w) with
                   | Some s => s_name s
                   | None => ""
                   end;
                 f_ts := ts |};
            participants := participants room;
            timeline :=
              (timeline room
               ++ [ {| t_ts := ts'; t_kind := "set_focus"; t_by := byId |} ]
              )%list |}.
Proof.
  intros room. subst room.
  destruct (getRoom_hub w) as (Hs & _). revert Hs.
  unfold exec, eval.
  destruct (_setFocus byId type content w) as [u w2] eqn:Em.
  unfold _setFocus in Em. unfold bind at 1 in Em.
  destruct (_getRoom w) as [room w1]. injection Em as _ <-. simpl.
  intros Hs. rewrite Hs.
  destruct (Sessions.get byId (sessions w)) as [s|];
    [rewrite or_else_empty|]; do 2 eexists; reflexivity.
Qed.

(** A message whose [kind] is the string [set_focus] passes the guard
    that drops malformed messages. *)
Lemma set_focus_not_dropped (msg : Json) :
  JsValue.is_string (JsValue.prop msg "kind") "set_focus" = true ->
  JsValue.not (Some msg) || JsValue.not (JsValue.prop msg "kind") = false.
Proof.
  destruct msg as [| | | | |fields]; simpl; try discriminate.
  destruct (JsValue.assoc "kind" fields) as [[| | |k| |]|]; simpl;
    try discriminate.
  destruct (String.eqb_spec k "set_focus") as [->|]; [reflexivity|discriminate].
Qed.

(** X26.  What a [set_focus] message from a connected session does.
    When [String] converts the content, the message is not rejected: the
    recorded type is [text] when the payload's type is the string [text]
    and the default [question] otherwise (also when it is missing); the
    content is capped at 4000 code units; the room's focus is
    overwritten with the sender's session id as author and the name
    cached for the session as author name, with one [set_focus] timeline
    event by the sender appended; and then a [focus] frame carrying the
    new focus alone is broadcast to every registered connection.  When
    [String] throws, the listener throws with it and nothing is done. *)
Theorem set_focus_message
    (clientId : string) (server : nat) (msg : Json) (s : Session) (w : World) :
  Sessions.get clientId (sessions w) = Some s ->
  JsValue.is_string (JsValue.prop msg "kind") "set_focus" = true ->
  let payload := JsValue.or_else (JsValue.prop msg "payload") (JObject []) in
  let before := eval _getRoom w in
  let w' := exec (on_message clientId server (Some msg)) w in
  match
    clampStr (Some (JsValue.or_else (JsValue.prop payload "content")
                                    (JString ""))) 4000
  with
  | None => on_message clientId server (Some msg) w = (Rejected, w)
  | Some content =>
      eval (on_message clientId server (Some msg)) w = Fulfilled
      /\ exists (room' : Room) (ev : TimelineEvent),
           stored_room w' = Some room'
           /\ f_type (focus room') =
              (if JsValue.is_string (JsValue.prop payload "type") "text"
               then "text" else "question")
           /\ (f_type (focus room') = "question"
               \/ f_type (focus room') = "text")
           /\ f_content (focus room') = content
           /\ (String.length (f_content (focus room')) <= 4000)%nat
           /\ f_author (focus room') = clientId
           /\ f_authorName (focus room') = s_name s
           /\ participants room' = participants before
           /\ timeline room' = (timeline before ++ [ev])%list
           /\ t_kind ev = "set_focus" /\ t_by ev = clientId
           /\ sent w' =
              (sent w ++ deliveries (JsonText (Focus (focus room')))
                                    (sockets w) (sessions w))%list
  end.
Proof.
  intros Hs Hk payload before w'.
  set (type := if JsValue.is_string (JsValue.prop payload "type") "text"
               then "text" else "question").
  destruct (clampStr (Some (JsValue.or_else
              (JsValue.prop payload "content") (JString ""))) 4000)
    as [content|] eqn:Hc.
  2:{ unfold on_message. rewrite (set_focus_not_dropped msg Hk), Hk.
      fold payload. rewrite Hc. reflexivity. }
  destruct (setFocus_stored clientId type content w) as (ts & ts' & Hst).
  fold before in Hst. rewrite Hs in Hst.
  destruct (mutate_hub (SetFocus clientId type content) w)
    as (Hses & Hsock & Hsent & _).
  simpl mutate in *.
  set (w1 := exec (_setFocus clientId type content) w) in *.
  assert (Hf : _getFocus w1 = (focus (eval _getRoom w1), w1)).
  { unfold _getFocus, bind, eval. rewrite (getRoom_stored _ _ Hst).
    reflexivity. }
  assert (Hfe : eval _getFocus w1 = focus (eval _getRoom w1))
    by (unfold eval at 1; rewrite Hf; reflexivity).
  assert (Hfx : exec _getFocus w1 = w1)
    by (unfold exec; rewrite Hf; reflexivity).
  assert (Hrun : w' = exec (_broadcast (Focus (focus (eval _getRoom w1)))) w1
                 /\ eval (on_message clientId server (Some msg)) w
                    = Fulfilled).
  { subst w'. unfold on_message.
    rewrite (set_focus_not_dropped msg Hk), Hk.
    fold payload. fold type. rewrite Hc.
    rewrite !exec_bind, !eval_bind. fold w1. rewrite Hfe, Hfx.
    split; reflexivity. }
  destruct Hrun as [Hrun Hful].
  split; [exact Hful|].
  clearbody w1 w'. subst w'.
  unfold eval. rewrite (getRoom_stored _ _ Hst). simpl fst.
  rewrite broadcast_run. simpl.
  rewrite Hses, Hsock, Hsent.
  eexists _, (Build_TimelineEvent _ _ _). split; [exact Hst|]. simpl.
  repeat split; try reflexivity.
  - subst type. destruct (JsValue.is_string _ "text"); auto.
  - apply (clampStr_length _ _ _ Hc).
Qed.

Lemma set_focus_message_witness :
  let w := Scenario.ada_gone in
  let bob := {| s_ws := 3; s_name := "Bob"; s_role := "Gast" |} in
  Sessions.get "session-1" (sessions w) = Some bob
  /\ JsValue.is_string (JsValue.prop Scenario.poll_message "kind") "set_focus"
     = true
  /\ exists room' ev,
       stored_room (exec (on_message "session-1" 3
                            (Some Scenario.poll_message)) w) = Some room'
       /\ f_type (focus room') = "question"
       /\ f_content (focus room') = "Hello"
       /\ f_author (focus room') = "session-1"
       /\ f_authorName (focus room') = "Bob"
       /\ timeline room' = (timeline (eval _getRoom w) ++ [ev])%list
       /\ t_kind ev = "set_focus".
Proof.
  intros w bob.
  assert (Hs : Sessions.get "session-1" (sessions w) = Some bob)
    by reflexivity.
  assert (Hk : JsValue.is_string (JsValue.prop Scenario.poll_message "kind")
                 "set_focus" = true) by reflexivity.
  split; [exact Hs|]. split; [exact Hk|].
  destruct (set_focus_message "session-1" 3 Scenario.poll_message bob w Hs Hk)
    as (_ & room' & ev & H1 & H2 & _ & H4 & _ & H6 & H7 & _ & H9 & H10 & _).
  exists room', ev. repeat split; assumption.
Defined.

(** C5, where the code departs from it.  A [set_focus] message whose
    content is an object with a property named [toString], or an array
    that holds one, is rejected outright: [String], on the way to the
    cap, throws a [TypeError] that nothing catches, so the focus is not
    overwritten, no timeline event is appended and nothing is
    broadcast, whatever the state and whoever sends it.  A message with
    a content that [String] converts does set the focus. *)
Theorem set_focus_content_can_throw :
  let msg := Scenario.unstringable_message in
  let w := Scenario.ada_gone in
  JsValue.is_string (JsValue.prop msg "kind") "set_focus" = true
  /\ Sessions.get "session-1" (sessions w)
     = Some {| s_ws := 3; s_name := "Bob"; s_role := "Gast" |}
  /\ (forall clientId server u,
        on_message clientId server (Some msg) u = (Rejected, u))
  /\ (forall clientId server u,
        on_message clientId server
          (Some (JObject
                   [("kind", JString "set_focus");
                    ("payload",
                     JObject [("content",
                               JArray [JObject [("toString", JNull)]])])]))
          u
        = (Rejected, u))
  /\ focus (eval _getRoom (exec (on_message "session-1" 3 (Some msg)) w))
     = focus (eval _getRoom w)
  /\ f_author (focus (eval _getRoom w)) <> "session-1"
  /\ sent (exec (on_message "session-1" 3 (Some msg)) w) = sent w
  /\ f_author
       (focus (eval _getRoom
                 (exec (on_message "session-1" 3
                          (Some Scenario.poll_message)) w)))
     = "session-1".
Proof.
  intros msg w.
  assert (H : forall clientId server u,
            on_message clientId server (Some msg) u = (Rejected, u))
    by reflexivity.
  split; [reflexivity|]. split; [reflexivity|]. split; [exact H|].
  split; [reflexivity|].
  unfold exec. rewrite H. cbn [snd].
  split; [reflexivity|]. split; [vm_compute; discriminate|].
  split; [reflexivity|]. vm_compute. reflexivity.
Qed.


(** ** The two creation paths *)

(** C7. The explicit create ([POST /init]) and the lazy create on first
    access build and persist the same room: read at equal clock values,
    both store the fresh room of the specification (created at that
    instant, initial focus, no participants, one [room_started] event),
    each in one write of the [room] key. *)
Theorem creation_paths_agree (w1 w2 : World) :
  stored_room w2 = None ->
  clock w1 (clock_reads w1) = clock w2 (clock_reads w2) ->
  let now := clock w1 (clock_reads w1) in
  stored_room (exec (fetch init_request) w1) = Some (fresh_room now)
  /\ eval _getRoom w2 = fresh_room now
  /\ stored_room (exec _getRoom w2) = Some (fresh_room now)
  /\ stored_room (exec (fetch init_request) w1)
     = stored_room (exec _getRoom w2)
  /\ puts (exec (fetch init_request) w1)
     = (puts w1 ++ [PutRoom (fresh_room now); PutInvites ∅])%list
  /\ puts (exec _getRoom w2) = (puts w2 ++ [PutRoom (fresh_room now)])%list.
Proof.
  intros Hnone Hclock now. subst now.
  unfold exec, eval. rewrite (getRoom_absent w2 Hnone), <- Hclock. simpl.
  repeat split; try reflexivity.
  rewrite <- app_assoc. reflexivity.
Qed.

Lemma creation_paths_agree_witness :
  let w := genesis Scenario.steady Scenario.ids Scenario.rnd in
  stored_room w = None
  /\ clock w (clock_reads w) = clock w (clock_reads w)
  /\ stored_room (exec (fetch init_request) w)
     = stored_room (exec _getRoom w).
Proof.
  intros w.
  assert (Hn : stored_room w = None) by reflexivity.
  split; [exact Hn|]. split; [reflexivity|].
  exact (proj1 (proj2 (proj2 (proj2
           (creation_paths_agree w w Hn eq_refl))))).
Defined.


(** ** Invariants of the stored room *)

Lemma keeps_ret {A} (Q : World -> Prop) (a : A) : keeps Q (ret a).
Proof. intros w H. exact H. Qed.

Lemma keeps_gets {A} (Q : World -> Prop) (f : World -> A) : keeps Q (gets f).
Proof. intros w H. exact H. Qed.

Lemma keeps_bind {A B} (Q : World -> Prop) (c : M A) (k : A -> M B) :
  keeps Q c -> (forall a, keeps Q (k a)) -> keeps Q (bind c k).
Proof. intros Hc Hk w H. rewrite exec_bind. apply Hk, Hc, H. Qed.

Lemma keeps_modify (Q : World -> Prop) (f : World -> World) :
  (forall w, Q w -> Q (f w)) -> keeps Q (modify f).
Proof. intros Hf w H. apply Hf, H. Qed.

Lemma keeps_for_each {A} (Q : World -> Prop) (body : A -> M unit)
    (xs : list A) :
  (forall x, keeps Q (body x)) -> keeps Q (for_each body xs).
Proof.
  intros Hb. induction xs as [|x xs IH]; simpl.
  - apply keeps_ret.
  - apply keeps_bind; [apply Hb|intros _; exact IH].
Qed.

Create HintDb keeps.

Section RoomInvariant.

Variable P : Room -> Prop.
Hypothesis P_fresh : forall t, P (fresh_room t).
Hypothesis P_roster :
  forall r ps tl,
    P r ->
    P {| startedAt := startedAt r; focus := focus r;
         participants := ps; timeline := tl |}.

(** A step that leaves the [room] key alone keeps the invariant. *)
Lemma room_inv_frame (f : World -> World) :
  (forall w, stored_room (f w) = stored_room w) ->
  keeps (room_inv P) (modify f).
Proof.
  intros Hf. apply keeps_modify. intros w H r Hr. apply H.
  rewrite <- Hf. exact Hr.
Qed.

Lemma now_keeps : keeps (room_inv P) Env.now.
Proof.
  unfold Env.now. apply keeps_bind; [apply keeps_gets|intros t].
  apply keeps_bind; [|intros _; apply keeps_ret].
  apply room_inv_frame. reflexivity.
Qed.

Lemma randomUUID_keeps : keeps (room_inv P) Env.randomUUID.
Proof.
  unfold Env.randomUUID. apply keeps_bind; [apply keeps_gets|intros t].
  apply keeps_bind; [|intros _; apply keeps_ret].
  apply room_inv_frame. reflexivity.
Qed.

Lemma getRandomValues_keeps n : keeps (room_inv P) (Env.getRandomValues n).
Proof.
  unfold Env.getRandomValues.
  destruct (65536 <? N.of_nat n)%N; [apply keeps_ret|].
  apply keeps_bind; [apply keeps_gets|intros t].
  apply keeps_bind; [|intros _; apply keeps_ret].
  apply room_inv_frame. reflexivity.
Qed.

Lemma stringify_keeps m : keeps (room_inv P) (Env.stringify m).
Proof.
  unfold Env.stringify.
  apply keeps_bind; [|intros _; apply keeps_ret].
  apply room_inv_frame. reflexivity.
Qed.

Lemma put_invites_keeps i : keeps (room_inv P) (Storage.put_invites i).
Proof. apply room_inv_frame. reflexivity. Qed.

Lemma put_room_keeps r : P r -> keeps (room_inv P) (Storage.put_room r).
Proof.
  intros Hr. apply keeps_modify. intros w _ r' Hr'. simpl in Hr'.
  injection Hr' as <-. exact Hr.
Qed.

Lemma pair_keeps : keeps (room_inv P) Socket.pair.
Proof.
  unfold Socket.pair. apply keeps_bind; [apply keeps_gets|intros t].
  apply keeps_bind; [|intros _; apply keeps_ret].
  apply room_inv_frame. reflexivity.
Qed.

Lemma accept_keeps ws : keeps (room_inv P) (Socket.accept ws).
Proof. apply room_inv_frame. reflexivity. Qed.

Lemma send_keeps ws data : keeps (room_inv P) (Socket.send ws data).
Proof.
  unfold Socket.send. apply keeps_bind; [apply keeps_gets|intros [|]].
  - apply keeps_bind; [|intros _; apply keeps_ret].
    apply room_inv_frame. reflexivity.
  - apply keeps_ret.
Qed.

Lemma close_keeps ws code : keeps (room_inv P) (Socket.close ws code).
Proof.
  unfold Socket.close. apply keeps_bind; [apply keeps_gets|intros [|]].
  - apply keeps_bind; [|intros _; apply keeps_ret].
    apply room_inv_frame. reflexivity.
  - apply keeps_ret.
Qed.

Lemma makeToken_keeps n : keeps (room_inv P) (makeToken n).
Proof.
  unfold makeToken.
  apply keeps_bind; [apply getRandomValues_keeps|intros a; apply keeps_ret].
Qed.

(** Loading keeps the invariant and yields a room that satisfies it. *)
Lemma getRoom_inv (w : World) :
  room_inv P w -> room_inv P (exec _getRoom w) /\ P (eval _getRoom w).
Proof.
  intros H. unfold exec, eval. destruct (stored_room w) as [r|] eqn:E.
  - rewrite (getRoom_stored w r E). simpl. split; [exact H|apply H, E].
  - rewrite (getRoom_absent w E). simpl. split; [|apply P_fresh].
    intros r Hr. simpl in Hr. injection Hr as <-. apply P_fresh.
Qed.

Lemma getRoom_keeps : keeps (room_inv P) _getRoom.
Proof. intros w H. apply getRoom_inv, H. Qed.

Lemma publicState_keeps : keeps (room_inv P) _publicState.
Proof.
  unfold _publicState.
  apply keeps_bind; [apply getRoom_keeps|intros r; apply keeps_ret].
Qed.

Lemma getFocus_keeps : keeps (room_inv P) _getFocus.
Proof.
  unfold _getFocus.
  apply keeps_bind; [apply getRoom_keeps|intros r; apply keeps_ret].
Qed.

Lemma addParticipant_keeps p : keeps (room_inv P) (_addParticipant p).
Proof.
  intros w H. unfold _addParticipant. rewrite exec_bind.
  destruct (getRoom_inv w H) as [H1 Hr]. revert H1.
  generalize (exec _getRoom w). intros w1 H1.
  apply keeps_bind; [apply now_keeps| |exact H1].
  intros ts. apply put_room_keeps.
  apply (P_roster (eval _getRoom w)), Hr.
Qed.

Lemma removeParticipant_keeps id : keeps (room_inv P) (_removeParticipant id).
Proof.
  intros w H. unfold _removeParticipant. rewrite exec_bind.
  destruct (getRoom_inv w H) as [H1 Hr]. revert H1.
  generalize (exec _getRoom w). intros w1 H1.
  apply keeps_bind; [apply now_keeps| |exact H1].
  intros ts. apply put_room_keeps.
  apply (P_roster (eval _getRoom w)), Hr.
Qed.

Lemma broadcast_keeps m : keeps (room_inv P) (_broadcast m).
Proof.
  unfold _broadcast.
  apply keeps_bind; [apply stringify_keeps|intros data].
  apply keeps_bind; [apply keeps_gets|intros all].
  apply keeps_for_each. intros kv.
  apply keeps_bind; [apply send_keeps|intros _; apply keeps_ret].
Qed.

Hint Resolve keeps_ret keeps_gets now_keeps randomUUID_keeps
  getRandomValues_keeps stringify_keeps put_invites_keeps pair_keeps
  accept_keeps send_keeps close_keeps makeToken_keeps getRoom_keeps
  publicState_keeps getFocus_keeps addParticipant_keeps
  removeParticipant_keeps broadcast_keeps : keeps.

Ltac keeps_step :=
  first
    [ solve [auto with keeps]
    | apply room_inv_frame; reflexivity
    | apply keeps_bind; [|intro]
    | match goal with
      | |- keeps _ (if ?b then _ else _) => destruct b
      | |- keeps _ (match ?x with _ => _ end) => destruct x
      end ].

Lemma on_close_keeps clientId : keeps (room_inv P) (on_close clientId).
Proof. unfold on_close. repeat keeps_step. Qed.

Lemma on_error_keeps server : keeps (room_inv P) (on_error server).
Proof. unfold on_error. repeat keeps_step. Qed.

Lemma fetch_keeps req : keeps (room_inv P) (fetch req).
Proof.
  unfold fetch. cbv zeta.
  repeat keeps_step.
  apply put_room_keeps, (P_fresh a).
Qed.

(** A message that does not set the focus leaves the room alone. *)
Lemma on_message_keeps clientId server data :
  is_set_focus (SocketMessage server data) = false ->
  keeps (room_inv P) (on_message clientId server data).
Proof.
  intros Hk. unfold on_message. destruct data as [msg|]; [|apply keeps_ret].
  simpl in Hk. rewrite Hk. repeat keeps_step.
Qed.

Lemma handle_keeps ev :
  is_set_focus ev = false -> keeps (room_inv P) (handle ev).
Proof.
  intros Hk. destruct ev as [req|server data|server code|server]; simpl.
  - apply keeps_bind; [apply fetch_keeps|intros _; apply keeps_ret].
  - apply keeps_bind; [apply keeps_gets|intros [clientId|]].
    + apply keeps_bind; [apply on_message_keeps, Hk|].
      intros _. apply keeps_ret.
    + apply keeps_ret.
  - apply keeps_bind; [apply close_keeps|intros _].
    apply keeps_bind; [apply keeps_gets|intros [clientId|]].
    + apply on_close_keeps.
    + apply keeps_ret.
  - apply keeps_bind; [apply keeps_gets|intros [clientId|]].
    + apply on_error_keeps.
    + apply keeps_ret.
Qed.

Lemma run_keeps evs :
  forallb (fun ev => negb (is_set_focus ev)) evs = true ->
  keeps (room_inv P) (run evs).
Proof.
  induction evs as [|ev evs IH]; simpl; intros H.
  - apply keeps_ret.
  - apply andb_prop in H as [Hev Hevs].
    apply keeps_bind; [|intros _; apply IH, Hevs].
    apply handle_keeps. destruct (is_set_focus ev); [discriminate|reflexivity].
Qed.

End RoomInvariant.

Lemma fresh_focus_ok t : focus_ok (fresh_room t).
Proof.
  unfold focus_ok, well_formed_focus. simpl. split; [left; reflexivity|lia].
Qed.

Lemma focus_ok_roster r ps tl :
  focus_ok r ->
  focus_ok {| startedAt := startedAt r; focus := focus r;
              participants := ps; timeline := tl |}.
Proof. intros H. exact H. Qed.

Lemma setFocus_keeps_ok byId type content :
  type = "question" \/ type = "text" ->
  (String.length content <= 4000)%nat ->
  keeps (room_inv focus_ok) (_setFocus byId type content).
Proof.
  intros Ht Hc w H r Hr.
  destruct (setFocus_stored byId type content w) as (ts & ts' & Hst).
  rewrite Hst in Hr. injection Hr as <-.
  unfold focus_ok, well_formed_focus. simpl. split; assumption.
Qed.

Lemma handle_keeps_ok ev : keeps (room_inv focus_ok) (handle ev).
Proof.
  destruct (is_set_focus ev) eqn:Hk.
  - destruct ev as [req|server [msg|]|server code|server]; try discriminate.
    simpl in Hk. unfold handle.
    apply keeps_bind; [apply keeps_gets|intros [clientId|]];
      [|apply keeps_ret].
    apply keeps_bind; [|intros _; apply keeps_ret].
    unfold on_message. rewrite (set_focus_not_dropped msg Hk), Hk.
    destruct (clampStr _ 4000) as [content|] eqn:Hc; [|apply keeps_ret].
    apply keeps_bind; [|intros _].
    + apply setFocus_keeps_ok.
      * destruct (JsValue.is_string _ "text"); auto.
      * apply (clampStr_length _ _ _ Hc).
    + apply keeps_bind; [|intros f].
      * apply getFocus_keeps. apply fresh_focus_ok.
      * apply keeps_bind; [|intros _; apply keeps_ret].
        apply broadcast_keeps.
  - apply handle_keeps; [apply fresh_focus_ok|apply focus_ok_roster|exact Hk].
Qed.

Lemma run_keeps_ok evs : keeps (room_inv focus_ok) (run evs).
Proof.
  induction evs as [|ev evs IH]; simpl.
  - apply keeps_ret.
  - apply keeps_bind; [apply handle_keeps_ok|intros _; exact IH].
Qed.

Lemma room_inv_absent P w : stored_room w = None -> room_inv P w.
Proof. intros H r Hr. congruence. Qed.

(** C9. A room is never without a focus.  Both creation paths store the
    fresh room, whose focus is the initial one, of type [question] with
    empty content, author and author name and the room's [startedAt] as
    [ts].  From a room that does not exist yet, after any sequence of
    events, the readers return the focus of the stored room: [_getFocus]
    that focus, [_publicState] the snapshot of that room, [startedAt],
    roster and focus; that focus is well formed, and as long as no event
    set the focus it is the initial focus of that room. *)
Theorem focus_always_present (evs : list Event) (w : World) :
  stored_room w = None ->
  let w' := exec (run evs) w in
  let room := eval _getRoom w' in
  (forall r, stored_room w' = Some r -> room = r)
  /\ stored_room (exec _getRoom w') = Some room
  /\ eval _getFocus w' = focus room
  /\ eval _publicState w'
     = {| ps_startedAt := startedAt room;
          ps_participants := participants room;
          ps_focus := focus room |}
  /\ well_formed_focus (focus room)
  /\ well_formed_focus (eval _getFocus w')
  /\ well_formed_focus (ps_focus (eval _publicState w'))
  /\ (forallb (fun ev => negb (is_set_focus ev)) evs = true ->
      focus room = fresh_focus (startedAt room)
      /\ eval _getFocus w' = fresh_focus (startedAt room)
      /\ eval _publicState w'
         = {| ps_startedAt := startedAt room;
              ps_participants := participants room;
              ps_focus := fresh_focus (startedAt room) |})
  /\ (forall w0 : World,
        stored_room (exec (fetch init_request) w0)
        = Some (fresh_room (clock w0 (clock_reads w0))))
  /\ (forall w0 : World,
        stored_room w0 = None ->
        eval _getRoom w0 = fresh_room (clock w0 (clock_reads w0))
        /\ stored_room (exec _getRoom w0)
           = Some (fresh_room (clock w0 (clock_reads w0)))).
Proof.
  intros Hnone w' room.
  assert (Hread : eval _getFocus w' = focus room).
  { unfold _getFocus. rewrite eval_bind. reflexivity. }
  assert (Hpub : eval _publicState w'
                 = {| ps_startedAt := startedAt room;
                      ps_participants := participants room;
                      ps_focus := focus room |}).
  { unfold _publicState. rewrite eval_bind. reflexivity. }
  assert (Hok : focus_ok room).
  { apply getRoom_inv; [apply fresh_focus_ok|].
    apply run_keeps_ok, room_inv_absent, Hnone. }
  assert (Hinit : forallb (fun ev => negb (is_set_focus ev)) evs = true ->
                  focus room = fresh_focus (startedAt room)).
  { intros Hevs. apply (getRoom_inv focus_initial); [reflexivity|].
    apply run_keeps; [reflexivity|intros r ps tl Hr; exact Hr|assumption|].
    apply room_inv_absent, Hnone. }
  split.
  { intros r Hr. unfold room, eval. rewrite (getRoom_stored w' r Hr).
    reflexivity. }
  split; [apply getRoom_persisted|].
  split; [exact Hread|]. split; [exact Hpub|].
  split; [exact Hok|].
  split; [rewrite Hread; exact Hok|].
  split; [rewrite Hpub; exact Hok|].
  split.
  { intros Hevs. pose proof (Hinit Hevs) as Hf.
    split; [exact Hf|]. split; [rewrite Hread; exact Hf|].
    rewrite Hpub, Hf. reflexivity. }
  split.
  - intros w0. apply init_room.
  - intros w0 H0. unfold eval, exec.
    rewrite (getRoom_absent w0 H0). split; reflexivity.
Qed.

Lemma focus_always_present_witness :
  let w := genesis Scenario.steady Scenario.ids Scenario.rnd in
  let evs :=
    [ Fetch invite_request;
      Fetch (Scenario.connect_request Scenario.token "Ada" "Host");
      SocketMessage 1 (Some Scenario.poll_message);
      SocketClose 1 1000 ] in
  stored_room w = None
  /\ well_formed_focus (eval _getFocus (exec (run evs) w)).
Proof.
  intros w evs.
  assert (Hn : stored_room w = None) by reflexivity.
  split; [exact Hn|].
  exact (proj1 (proj2 (proj2 (proj2 (proj2 (proj2
           (focus_always_present evs w Hn))))))).
Defined.


(** ** Connecting: invite validation and the upgrade *)

Lemma ws_path_not_internal (req : Request) :
  JsString.endsWith "/ws" (pathname req) = true ->
  String.eqb (pathname req) "/init" = false
  /\ String.eqb (pathname req) "/invite" = false.
Proof.
  intros H. split.
  - destruct (String.eqb_spec (pathname req) "/init") as [E|]; [|reflexivity].
    rewrite E in H. discriminate.
  - destruct (String.eqb_spec (pathname req) "/invite") as [E|]; [|reflexivity].
    rewrite E in H. discriminate.
Qed.

(** [String] does not throw on a query parameter, a string or [null]:
    the three calls of [clampStr] in the WebSocket branch return. *)
Lemma clampStr_param (k : string) (ps : list (string * string)) (n : nat) :
  is_Some (clampStr (searchParams_get k ps) n).
Proof.
  induction ps as [|[k' v] ps IH]; simpl.
  - eexists. reflexivity.
  - destruct (String.eqb k k'); [eexists; reflexivity|exact IH].
Qed.

Lemma clampStr_param_or (k : string) (ps : list (string * string))
    (d : string) (n : nat) :
  is_Some (clampStr (Some (JsValue.or_else (searchParams_get k ps)
                                           (JString d))) n).
Proof.
  induction ps as [|[k' v] ps IH]; simpl.
  - eexists. reflexivity.
  - destruct (String.eqb k k'); [|exact IH].
    simpl. destruct (JsString.truthy v); eexists; reflexivity.
Qed.

Lemma returned_default (o : option string) :
  is_Some o -> o = Some (default "" o).
Proof. intros [s ->]. reflexivity. Qed.

(** The WebSocket branch, with the credentials it works on. *)
Lemma fetch_ws (req : Request) :
  JsString.endsWith "/ws" (pathname req) = true ->
  fetch req =
  let token := ws_token req in
  if negb (JsString.truthy token)
  then ret (text_response "Missing token" 401)
  else
    let* stored := Storage.get_invites in
    let invites := default ∅ stored in
    match JsObject.get invites token with
    | JsObject.Undefined => ret (text_response "Invalid invite" 401)
    | entry =>
        let* t := Env.now in
        let age :=
          match entry with
          | JsObject.Own e => Num (t - createdAt e)
          | _ => NaN
          end in
        let ttl :=
          match entry with
          | JsObject.Own e => Num (ttlMs e)
          | _ => NaN
          end in
        if js_gt age ttl then
          let invites' := delete token invites in
          do* Storage.put_invites invites' in
          ret (text_response "Invite expired" 401)
        else
          upgrade (ws_name req) (ws_role req)
    end.
Proof.
  intros Hws. destruct (ws_path_not_internal req Hws) as [Hinit Hinv].
  unfold fetch. rewrite Hinit, Hinv, Hws, !andb_false_r.
  unfold ws_token, ws_name, ws_role.
  rewrite (returned_default _
             (clampStr_param "token" (searchParams req) 200)) at 1.
  rewrite (returned_default _
             (clampStr_param_or "name" (searchParams req) "Gast" 40)) at 1.
  rewrite (returned_default _
             (clampStr_param_or "role" (searchParams req) "Gast" 20)) at 1.
  reflexivity.
Qed.

Lemma fresh_server_open (socks : list SocketState) :
  Socket.is_open
    (<[S (length socks) := Accepted]> (socks ++ [Created; Created])%list)
    (S (length socks)) = true.
Proof.
  unfold Socket.is_open. rewrite list_lookup_insert_eq; [reflexivity|].
  rewrite length_app. simpl. lia.
Qed.

Ltac run_upgrade :=
  unfold upgrade, _addParticipant, _publicState, _getRoom,
    Socket.pair, Socket.accept, Socket.send, Env.randomUUID, Env.now,
    Env.stringify, Storage.get_room, Storage.put_room, bind, gets, modify, ret.

Lemma upgrade_returns (name role : string) (w : World) :
  eval (upgrade name role) w = upgraded w
  /\ stored_invites (exec (upgrade name role) w) = stored_invites w.
Proof.
  unfold eval, exec, upgraded.
  destruct (stored_room w) as [r|] eqn:Er.
  - run_upgrade. simpl. rewrite Er. simpl. rewrite fresh_server_open. simpl.
    match goal with
    | |- context [_broadcast ?m ?w0] =>
        rewrite (run_pair (_broadcast m) w0), broadcast_run
    end.
    split; reflexivity.
  - run_upgrade. simpl. rewrite Er. simpl. rewrite fresh_server_open. simpl.
    match goal with
    | |- context [_broadcast ?m ?w0] =>
        rewrite (run_pair (_broadcast m) w0), broadcast_run
    end.
    split; reflexivity.
Qed.

(** A successful upgrade is a join: it adds the participant of the new
    session, whose id is the next [randomUUID], at the end of the roster. *)
Lemma upgrade_joins (name role : string) (w : World) :
  exists joinedAt : Z,
    roster (exec (upgrade name role) w) =
    (roster w ++ [ {| p_id := uuids w (uuid_reads w); p_name := name;
                      p_role := role; p_joinedAt := joinedAt |} ])%list.
Proof.
  rewrite !roster_stored. unfold exec.
  destruct (stored_room w) as [r|] eqn:Er.
  - run_upgrade. simpl. rewrite Er. simpl. rewrite fresh_server_open. simpl.
    match goal with
    | |- context [_broadcast ?m ?w0] =>
        rewrite (run_pair (_broadcast m) w0), broadcast_run
    end.
    eexists. reflexivity.
  - run_upgrade. simpl. rewrite Er. simpl. rewrite fresh_server_open. simpl.
    match goal with
    | |- context [_broadcast ?m ?w0] =>
        rewrite (run_pair (_broadcast m) w0), broadcast_run
    end.
    eexists. reflexivity.
Qed.

(** The [close] listener is a disconnect: it removes the participants
    with the session's id and keeps the others in place. *)
Lemma on_close_leaves (clientId : string) (w : World) :
  roster (exec (on_close clientId) w) =
  filter (fun x => negb (String.eqb (p_id x) clientId)) (roster w).
Proof.
  unfold on_close. rewrite exec_bind.
  set (w1 := exec (modify _) w).
  assert (H1 : roster w1 = roster w) by (rewrite !roster_stored; reflexivity).
  rewrite exec_bind.
  pose proof (arrive_roster (Disconnect clientId) w1) as H2. simpl in H2.
  set (w2 := exec (_removeParticipant clientId) w1) in *.
  rewrite exec_bind, broadcast_run.
  rewrite roster_stored. simpl.
  unfold _publicState. rewrite exec_bind.
  replace (stored_room (exec (ret _) (exec _getRoom w2)))
    with (stored_room (exec _getRoom w2)) by reflexivity.
  rewrite getRoom_persisted. fold (roster w2). rewrite H2, H1. reflexivity.
Qed.

Lemma connect_outcome (req : Request) (w : World) :
  JsString.endsWith "/ws" (pathname req) = true ->
  let token := ws_token req in
  let invites := default ∅ (stored_invites w) in
  let now := clock w (clock_reads w) in
  eval (fetch req) w =
    if negb (JsString.truthy token) then text_response "Missing token" 401
    else match JsObject.get invites token with
         | JsObject.Undefined => text_response "Invalid invite" 401
         | JsObject.Own e =>
             if now - createdAt e >? ttlMs e
             then text_response "Invite expired" 401
             else upgraded w
         | JsObject.Inherited => upgraded w
         end.
Proof.
  intros Hws token invites now.
  rewrite (fetch_ws req Hws). cbv zeta. fold token.
  destruct (negb (JsString.truthy token)); [reflexivity|].
  rewrite eval_bind.
  change (eval Storage.get_invites w) with (stored_invites w).
  change (exec Storage.get_invites w) with w.
  fold invites.
  destruct (JsObject.get invites token) as [e| |]; [| |reflexivity].
  - rewrite eval_bind. change (eval Env.now w) with now. simpl js_gt.
    destruct (now - createdAt e >? ttlMs e); [reflexivity|].
    rewrite (proj1 (upgrade_returns _ _ _)). reflexivity.
  - rewrite eval_bind. cbn [js_gt].
    rewrite (proj1 (upgrade_returns _ _ _)). reflexivity.
Qed.

(** What a connection attempt leaves behind. *)
Lemma connect_world (req : Request) (w : World) :
  JsString.endsWith "/ws" (pathname req) = true ->
  let token := ws_token req in
  let invites := default ∅ (stored_invites w) in
  let now := clock w (clock_reads w) in
  let w' := exec (fetch req) w in
  if negb (JsString.truthy token) then w' = w
  else match JsObject.get invites token with
       | JsObject.Undefined => w' = w
       | JsObject.Own e =>
           if now - createdAt e >? ttlMs e
           then stored_invites w' = Some (delete token invites)
                /\ puts w'
                   = (puts w ++ [PutInvites (delete token invites)])%list
                /\ no_upgrade w w'
           else stored_invites w' = stored_invites w
       | JsObject.Inherited => stored_invites w' = stored_invites w
       end.
Proof.
  intros Hws token invites now w'. subst w'.
  rewrite (fetch_ws req Hws). cbv zeta. fold token.
  destruct (negb (JsString.truthy token)); [reflexivity|].
  rewrite exec_bind.
  change (eval Storage.get_invites w) with (stored_invites w).
  change (exec Storage.get_invites w) with w.
  fold invites.
  destruct (JsObject.get invites token) as [e| |]; [| |reflexivity].
  - rewrite exec_bind. change (eval Env.now w) with now. simpl js_gt.
    destruct (now - createdAt e >? ttlMs e).
    + unfold no_upgrade. repeat split; reflexivity.
    + rewrite (proj2 (upgrade_returns _ _ _)). reflexivity.
  - rewrite exec_bind. cbn [js_gt].
    rewrite (proj2 (upgrade_returns _ _ _)). reflexivity.
Qed.

Lemma truthy_nonempty (s : string) : JsString.truthy s = true <-> s ≠ "".
Proof.
  unfold JsString.truthy. destruct (String.eqb_spec s ""); simpl; split;
    intros H; congruence.
Qed.

(** X4.  Apart from the names a plain object inherits, validation is what the
    invite set and the clock say: the attempt is upgraded exactly when
    the token is a key of the invite set whose age is within its TTL, and
    an accepted token stays in the set. *)
Lemma validation_of_own_keys (req : Request) (w : World) :
  JsString.endsWith "/ws" (pathname req) = true ->
  JsObject.inherited (ws_token req) = false ->
  let token := ws_token req in
  let invites := default ∅ (stored_invites w) in
  let now := clock w (clock_reads w) in
  (eval (fetch req) w = upgraded w <->
   token ≠ "" /\
   exists e, invites !! token = Some e /\ now - createdAt e <= ttlMs e)
  /\ (eval (fetch req) w = upgraded w ->
      stored_invites (exec (fetch req) w) = stored_invites w).
Proof.
  intros Hws Hin token invites now.
  pose proof (connect_outcome req w Hws) as Ho.
  pose proof (connect_world req w Hws) as Hw.
  cbv zeta in Ho, Hw. fold token invites now in Ho, Hw.
  unfold JsObject.get in Ho, Hw. fold token in Hin. rewrite Hin in Ho, Hw.
  destruct (JsString.truthy token) eqn:Et; simpl in Ho, Hw.
  - apply truthy_nonempty in Et.
    destruct (invites !! token) as [e|] eqn:Ee.
    + destruct (Z.gtb_spec (now - createdAt e) (ttlMs e)) as [Hgt|Hle].
      * rewrite Ho. split; [split|]; try discriminate.
        intros (_ & e' & He' & Hage). injection He' as <-. lia.
      * rewrite Ho. split; [split|]; auto.
        intros _. split; [exact Et|]. exists e. split; [reflexivity|lia].
    + rewrite Ho. split; [split|]; try discriminate.
      intros (_ & e' & He' & _). discriminate.
  - rewrite Ho. split; [split|]; try discriminate.
    intros (Hne & _). exfalso. apply Hne.
    unfold JsString.truthy in Et.
    destruct (String.eqb_spec token ""); [assumption|discriminate].
Qed.

(** A token that names a property of [Object.prototype] is accepted,
    whatever the invite set holds. *)
Lemma inherited_name_upgrades (req : Request) (w : World) :
  JsString.endsWith "/ws" (pathname req) = true ->
  JsObject.inherited (ws_token req) = true ->
  default ∅ (stored_invites w) !! ws_token req = None ->
  eval (fetch req) w = upgraded w.
Proof.
  intros Hws Hin Habs. rewrite (connect_outcome req w Hws).
  unfold JsObject.get. rewrite Habs, Hin.
  destruct (JsString.truthy (ws_token req)) eqn:Et; [reflexivity|].
  exfalso. unfold JsString.truthy in Et.
  destruct (String.eqb_spec (ws_token req) "") as [E|]; [|discriminate].
  rewrite E in Hin. discriminate.
Qed.

(** C3. For a token that is no key of the invite set, validation at
    connect time does not always fail: in the room just created, whose
    invite set is empty, the token [constructor] is accepted and the
    connection is upgraded, with a session registered and a participant
    added. *)
Theorem inherited_token_passes_validation :
  stored_invites Scenario.created = Some ∅
  /\ (∅ : gmap string Invite) !! "constructor" = None
  /\ ws_token (Scenario.connect_request "constructor" "Ada" "Host")
     = "constructor"
  /\ eval (fetch (Scenario.connect_request "constructor" "Ada" "Host"))
          Scenario.created
     = Returned {| status := 101; body := NoBody; webSocket := Some 0%nat |}
  /\ sessions (exec (fetch (Scenario.connect_request
                               "constructor" "Ada" "Host"))
                    Scenario.created)
     = [("session-0", {| s_ws := 1; s_name := "Ada"; s_role := "Host" |})]
  /\ map p_id (roster (exec (fetch (Scenario.connect_request
                                      "constructor" "Ada" "Host"))
                            Scenario.created))
     = ["session-0"].
Proof. repeat split; vm_compute; reflexivity. Qed.

(** C4, as the code has it.  A connection attempt whose trimmed and
    capped token is empty, or is neither a key of the invite set nor a
    name inherited from [Object.prototype], or is a key whose invite has
    expired, is answered with status 401 and no socket, before anything
    of a connection is set up; the body of the reply names the case. *)
Theorem rejected_before_upgrade (req : Request) (w : World) :
  JsString.endsWith "/ws" (pathname req) = true ->
  let token := ws_token req in
  let invites := default ∅ (stored_invites w) in
  let now := clock w (clock_reads w) in
  (token = "" ->
   eval (fetch req) w = text_response "Missing token" 401
   /\ exec (fetch req) w = w)
  /\ (token ≠ "" -> invites !! token = None ->
      JsObject.inherited token = false ->
      eval (fetch req) w = text_response "Invalid invite" 401
      /\ exec (fetch req) w = w)
  /\ (forall e, token ≠ "" -> invites !! token = Some e ->
      now - createdAt e > ttlMs e ->
      eval (fetch req) w = text_response "Invite expired" 401
      /\ no_upgrade w (exec (fetch req) w))
  /\ (token = ""
      \/ (invites !! token = None /\ JsObject.inherited token = false)
      \/ (exists e, invites !! token = Some e
                    /\ now - createdAt e > ttlMs e) ->
      exists reason,
        eval (fetch req) w =
          Returned {| status := 401; body := Text reason; webSocket := None |}
        /\ no_upgrade w (exec (fetch req) w)).
Proof.
  intros Hws token invites now.
  pose proof (connect_outcome req w Hws) as Ho.
  pose proof (connect_world req w Hws) as Hw.
  cbv zeta in Ho, Hw. fold token invites now in Ho, Hw.
  unfold JsObject.get in Ho, Hw.
  assert (H1 : token = "" ->
               eval (fetch req) w = text_response "Missing token" 401
               /\ exec (fetch req) w = w).
  { intros E. rewrite E in Ho, Hw. simpl in Ho, Hw. split; assumption. }
  assert (H2 : token ≠ "" -> invites !! token = None ->
               JsObject.inherited token = false ->
               eval (fetch req) w = text_response "Invalid invite" 401
               /\ exec (fetch req) w = w).
  { intros Hne Habs Hin. apply truthy_nonempty in Hne.
    rewrite Hne, Habs, Hin in Ho, Hw. simpl in Ho, Hw. split; assumption. }
  assert (H3 : forall e, token ≠ "" -> invites !! token = Some e ->
               now - createdAt e > ttlMs e ->
               eval (fetch req) w = text_response "Invite expired" 401
               /\ no_upgrade w (exec (fetch req) w)).
  { intros e Hne He Hage. apply truthy_nonempty in Hne.
    rewrite Hne, He in Ho, Hw. simpl in Ho, Hw.
    destruct (Z.gtb_spec (now - createdAt e) (ttlMs e)) as [_|Hle]; [|lia].
    split; [exact Ho|apply Hw]. }
  split; [exact H1|]. split; [exact H2|]. split; [exact H3|].
  assert (Hsame : no_upgrade w w) by (unfold no_upgrade; auto).
  destruct (String.eqb_spec token "") as [E|Hne].
  - intros _. destruct (H1 E) as [Hr Hx]. exists "Missing token".
    rewrite Hr, Hx. split; [reflexivity|exact Hsame].
  - intros [E|[[Habs Hin]|(e & He & Hage)]]; [contradiction| |].
    + destruct (H2 Hne Habs Hin) as [Hr Hx]. exists "Invalid invite".
      rewrite Hr, Hx. split; [reflexivity|exact Hsame].
    + destruct (H3 e Hne He Hage) as [Hr Hx]. exists "Invite expired".
      split; [exact Hr|exact Hx].
Qed.

Lemma rejected_before_upgrade_witness :
  let req := Scenario.connect_request "garbage-token" "Ada" "Host" in
  let w := Scenario.opened in
  JsString.endsWith "/ws" (pathname req) = true
  /\ ws_token req ≠ ""
  /\ default ∅ (stored_invites w) !! ws_token req = None
  /\ JsObject.inherited (ws_token req) = false
  /\ eval (fetch req) w = text_response "Invalid invite" 401
  /\ exec (fetch req) w = w.
Proof.
  intros req w.
  assert (Hws : JsString.endsWith "/ws" (pathname req) = true) by reflexivity.
  assert (Hne : ws_token req ≠ "") by discriminate.
  assert (Habs : default ∅ (stored_invites w) !! ws_token req = None)
    by (vm_compute; reflexivity).
  assert (Hin : JsObject.inherited (ws_token req) = false)
    by (vm_compute; reflexivity).
  split; [exact Hws|]. split; [exact Hne|]. split; [exact Habs|].
  split; [exact Hin|].
  exact (proj1 (proj2 (rejected_before_upgrade req w Hws)) Hne Habs Hin).
Defined.


(** The claim C4 fails as stated: the rejections are not one and the same
    reply (an empty token and an unknown token are told apart by the
    body), and a token that is not in the invite set can be accepted. *)
Lemma unauthorized_is_not_uniform :
  eval (fetch (Scenario.connect_request "" "Ada" "Host")) Scenario.created
  ≠ eval (fetch (Scenario.connect_request "garbage-token" "Ada" "Host"))
         Scenario.created
  /\ (default ∅ (stored_invites Scenario.created) !! "constructor" = None
      /\ exists r,
           eval (fetch (Scenario.connect_request "constructor" "Ada" "Host"))
                Scenario.created = Returned r
           /\ status r = 101 /\ webSocket r <> None).
Proof.
  split.
  - vm_compute. discriminate.
  - split; [vm_compute; reflexivity|].
    eexists. split; [vm_compute; reflexivity|].
    split; [reflexivity|discriminate].
Qed.

(** ** Tokens *)

Lemma sextet_check (p : N -> bool) :
  forallb p sextets = true -> forall n, (n < 64)%N -> p n = true.
Proof.
  intros H n Hn. rewrite forallb_forall in H. apply H.
  apply list_elem_of_In. unfold sextets. apply list_elem_of_fmap.
  exists (N.to_nat n). split; [lia|]. apply elem_of_seq. lia.
Qed.

Lemma char_plain (n : N) :
  (n < 64)%N ->
  Ascii.eqb (Base64.char n) "+" = (n =? 62)%N
  /\ Ascii.eqb (Base64.char n) "/" = (n =? 63)%N
  /\ Ascii.eqb (Base64.char n) "=" = false.
Proof.
  intros Hn.
  pose proof (sextet_check
    (fun n => Bool.eqb (Ascii.eqb (Base64.char n) "+") (n =? 62)%N
              && Bool.eqb (Ascii.eqb (Base64.char n) "/") (n =? 63)%N
              && negb (Ascii.eqb (Base64.char n) "="))
    eq_refl n Hn) as H.
  apply andb_prop in H as [H H3]. apply andb_prop in H as [H1 H2].
  apply Bool.eqb_prop in H1, H2. apply negb_true_iff in H3. auto.
Qed.

Lemma url_char_safe (n : N) : (n < 64)%N -> url_safe (url_char n) = true.
Proof. apply (sextet_check (fun n => url_safe (url_char n))). reflexivity. Qed.

Lemma url_char_inj (n m : N) :
  (n < 64)%N -> (m < 64)%N -> url_char n = url_char m -> n = m.
Proof.
  intros Hn Hm E.
  pose proof (sextet_check
    (fun n => forallb (fun m => implb (Ascii.eqb (url_char n) (url_char m))
                                      (n =? m)%N) sextets)
    eq_refl n Hn) as H.
  pose proof (sextet_check _ H m Hm) as H'. simpl in H'.
  rewrite E, Ascii.eqb_refl in H'. simpl in H'. apply N.eqb_eq, H'.
Qed.

(** The three replacements of [makeToken], on a character of the
    alphabet. *)
Lemma replace_char (n : N) (rest : string) :
  (n < 64)%N ->
  JsString.replaceAll "=" ""
    (JsString.replaceAll "/" "_"
       (JsString.replaceAll "+" "-" (String (Base64.char n) rest)))
  = String (url_char n)
      (JsString.replaceAll "=" ""
         (JsString.replaceAll "/" "_" (JsString.replaceAll "+" "-" rest))).
Proof.
  intros Hn. destruct (char_plain n Hn) as (Hp & Hs & He).
  unfold url_char. cbn [JsString.replaceAll]. rewrite Hp.
  destruct (n =? 62)%N eqn:E62.
  - reflexivity.
  - cbn [JsString.replaceAll]. rewrite Hs.
    destruct (n =? 63)%N eqn:E63.
    + reflexivity.
    + cbn [JsString.replaceAll]. rewrite He. reflexivity.
Qed.

Ltac euclid x k :=
  let q := fresh "q" in
  let r := fresh "r" in
  let Hq := fresh "Hq" in
  let Hr := fresh "Hr" in
  pose proof (N.div_mod x k ltac:(discriminate)) as Hq;
  pose proof (N.mod_lt x k ltac:(discriminate)) as Hr;
  set (q := (x / k)%N) in *; set (r := (x mod k)%N) in *;
  clearbody q r.

Lemma block_bounds (x y z : N) :
  (x < 256 -> y < 256 -> z < 256 ->
   x / 4 < 64 /\ x mod 4 * 16 + y / 16 < 64
   /\ y mod 16 * 4 + z / 64 < 64 /\ z mod 64 < 64)%N.
Proof. intros. euclid x 4%N. euclid y 16%N. euclid z 64%N. lia. Qed.

Lemma block_inj (x y z x' y' z' : N) :
  (x < 256 -> y < 256 -> z < 256 -> x' < 256 -> y' < 256 -> z' < 256 ->
   x / 4 = x' / 4 ->
   x mod 4 * 16 + y / 16 = x' mod 4 * 16 + y' / 16 ->
   y mod 16 * 4 + z / 64 = y' mod 16 * 4 + z' / 64 ->
   z mod 64 = z' mod 64 ->
   x = x' /\ y = y' /\ z = z')%N.
Proof.
  intros.
  euclid x 4%N. euclid x' 4%N. euclid y 16%N. euclid y' 16%N.
  euclid z 64%N. euclid z' 64%N. lia.
Qed.

Lemma code_bound (b : byte) : (code b < 256)%N.
Proof. apply N_ascii_bounded. Qed.

Lemma code_inj (b b' : byte) : code b = code b' -> b = b'.
Proof.
  unfold code. intros H.
  apply (f_equal ascii_of_N) in H. rewrite !ascii_N_embedding in H.
  apply (f_equal byte_of_ascii) in H. rewrite !byte_of_ascii_of_byte in H.
  exact H.
Qed.

(** Three bytes make four characters of the token. *)
Lemma token_block (x y z : byte) (l : list byte) :
  token_of_bytes (x :: y :: z :: l) =
  String (url_char (code x / 4))
    (String (url_char (code x mod 4 * 16 + code y / 16))
       (String (url_char (code y mod 16 * 4 + code z / 64))
          (String (url_char (code z mod 64)) (token_of_bytes l)))).
Proof.
  destruct (block_bounds (code x) (code y) (code z)
              (code_bound x) (code_bound y) (code_bound z))
    as (H0 & H1 & H2 & H3).
  unfold token_of_bytes, fromCharCode.
  cbn [map string_of_list_ascii Base64.btoa]. fold (code x) (code y) (code z).
  rewrite (replace_char _ _ H0).
  rewrite (replace_char _ _ H1).
  rewrite (replace_char _ _ H2).
  rewrite (replace_char _ _ H3).
  reflexivity.
Qed.

(** A token of [3 k] bytes has [4 k] characters, all URL-safe. *)
Lemma token_shape (k : nat) (a : list byte) :
  length a = (3 * k)%nat ->
  String.length (token_of_bytes a) = (4 * k)%nat
  /\ forallb url_safe (list_ascii_of_string (token_of_bytes a)) = true.
Proof.
  revert a. induction k as [|k IH]; intros a Ha.
  - destruct a; [|discriminate]. split; reflexivity.
  - destruct a as [|x [|y [|z l]]]; simpl in Ha; try lia.
    destruct (IH l ltac:(lia)) as [Hl Hs].
    destruct (block_bounds (code x) (code y) (code z)
                (code_bound x) (code_bound y) (code_bound z))
      as (H0 & H1 & H2 & H3).
    rewrite token_block. cbn [String.length list_ascii_of_string forallb].
    rewrite Hl, Hs, !url_char_safe by assumption. split; [lia|reflexivity].
Qed.

(** Tokens of equally many bytes differ when the bytes differ. *)
Lemma token_injective (k : nat) (a b : list byte) :
  length a = (3 * k)%nat -> length b = (3 * k)%nat ->
  token_of_bytes a = token_of_bytes b -> a = b.
Proof.
  revert a b. induction k as [|k IH]; intros a b Ha Hb E.
  - destruct a, b; try discriminate. reflexivity.
  - destruct a as [|x [|y [|z l]]]; simpl in Ha; try lia.
    destruct b as [|x' [|y' [|z' l']]]; simpl in Hb; try lia.
    rewrite !token_block in E.
    injection E as E0 E1 E2 E3 El.
    destruct (block_bounds (code x) (code y) (code z)
                (code_bound x) (code_bound y) (code_bound z))
      as (H0 & H1 & H2 & H3).
    destruct (block_bounds (code x') (code y') (code z')
                (code_bound x') (code_bound y') (code_bound z'))
      as (H0' & H1' & H2' & H3').
    apply url_char_inj in E0, E1, E2, E3; try assumption.
    destruct (block_inj _ _ _ _ _ _
                (code_bound x) (code_bound y) (code_bound z)
                (code_bound x') (code_bound y') (code_bound z')
                E0 E1 E2 E3) as (Hx & Hy & Hz).
    apply code_inj in Hx, Hy, Hz. subst x' y' z'.
    f_equal. f_equal. f_equal. apply IH; [lia|lia|exact El].
Qed.

(** What [makeToken()] returns: 24 URL-safe characters that determine the
    18 random bytes, that is 144 bits, drawn for it. *)
Lemma makeToken_spec (w : World) :
  exists (bytes : list byte) (token : string),
    eval (Env.getRandomValues 18) w = Some bytes
    /\ eval (makeToken 18) w = Some token
    /\ token = token_of_bytes bytes
    /\ length bytes = 18%nat
    /\ String.length token = 24%nat
    /\ forallb url_safe (list_ascii_of_string token) = true
    /\ (forall other : list byte,
          length other = 18%nat -> token_of_bytes other = token ->
          other = bytes)
    /\ (8 * 18 >= 128)%nat.
Proof.
  set (bytes := map (fun i => entropy w (entropy_reads w + i)%nat) (seq 0 18)).
  exists bytes, (token_of_bytes bytes).
  assert (Hb : length bytes = (3 * 6)%nat)
    by (unfold bytes; rewrite length_map, length_seq; reflexivity).
  destruct (token_shape 6 bytes Hb) as [Hl Hs].
  assert (E1 : eval (Env.getRandomValues 18) w = Some bytes) by reflexivity.
  assert (E2 : eval (makeToken 18) w = Some (token_of_bytes bytes))
    by reflexivity.
  clearbody bytes.
  split; [exact E1|]. split; [exact E2|].
  repeat split; try assumption; try lia.
  intros other Ho E. apply (token_injective 6); assumption.
Qed.

(** No token of 24 characters names a property of [Object.prototype]:
    the entry [invites[token] = ...] of an issued token is an own
    property, and its lookup finds that entry. *)
Lemma issued_token_not_inherited (k : string) :
  String.length k = 24%nat -> JsObject.inherited k = false.
Proof.
  intros Hk. unfold JsObject.inherited. apply bool_decide_eq_false.
  unfold JsObject.prototype_names. intros Hin.
  repeat (apply elem_of_cons in Hin as [->|Hin]; [discriminate Hk|]).
  apply elem_of_nil in Hin. exact Hin.
Qed.

(** ** Issuing an invite *)

(** The 18 bytes the next [makeToken()] draws. *)
Lemma makeToken_run (w : World) :
  makeToken 18 w =
  (Some (token_of_bytes
           (map (fun i => entropy w (entropy_reads w + i)%nat) (seq 0 18))),
   set_entropy_reads (entropy_reads w + 18)%nat w).
Proof. reflexivity. Qed.

(** The TTL is fifteen minutes, in milliseconds. *)
Lemma invite_ttl_is_15_minutes :
  INVITE_TTL_MS = 15 * 60 * 1000 /\ INVITE_TTL_MS = 900000.
Proof. split; reflexivity. Qed.

(** [POST /invite] draws a token, records it with the clock reading taken
    before the write and the fixed TTL, writes the invite set once, and
    replies with the token and the clock reading taken after the write
    plus the TTL. *)
Lemma invite_issues (w : World) (token : string) :
  eval (makeToken 18) w = Some token ->
  let created := clock w (clock_reads w) in
  let replied := clock w (S (clock_reads w)) in
  let invites' :=
    <[token := {| createdAt := created; ttlMs := INVITE_TTL_MS |}]>
      (default ∅ (stored_invites w)) in
  eval (fetch invite_request) w =
    Returned {| status := 200;
                body := Json_ (JsonText
                                 (Issued token (replied + INVITE_TTL_MS)));
                webSocket := None |}
  /\ stored_invites (exec (fetch invite_request) w) = Some invites'
  /\ puts (exec (fetch invite_request) w)
     = (puts w ++ [PutInvites invites'])%list
  /\ stored_room (exec (fetch invite_request) w) = stored_room w.
Proof.
  intros Htoken created replied invites'.
  unfold fetch.
  change (String.eqb (method invite_request) "POST"
          && String.eqb (hostname invite_request) "do"
          && String.eqb (pathname invite_request) "/init") with false.
  change (String.eqb (method invite_request) "POST"
          && String.eqb (hostname invite_request) "do"
          && String.eqb (pathname invite_request) "/invite") with true.
  cbv iota.
  rewrite eval_bind, exec_bind, Htoken.
  rewrite !eval_bind, !exec_bind.
  change (exec (makeToken 18) w)
    with (set_entropy_reads (entropy_reads w + 18)%nat w).
  unfold eval, exec, Env.now, Env.stringify, Storage.put_invites,
    Storage.get_invites, ret, bind, gets, modify.
  cbn [fst snd stored_invites puts stored_room clock clock_reads
         set_entropy_reads set_clock_reads set_puts set_stored_invites
         set_stringified].
  repeat split; reflexivity.
Qed.

(** C8. The expiry that [POST /invite] reports is not the instant at
    which the invite expires.  On a clock that advances between the two
    readings of the invite branch, the invite is recorded at 1005 with
    TTL 900000, so it expires after 901005, but the reply gives 901010;
    a connection attempt with that token at 901007, before the reported
    expiry, is refused as expired. *)
Theorem reported_expiry_is_late :
  exists (token : string) (expiresAt : Z) (e : Invite),
    eval (fetch invite_request) Scenario.created =
      Returned {| status := 200;
                  body := Json_ (JsonText (Issued token expiresAt));
                  webSocket := None |}
    /\ default ∅ (stored_invites Scenario.invited) !! token = Some e
    /\ expiresAt ≠ createdAt e + ttlMs e
    /\ clock Scenario.invited (clock_reads Scenario.invited) < expiresAt
    /\ eval (fetch (Scenario.connect_request token "Ada" "Host"))
            Scenario.invited
       = text_response "Invite expired" 401.
Proof.
  exists Scenario.token, 901010, {| createdAt := 1005; ttlMs := 900000 |}.
  split; [vm_compute; reflexivity|].
  split; [vm_compute; reflexivity|].
  split; [discriminate|].
  split; [reflexivity|].
  vm_compute; reflexivity.
Qed.

(** ** The scenario of the specification

    A room is created and an invite issued; Ada connects with it and is
    the roster; her [set_focus] reaches every connection as a [focus]
    frame; her disconnect empties the roster. *)
Example walkthrough :
  let connect := Scenario.connect_request Scenario.token "Ada" "Host" in
  let hello :=
    JObject [("kind", JString "set_focus");
             ("payload", JObject [("type", JString "text");
                                  ("content", JString "Hello")])] in
  let w := Scenario.opened in
  let w1 := exec (handle (Fetch connect)) w in
  let w2 := exec (handle (SocketMessage 1 (Some hello))) w1 in
  let w3 := exec (handle (SocketClose 1 1000)) w2 in
  eval (fetch connect) w = upgraded w
  /\ map p_name (roster w1) = ["Ada"]
  /\ skipn (length (sent w1)) (sent w2) =
     [ (1%nat, JsonText (Focus {| f_type := "text"; f_content := "Hello";
                                  f_author := "session-0";
                                  f_authorName := "Ada"; f_ts := 1030 |})) ]
  /\ roster w3 = [].
Proof. repeat split; vm_compute; reflexivity. Qed.

(** ** Strings *)

Lemma units_length (s : string) : length (units s) = String.length s.
Proof. induction s as [|c s IH]; simpl; congruence. Qed.

Lemma units_inj (s t : string) : units s = units t -> s = t.
Proof.
  intros H. rewrite <- (string_of_list_ascii_of_string s),
              <- (string_of_list_ascii_of_string t).
  unfold units in H. congruence.
Qed.

Lemma units_of_list (l : list ascii) : units (string_of_list_ascii l) = l.
Proof. apply list_ascii_of_string_of_list_ascii. Qed.

Lemma units_trimStart (s : string) :
  units (JsString.trimStart s) = skip_whitespace (units s).
Proof.
  induction s as [|c s IH]; simpl; [reflexivity|].
  destruct (JsString.is_whitespace c); [exact IH|reflexivity].
Qed.

Lemma units_trim (s : string) :
  units (JsString.trim s)
  = rev (skip_whitespace (rev (skip_whitespace (units s)))).
Proof.
  unfold JsString.trim, JsString.trimEnd, JsString.reverse.
  rewrite units_of_list, units_trimStart, units_of_list, units_trimStart.
  reflexivity.
Qed.

Lemma skip_clean (l : list ascii) : clean_front (skip_whitespace l).
Proof.
  induction l as [|c l IH]; simpl; [exact I|].
  destruct (JsString.is_whitespace c) eqn:E; [exact IH|exact E].
Qed.

Lemma skip_id (l : list ascii) : clean_front l -> skip_whitespace l = l.
Proof. destruct l as [|c l]; simpl; [reflexivity|]. intros ->. reflexivity. Qed.

(** Skipping drops a run of whitespace and nothing else. *)
Lemma skip_split (l : list ascii) :
  exists ws,
    l = (ws ++ skip_whitespace l)%list
    /\ Forall (fun c => JsString.is_whitespace c = true) ws.
Proof.
  induction l as [|c l (ws & Hl & Hws)]; simpl.
  - exists []. split; [reflexivity|constructor].
  - destruct (JsString.is_whitespace c) eqn:E.
    + exists (c :: ws). split; [simpl; congruence|constructor; assumption].
    + exists []. split; [reflexivity|constructor].
Qed.

Lemma skip_blank (l : list ascii) :
  Forall (fun c => JsString.is_whitespace c = true) l -> skip_whitespace l = [].
Proof.
  induction 1 as [|c l Hc _ IH]; simpl; [reflexivity|]. rewrite Hc. exact IH.
Qed.

(** Skipping at the back keeps a clean front. *)
Lemma skip_back_front (l : list ascii) :
  clean_front l -> clean_front (rev (skip_whitespace (rev l))).
Proof.
  intros Hl. destruct (skip_split (rev l)) as (ws & Hsplit & Hws).
  apply (f_equal (@rev ascii)) in Hsplit.
  rewrite rev_involutive, rev_app_distr in Hsplit.
  destruct (rev (skip_whitespace (rev l))) as [|c k] eqn:Ek; [exact I|].
  rewrite Hsplit in Hl. exact Hl.
Qed.

Lemma trim_clean (s : string) :
  clean_front (units (JsString.trim s)) /\ clean_back (units (JsString.trim s)).
Proof.
  rewrite units_trim. split.
  - apply skip_back_front, skip_clean.
  - unfold clean_back. rewrite rev_involutive. apply skip_clean.
Qed.

Lemma trim_id (s : string) :
  clean_front (units s) -> clean_back (units s) -> JsString.trim s = s.
Proof.
  intros Hf Hb. apply units_inj. rewrite units_trim.
  rewrite (skip_id _ Hf), (skip_id _ Hb). apply rev_involutive.
Qed.

Lemma trim_blank (s : string) :
  Forall (fun c => JsString.is_whitespace c = true) (units s) ->
  JsString.trim s = "".
Proof.
  intros H. apply units_inj. rewrite units_trim, (skip_blank _ H).
  reflexivity.
Qed.

Lemma units_slice0 (max : nat) (s : string) :
  units (JsString.slice0 max s) = take max (units s).
Proof. unfold JsString.slice0. apply units_of_list. Qed.

Lemma slice0_short (max : nat) (s : string) :
  (String.length s <= max)%nat -> JsString.slice0 max s = s.
Proof.
  intros H. apply units_inj. rewrite units_slice0.
  apply take_ge. rewrite units_length. exact H.
Qed.

Lemma clean_front_take (n : nat) (l : list ascii) :
  clean_front l -> clean_front (take n l).
Proof. destruct l as [|c l], n as [|n]; simpl; auto. Qed.

(** X1.  [clampStr(s, max)] never returns more than [max] code units and
    never a string that starts with whitespace; [null], [undefined] and
    strings of whitespace only give the empty string; a string without
    whitespace at either end and within the cap is returned as it is;
    and it throws on an object that has a property named [toString]. *)
Theorem clampStr_shape (v : option Json) (max : nat) :
  (forall r, clampStr v max = Some r ->
     (String.length r <= max)%nat /\ clean_front (units r))
  /\ (v = None \/ v = Some JNull -> clampStr v max = Some "")
  /\ (forall s, v = Some (JString s) ->
        Forall (fun c => JsString.is_whitespace c = true) (units s) ->
        clampStr v max = Some "")
  /\ (forall s, v = Some (JString s) ->
        clean_front (units s) -> clean_back (units s) ->
        (String.length s <= max)%nat ->
        clampStr v max = Some s)
  /\ (forall fields x, v = Some (JObject fields) ->
        JsValue.assoc "toString" fields = Some x ->
        clampStr v max = None).
Proof.
  split; [|split; [|split; [|split]]].
  - intros r Hr. split; [apply (clampStr_length _ _ _ Hr)|].
    unfold clampStr in Hr.
    destruct (JsValue.toString _) as [t|]; [|discriminate].
    injection Hr as <-.
    rewrite units_slice0. apply clean_front_take, trim_clean.
  - intros [->| ->]; unfold clampStr; simpl; destruct max; reflexivity.
  - intros s -> Hs. unfold clampStr. simpl. rewrite (trim_blank s Hs).
    destruct max; reflexivity.
  - intros s -> Hf Hb Hl. unfold clampStr. simpl.
    rewrite (trim_id s Hf Hb), (slice0_short _ _ Hl). reflexivity.
  - intros fields x -> Hx. unfold clampStr. simpl. rewrite Hx. reflexivity.
Qed.

(** ** Tokens of any number of bytes *)

Lemma tail_bounds (x y : N) :
  (x < 256 -> y < 256 ->
   x / 4 < 64 /\ x mod 4 * 16 < 64 /\ x mod 4 * 16 + y / 16 < 64
   /\ y mod 16 * 4 < 64)%N.
Proof. intros. euclid x 4%N. euclid y 16%N. lia. Qed.

Lemma tail_inj (x y x' y' : N) :
  (x < 256 -> y < 256 -> x' < 256 -> y' < 256 ->
   x / 4 = x' / 4 ->
   x mod 4 * 16 + y / 16 = x' mod 4 * 16 + y' / 16 ->
   y mod 16 * 4 = y' mod 16 * 4 ->
   x = x' /\ y = y')%N.
Proof.
  intros. euclid x 4%N. euclid x' 4%N. euclid y 16%N. euclid y' 16%N. lia.
Qed.

Lemma last_inj (x x' : N) :
  (x < 256 -> x' < 256 -> x / 4 = x' / 4 ->
   x mod 4 * 16 = x' mod 4 * 16 -> x = x')%N.
Proof. intros. euclid x 4%N. euclid x' 4%N. lia. Qed.

(** One byte left over makes two characters, two bytes make three: the
    padding is removed. *)
Lemma token_one (x : byte) :
  token_of_bytes [x] =
  String (url_char (code x / 4)) (String (url_char (code x mod 4 * 16)) "").
Proof.
  destruct (tail_bounds (code x) 0 (code_bound x) eq_refl) as (H0 & H1 & _).
  unfold token_of_bytes, fromCharCode.
  cbn [map string_of_list_ascii Base64.btoa]. fold (code x).
  rewrite (replace_char _ _ H0), (replace_char _ _ H1). reflexivity.
Qed.

Lemma token_two (x y : byte) :
  token_of_bytes [x; y] =
  String (url_char (code x / 4))
    (String (url_char (code x mod 4 * 16 + code y / 16))
       (String (url_char (code y mod 16 * 4)) "")).
Proof.
  destruct (tail_bounds (code x) (code y) (code_bound x) (code_bound y))
    as (H0 & _ & H1 & H2).
  unfold token_of_bytes, fromCharCode.
  cbn [map string_of_list_ascii Base64.btoa]. fold (code x) (code y).
  rewrite (replace_char _ _ H0), (replace_char _ _ H1), (replace_char _ _ H2).
  reflexivity.
Qed.

(** Induction on byte sequences, three bytes at a time. *)
Lemma blocks_ind (P : list byte -> Prop) :
  P [] -> (forall x, P [x]) -> (forall x y, P [x; y]) ->
  (forall x y z l, P l -> P (x :: y :: z :: l)) ->
  forall a, P a.
Proof.
  intros H0 H1 H2 H3 a.
  assert (H : forall n a, (length a <= n)%nat -> P a).
  { clear a. induction n as [|n IH]; intros a Ha.
    - destruct a; [exact H0|simpl in Ha; lia].
    - destruct a as [|x [|y [|z l]]]; auto.
      apply H3, IH. simpl in Ha. lia. }
  apply (H (length a)). lia.
Qed.

Lemma token_length_any (a : list byte) :
  String.length (token_of_bytes a) = ((4 * length a + 2) / 3)%nat.
Proof.
  induction a as [| x | x y | x y z l IH] using blocks_ind.
  - reflexivity.
  - rewrite token_one. reflexivity.
  - rewrite token_two. reflexivity.
  - rewrite token_block. cbn [String.length length]. rewrite IH.
    replace (4 * S (S (S (length l))) + 2)%nat
      with (4 * length l + 2 + 4 * 3)%nat by lia.
    rewrite Nat.div_add by discriminate. lia.
Qed.

Lemma token_safe_any (a : list byte) :
  forallb url_safe (list_ascii_of_string (token_of_bytes a)) = true.
Proof.
  induction a as [| x | x y | x y z l IH] using blocks_ind.
  - reflexivity.
  - destruct (tail_bounds (code x) 0 (code_bound x) eq_refl) as (H0 & H1 & _).
    rewrite token_one. cbn [list_ascii_of_string forallb].
    rewrite !url_char_safe by assumption. reflexivity.
  - destruct (tail_bounds (code x) (code y) (code_bound x) (code_bound y))
      as (H0 & _ & H1 & H2).
    rewrite token_two. cbn [list_ascii_of_string forallb].
    rewrite !url_char_safe by assumption. reflexivity.
  - destruct (block_bounds (code x) (code y) (code z)
                (code_bound x) (code_bound y) (code_bound z))
      as (H0 & H1 & H2 & H3).
    rewrite token_block. cbn [list_ascii_of_string forallb].
    rewrite IH, !url_char_safe by assumption. reflexivity.
Qed.

Lemma token_injective_any (a b : list byte) :
  token_of_bytes a = token_of_bytes b -> a = b.
Proof.
  revert b. induction a as [| x | x y | x y z l IH] using blocks_ind;
    intros b E; pose proof (f_equal String.length E) as El;
    destruct b as [|x' [|y' [|z' l']]];
    rewrite ?token_block, ?token_one, ?token_two in El;
    cbn [String.length] in El; try discriminate El; try lia.
  - reflexivity.
  - rewrite !token_one in E. injection E as E0 E1.
    destruct (tail_bounds (code x) 0 (code_bound x) eq_refl) as (H0 & H1 & _).
    destruct (tail_bounds (code x') 0 (code_bound x') eq_refl)
      as (H0' & H1' & _).
    apply url_char_inj in E0, E1; try assumption.
    f_equal. apply code_inj.
    apply (last_inj _ _ (code_bound x) (code_bound x') E0 E1).
  - rewrite !token_two in E. injection E as E0 E1 E2.
    destruct (tail_bounds (code x) (code y) (code_bound x) (code_bound y))
      as (H0 & _ & H1 & H2).
    destruct (tail_bounds (code x') (code y') (code_bound x') (code_bound y'))
      as (H0' & _ & H1' & H2').
    apply url_char_inj in E0, E1, E2; try assumption.
    destruct (tail_inj _ _ _ _ (code_bound x) (code_bound y)
                (code_bound x') (code_bound y') E0 E1 E2) as [Hx Hy].
    apply code_inj in Hx, Hy. congruence.
  - rewrite !token_block in E. injection E as E0 E1 E2 E3 Er.
    destruct (block_bounds (code x) (code y) (code z)
                (code_bound x) (code_bound y) (code_bound z))
      as (H0 & H1 & H2 & H3).
    destruct (block_bounds (code x') (code y') (code z')
                (code_bound x') (code_bound y') (code_bound z'))
      as (H0' & H1' & H2' & H3').
    apply url_char_inj in E0, E1, E2, E3; try assumption.
    destruct (block_inj _ _ _ _ _ _
                (code_bound x) (code_bound y) (code_bound z)
                (code_bound x') (code_bound y') (code_bound z')
                E0 E1 E2 E3) as (Hx & Hy & Hz).
    apply code_inj in Hx, Hy, Hz. subst x' y' z'.
    f_equal. f_equal. f_equal. apply IH, Er.
Qed.

(** ** The name and role of a connection *)

Lemma skip_nil_blank (l : list ascii) : skip_whitespace l = [] -> blank l.
Proof.
  intros H. destruct (skip_split l) as (ws & Hl & Hws).
  rewrite H, app_nil_r in Hl. rewrite Hl. exact Hws.
Qed.

Lemma blank_rev (l : list ascii) : blank (rev l) -> blank l.
Proof.
  unfold blank. rewrite !Forall_forall. intros H c Hc. apply H.
  apply list_elem_of_In, in_rev. rewrite rev_involutive.
  apply list_elem_of_In, Hc.
Qed.

Lemma skip_keeps_ink (l : list ascii) : ~ blank l -> ~ blank (skip_whitespace l).
Proof.
  intros Hl Hb. apply Hl. destruct (skip_split l) as (ws & Hsplit & Hws).
  rewrite Hsplit. apply Forall_app. split; assumption.
Qed.

(** Trimming leaves something of a string that is not blank. *)
Lemma trim_ink (s : string) : ~ blank (units s) -> JsString.trim s <> "".
Proof.
  intros Hs E. apply (f_equal units) in E. rewrite units_trim in E.
  simpl in E.
  apply (f_equal (@rev ascii)) in E. rewrite rev_involutive in E. simpl in E.
  apply skip_nil_blank, blank_rev in E.
  apply (skip_keeps_ink _ Hs), E.
Qed.

Lemma slice0_ink (max : nat) (s : string) :
  (0 < max)%nat -> s <> "" -> JsString.slice0 max s <> "".
Proof.
  intros Hmax Hs. destruct s as [|c s]; [congruence|].
  destruct max as [|max]; [lia|]. discriminate.
Qed.

Lemma searchParams_get_string (k : string) (ps : list (string * string)) :
  searchParams_get k ps = None
  \/ exists s, searchParams_get k ps = Some (JString s).
Proof.
  induction ps as [|[k' v] ps IH]; simpl; [left; reflexivity|].
  destruct (String.eqb k k'); [right; eexists; reflexivity|exact IH].
Qed.

Lemma or_else_default (a d : string) :
  d <> "" -> JsString.or_else a d <> ""
  /\ (a = "" -> JsString.or_else a d = d)
  /\ (a <> "" -> JsString.or_else a d = a).
Proof.
  intros Hd. unfold JsString.or_else, JsString.truthy.
  destruct (String.eqb_spec a "") as [->|Ha]; simpl; repeat split;
    try congruence.
Qed.

Lemma classic_blank (s : string) : blank (units s) \/ ~ blank (units s).
Proof.
  unfold blank. destruct (decide (Forall (fun c => JsString.is_whitespace c = true) (units s))); auto.
Qed.

(** A query parameter run through [clampStr(get(..) || "Gast", max) ||
    "Gast"]. *)
Lemma capped_default (k : string) (ps : list (string * string)) (max : nat) :
  (4 <= max)%nat ->
  let v := searchParams_get k ps in
  let r :=
    JsString.or_else
      (default ""
         (clampStr (Some (JsValue.or_else v (JString "Gast"))) max))
      "Gast" in
  r <> "" /\ (String.length r <= max)%nat /\ clean_front (units r)
  /\ (missing_or_blank v -> r = "Gast")
  /\ (forall s, v = Some (JString s) -> ~ blank (units s) ->
        r = JsString.slice0 max (JsString.trim s)).
Proof.
  intros Hmax v r.
  assert (Hgast : clampStr (Some (JString "Gast")) max = Some "Gast").
  { unfold clampStr.
    cbn [JsValue.nullish_or JsValue.toString option_map].
    change (JsString.trim "Gast") with "Gast".
    rewrite slice0_short by exact Hmax. reflexivity. }
  assert (Hg : "Gast" <> "" /\ (String.length "Gast" <= max)%nat
               /\ clean_front (units "Gast")).
  { split; [discriminate|]. split; [exact Hmax|reflexivity]. }
  assert (Hdef : JsValue.or_else v (JString "Gast") = JString "Gast" ->
                 r = "Gast").
  { intros E. subst r. rewrite E, Hgast. reflexivity. }
  destruct (searchParams_get_string k ps) as [Hv|(s & Hv)]; fold v in Hv.
  - assert (Hr : r = "Gast") by (apply Hdef; rewrite Hv; reflexivity).
    rewrite Hr. destruct Hg as (G1 & G2 & G3).
    repeat split; try assumption. intros s Hs. congruence.
  - destruct (String.eqb_spec s "") as [->|Hs].
    + assert (Hr : r = "Gast") by (apply Hdef; rewrite Hv; reflexivity).
      rewrite Hr. destruct Hg as (G1 & G2 & G3).
      repeat split; try assumption.
      intros s Hs Hink. exfalso. apply Hink.
      rewrite Hv in Hs. injection Hs as <-. constructor.
    + assert (Hval : JsValue.or_else v (JString "Gast") = JString s).
      { rewrite Hv. unfold JsValue.or_else. cbn [JsValue.truthy].
        rewrite (proj2 (truthy_nonempty s) Hs). reflexivity. }
      assert (Hclamp : clampStr (Some (JString s)) max
                       = Some (JsString.slice0 max (JsString.trim s)))
        by reflexivity.
      destruct (classic_blank s) as [Hb|Hink].
      * assert (Hr : r = "Gast").
        { subst r. rewrite Hval, Hclamp, (trim_blank s Hb).
          destruct max; reflexivity. }
        rewrite Hr. destruct Hg as (G1 & G2 & G3).
        repeat split; try assumption.
        intros s' Hs' Hink. rewrite Hv in Hs'. injection Hs' as <-.
        contradiction.
      * assert (Hne : JsString.slice0 max (JsString.trim s) <> "")
          by (apply slice0_ink; [lia|apply trim_ink, Hink]).
        assert (Hr : r = JsString.slice0 max (JsString.trim s)).
        { subst r. rewrite Hval, Hclamp.
          apply (or_else_default _ "Gast" ltac:(discriminate)), Hne. }
        rewrite Hr. split; [exact Hne|]. split; [|split; [|split]].
        -- apply (clampStr_length _ _ _ Hclamp).
        -- rewrite units_slice0. apply clean_front_take, trim_clean.
        -- intros Hm. rewrite Hv in Hm. simpl in Hm. contradiction.
        -- intros s' Hs' _. rewrite Hv in Hs'. injection Hs' as <-.
           reflexivity.
Qed.

(** X2.  The display name and role of a connection are never empty, are
    capped at 40 and 20 code units, do not start with whitespace, and
    fall back to [Gast] when the parameter is absent or blank; the token
    is capped at 200. *)
Theorem connection_identity (req : Request) :
  let name := ws_name req in
  let role := ws_role req in
  (name <> "" /\ (String.length name <= 40)%nat /\ clean_front (units name))
  /\ (role <> "" /\ (String.length role <= 20)%nat
      /\ clean_front (units role))
  /\ (missing_or_blank (searchParams_get "name" (searchParams req)) ->
      name = "Gast")
  /\ (missing_or_blank (searchParams_get "role" (searchParams req)) ->
      role = "Gast")
  /\ (String.length (ws_token req) <= 200)%nat.
Proof.
  intros name role.
  destruct (capped_default "name" (searchParams req) 40 ltac:(lia))
    as (N1 & N2 & N3 & N4 & _).
  destruct (capped_default "role" (searchParams req) 20 ltac:(lia))
    as (R1 & R2 & R3 & R4 & _).
  repeat split; try assumption.
  unfold ws_token.
  destruct (clampStr_param "token" (searchParams req) 200) as [t Ht].
  rewrite Ht. apply (clampStr_length _ _ _ Ht).
Qed.

Lemma connection_identity_witness :
  let req := Scenario.connect_request "t" "   " "" in
  missing_or_blank (searchParams_get "name" (searchParams req))
  /\ missing_or_blank (searchParams_get "role" (searchParams req))
  /\ ws_name req = "Gast" /\ ws_role req = "Gast".
Proof.
  intros req.
  assert (Hn : missing_or_blank (searchParams_get "name" (searchParams req))).
  { simpl. repeat constructor. }
  assert (Hr : missing_or_blank (searchParams_get "role" (searchParams req))).
  { simpl. constructor. }
  split; [exact Hn|]. split; [exact Hr|].
  split.
  - exact (proj1 (proj2 (proj2 (connection_identity req))) Hn).
  - exact (proj1 (proj2 (proj2 (proj2 (connection_identity req)))) Hr).
Defined.

(** ** Invites from issue to expiry *)

Lemma url_safe_not_whitespace (c : ascii) :
  url_safe c = true -> JsString.is_whitespace c = false.
Proof.
  destruct c as [[] [] [] [] [] [] [] []]; vm_compute; congruence.
Qed.

Lemma safe_is_clean (l : list ascii) :
  forallb url_safe l = true -> clean_front l /\ clean_back l.
Proof.
  intros H. rewrite forallb_forall in H. split.
  - destruct l as [|c l]; [exact I|]. simpl.
    apply url_safe_not_whitespace, H. left. reflexivity.
  - unfold clean_back. destruct (rev l) as [|c k] eqn:E; [exact I|]. simpl.
    apply url_safe_not_whitespace, H, in_rev. rewrite E. left. reflexivity.
Qed.

(** A token comes back from the query string as it was issued. *)
Lemma token_survives_clamp (a : list byte) (req : Request) :
  length a = 18%nat ->
  searchParams_get "token" (searchParams req)
  = Some (JString (token_of_bytes a)) ->
  ws_token req = token_of_bytes a.
Proof.
  intros Ha Hq. unfold ws_token. rewrite Hq. unfold clampStr.
  cbn [JsValue.nullish_or JsValue.toString option_map default from_option].
  unfold id.
  destruct (safe_is_clean _ (token_safe_any a)) as [Hf Hb].
  rewrite (trim_id _ Hf Hb). apply slice0_short.
  rewrite token_length_any, Ha. simpl. lia.
Qed.

Lemma token_is_own_key (a : list byte) :
  length a = 18%nat ->
  token_of_bytes a <> "" /\ JsObject.inherited (token_of_bytes a) = false.
Proof.
  intros Ha.
  assert (Hl : String.length (token_of_bytes a) = 24%nat)
    by (rewrite token_length_any, Ha; reflexivity).
  split; [|apply issued_token_not_inherited, Hl].
  intros E. rewrite E in Hl. discriminate.
Qed.

Lemma makeToken_bytes (w : World) :
  exists a : list byte,
    length a = 18%nat /\ eval (makeToken 18) w = Some (token_of_bytes a).
Proof.
  eexists. split; [|unfold eval; rewrite makeToken_run; reflexivity].
  rewrite length_map, length_seq. reflexivity.
Qed.

(** What issuing an invite leaves alone, and what it uses up. *)
Lemma invite_frame (w : World) :
  let w' := exec (fetch invite_request) w in
  clock w' = clock w /\ clock_reads w' = (2 + clock_reads w)%nat
  /\ entropy_reads w' = (entropy_reads w + 18)%nat
  /\ sessions w' = sessions w /\ sockets w' = sockets w
  /\ sent w' = sent w /\ listening w' = listening w
  /\ stored_room w' = stored_room w.
Proof.
  intros w'. subst w'. unfold fetch.
  change (String.eqb (method invite_request) "POST"
          && String.eqb (hostname invite_request) "do"
          && String.eqb (pathname invite_request) "/init") with false.
  change (String.eqb (method invite_request) "POST"
          && String.eqb (hostname invite_request) "do"
          && String.eqb (pathname invite_request) "/invite") with true.
  cbv iota.
  destruct (makeToken_bytes w) as (a & _ & Ha).
  rewrite exec_bind, Ha. rewrite !exec_bind.
  set (token := token_of_bytes a).
  change (exec (makeToken 18) w)
    with (set_entropy_reads (entropy_reads w + 18)%nat w).
  clearbody token.
  unfold eval, exec, Env.now, Env.stringify, Storage.put_invites,
    Storage.get_invites, ret, bind, gets, modify.
  cbn [fst snd stored_invites puts stored_room clock clock_reads
       sessions sockets sent listening entropy_reads
       set_entropy_reads set_clock_reads set_puts set_stored_invites
       set_stringified].
  repeat split; reflexivity.
Qed.

(** A key of the invite set that is within its TTL opens the door, and
    stays in the set. *)
Lemma own_key_upgrades (req : Request) (w : World) (e : Invite) :
  JsString.endsWith "/ws" (pathname req) = true ->
  ws_token req <> "" ->
  default ∅ (stored_invites w) !! ws_token req = Some e ->
  clock w (clock_reads w) - createdAt e <= ttlMs e ->
  eval (fetch req) w = upgraded w
  /\ stored_invites (exec (fetch req) w) = stored_invites w.
Proof.
  intros Hws Hne He Hage.
  pose proof (connect_outcome req w Hws) as Ho.
  pose proof (connect_world req w Hws) as Hw.
  cbv zeta in Ho, Hw.
  rewrite (proj2 (truthy_nonempty _) Hne) in Ho, Hw.
  unfold JsObject.get in Ho, Hw. rewrite He in Ho, Hw.
  destruct (Z.gtb_spec (clock w (clock_reads w) - createdAt e) (ttlMs e))
    as [Hgt|_]; [lia|].
  cbn [negb] in Ho, Hw. split; assumption.
Qed.

(** X5.  An invite that was just issued admits a connection that presents its
    token, as long as the clock has not moved past the TTL since the
    invite was recorded; the invite stays in the set, so the token works
    again. *)
Theorem issued_token_connects (req : Request) (w : World) (token : string) :
  JsString.endsWith "/ws" (pathname req) = true ->
  eval (makeToken 18) w = Some token ->
  searchParams_get "token" (searchParams req) = Some (JString token) ->
  clock w (2 + clock_reads w)%nat - clock w (clock_reads w)
  <= INVITE_TTL_MS ->
  let invited := exec (fetch invite_request) w in
  eval (fetch req) invited = upgraded invited
  /\ stored_invites (exec (fetch req) invited) = stored_invites invited.
Proof.
  intros Hws Htoken Hq Hage invited.
  destruct (makeToken_bytes w) as (a & Ha & Hbytes).
  destruct (invite_issues w token Htoken) as (_ & Hinv & _).
  destruct (invite_frame w) as (Hc & Hr & _).
  cbv zeta in Hinv, Hc, Hr. fold invited in Hinv, Hc, Hr.
  clearbody invited.
  rewrite Htoken in Hbytes. injection Hbytes as ->.
  pose proof (token_survives_clamp a req Ha Hq) as Htok.
  destruct (token_is_own_key a Ha) as [Hne _].
  apply (own_key_upgrades req invited
           {| createdAt := clock w (clock_reads w);
              ttlMs := INVITE_TTL_MS |} Hws).
  - rewrite Htok. exact Hne.
  - rewrite Htok, Hinv. apply lookup_insert_eq.
  - rewrite Hc, Hr. exact Hage.
Qed.

Lemma issued_token_connects_witness :
  let w := exec (fetch init_request)
             (genesis Scenario.steady Scenario.ids Scenario.rnd) in
  let req := Scenario.connect_request Scenario.token "Ada" "Host" in
  JsString.endsWith "/ws" (pathname req) = true
  /\ eval (makeToken 18) w = Some Scenario.token
  /\ searchParams_get "token" (searchParams req)
     = Some (JString Scenario.token)
  /\ clock w (2 + clock_reads w)%nat - clock w (clock_reads w) <= INVITE_TTL_MS
  /\ eval (fetch req) (exec (fetch invite_request) w)
     = upgraded (exec (fetch invite_request) w).
Proof.
  intros w req.
  assert (Hws : JsString.endsWith "/ws" (pathname req) = true) by reflexivity.
  assert (Ht : eval (makeToken 18) w = Some Scenario.token)
    by (vm_compute; reflexivity).
  assert (Hq : searchParams_get "token" (searchParams req)
               = Some (JString Scenario.token)) by reflexivity.
  assert (Hage : clock w (2 + clock_reads w)%nat - clock w (clock_reads w)
                 <= INVITE_TTL_MS) by (vm_compute; discriminate).
  split; [exact Hws|]. split; [exact Ht|]. split; [exact Hq|].
  split; [exact Hage|].
  exact (proj1 (issued_token_connects req w Scenario.token Hws Ht Hq Hage)).
Defined.

(** X6.  An expired invite is reported once: the attempt that finds it expired
    removes it and leaves the other invites, so the next attempt with the
    same token is answered as an unknown invite and changes nothing. *)
Theorem expired_invite_is_forgotten (req : Request) (w : World) (e : Invite) :
  JsString.endsWith "/ws" (pathname req) = true ->
  ws_token req <> "" ->
  JsObject.inherited (ws_token req) = false ->
  default ∅ (stored_invites w) !! ws_token req = Some e ->
  clock w (clock_reads w) - createdAt e > ttlMs e ->
  let w' := exec (fetch req) w in
  eval (fetch req) w = text_response "Invite expired" 401
  /\ default ∅ (stored_invites w') !! ws_token req = None
  /\ (forall k, k <> ws_token req ->
        default ∅ (stored_invites w') !! k
        = default ∅ (stored_invites w) !! k)
  /\ eval (fetch req) w' = text_response "Invalid invite" 401
  /\ exec (fetch req) w' = w'.
Proof.
  intros Hws Hne Hin He Hage w'.
  pose proof (connect_outcome req w Hws) as Ho.
  pose proof (connect_world req w Hws) as Hw.
  cbv zeta in Ho, Hw. fold w' in Hw.
  rewrite (proj2 (truthy_nonempty _) Hne) in Ho, Hw.
  unfold JsObject.get in Ho, Hw. rewrite He in Ho, Hw.
  destruct (Z.gtb_spec (clock w (clock_reads w) - createdAt e) (ttlMs e))
    as [_|Hle]; [|lia].
  cbn [negb] in Ho, Hw. destruct Hw as (Hinv & _ & _).
  clearbody w'.
  pose proof (connect_outcome req w' Hws) as Ho'.
  pose proof (connect_world req w' Hws) as Hw'.
  cbv zeta in Ho', Hw'.
  rewrite (proj2 (truthy_nonempty _) Hne) in Ho', Hw'.
  unfold JsObject.get in Ho', Hw'. rewrite Hinv in Ho', Hw'.
  cbn [default from_option] in Ho', Hw'. unfold id in Ho', Hw'.
  rewrite lookup_delete_eq, Hin in Ho', Hw'. cbn [negb] in Ho', Hw'.
  rewrite Hinv. cbn [default from_option]. unfold id.
  split; [exact Ho|]. split; [apply lookup_delete_eq|].
  split; [|split; assumption].
  intros k Hk. apply lookup_delete_ne. congruence.
Qed.

(** ** The listeners of a connection *)

(** X8.  Messages that cannot be parsed, that carry no [kind], or whose kind
    is neither [set_focus] nor [leave] are dropped: the listener changes
    nothing at all. *)
Theorem other_messages_are_dropped
    (clientId : string) (server : nat) (data : option Json) (w : World) :
  (forall msg, data = Some msg ->
     kind_is msg "set_focus" = false /\ kind_is msg "leave" = false) ->
  on_message clientId server data w = (Fulfilled, w).
Proof.
  intros H. unfold on_message. destruct data as [msg|]; [|reflexivity].
  destruct (H msg eq_refl) as [Hf Hl]. unfold kind_is in Hf, Hl.
  rewrite Hf, Hl.
  destruct (JsValue.not (Some msg) || JsValue.not (JsValue.prop msg "kind"));
    reflexivity.
Qed.

Lemma other_messages_are_dropped_witness :
  let data := Some (JObject [("kind", JString "ping")]) in
  (forall msg, data = Some msg ->
     kind_is msg "set_focus" = false /\ kind_is msg "leave" = false)
  /\ on_message "session-0" 1 data Scenario.with_bob
     = (Fulfilled, Scenario.with_bob).
Proof.
  intros data.
  assert (H : forall msg, data = Some msg ->
                kind_is msg "set_focus" = false /\ kind_is msg "leave" = false).
  { intros msg E. injection E as <-. split; reflexivity. }
  split; [exact H|].
  exact (other_messages_are_dropped "session-0" 1 data Scenario.with_bob H).
Defined.

(** What closing a socket from the server side does. *)
Lemma close_run (ws : nat) (code : Z) (w : World) :
  exec (Socket.close ws code) w =
  if Socket.is_open (sockets w) ws
  then set_sockets (<[ws := Closed code]> (sockets w)) w
  else w.
Proof.
  unfold exec, Socket.close, bind, gets, modify, ret.
  destruct (Socket.is_open (sockets w) ws); reflexivity.
Qed.

Lemma is_open_lt (socks : list SocketState) (ws : nat) :
  Socket.is_open socks ws = true -> (ws < length socks)%nat.
Proof.
  unfold Socket.is_open. destruct (socks !! ws) eqn:E; [|discriminate].
  intros _. apply lookup_lt_Some in E. exact E.
Qed.

(** After [close] no frame goes to the socket, an open socket carries
    the close code, and every other socket is as before; nothing else
    of the world changes. *)
Lemma close_effects (ws : nat) (code : Z) (w : World) :
  let w' := exec (Socket.close ws code) w in
  Socket.is_open (sockets w') ws = false
  /\ (Socket.is_open (sockets w) ws = true ->
      sockets w' !! ws = Some (Closed code))
  /\ (forall other, other <> ws -> sockets w' !! other = sockets w !! other)
  /\ stored_room w' = stored_room w /\ stored_invites w' = stored_invites w
  /\ puts w' = puts w /\ sessions w' = sessions w /\ sent w' = sent w
  /\ listening w' = listening w.
Proof.
  intros w'. subst w'. rewrite close_run.
  destruct (Socket.is_open (sockets w) ws) eqn:E; simpl.
  - pose proof (is_open_lt _ _ E) as Hlt.
    repeat split; try reflexivity.
    + unfold Socket.is_open. rewrite list_lookup_insert_eq by exact Hlt.
      reflexivity.
    + intros _. apply list_lookup_insert_eq, Hlt.
    + intros other Hne. apply list_lookup_insert_ne. congruence.
  - repeat split; try reflexivity; try assumption. discriminate.
Qed.

Lemma leave_not_dropped (msg : Json) :
  kind_is msg "leave" = true ->
  JsValue.not (Some msg) || JsValue.not (JsValue.prop msg "kind") = false
  /\ kind_is msg "set_focus" = false.
Proof.
  unfold kind_is.
  destruct msg as [| | | | |fields]; simpl; try discriminate.
  destruct (JsValue.assoc "kind" fields) as [[| | |k| |]|]; simpl;
    try discriminate.
  destruct (String.eqb_spec k "leave") as [->|]; [|discriminate].
  split; reflexivity.
Qed.

(** X9.  A [leave] message only closes the sender's socket, with code 1000:
    the participant stays on the roster and the session stays registered
    until the close event is handled. *)
Theorem leave_only_closes
    (clientId : string) (server : nat) (msg : Json) (w : World) :
  kind_is msg "leave" = true ->
  let w' := exec (on_message clientId server (Some msg)) w in
  w' = exec (Socket.close server 1000) w
  /\ Socket.is_open (sockets w') server = false
  /\ (Socket.is_open (sockets w) server = true ->
      sockets w' !! server = Some (Closed 1000))
  /\ roster w' = roster w /\ sessions w' = sessions w
  /\ stored_room w' = stored_room w /\ sent w' = sent w.
Proof.
  intros Hk w'.
  assert (E : w' = exec (Socket.close server 1000) w).
  { subst w'. destruct (leave_not_dropped msg Hk) as [Hd Hf].
    unfold kind_is in Hk, Hf. unfold on_message. rewrite Hd, Hf, Hk.
    rewrite exec_bind. reflexivity. }
  clearbody w'. subst w'.
  destruct (close_effects server 1000 w)
    as (H1 & H2 & _ & H4 & _ & _ & H7 & H8 & _).
  repeat split; try assumption.
  rewrite !roster_stored, H4. reflexivity.
Qed.

Lemma leave_only_closes_witness :
  let msg := JObject [("kind", JString "leave")] in
  kind_is msg "leave" = true
  /\ roster (exec (on_message "session-0" 1 (Some msg) ) Scenario.with_bob)
     = roster Scenario.with_bob.
Proof.
  intros msg.
  assert (Hk : kind_is msg "leave" = true) by reflexivity.
  split; [exact Hk|].
  exact (proj1 (proj2 (proj2 (proj2
           (leave_only_closes "session-0" 1 msg Scenario.with_bob Hk))))).
Defined.

(** X10.  A connection error closes the socket with code 1011 and touches
    nothing else: the cleanup is left to the close event. *)
Theorem error_only_closes (server : nat) (w : World) :
  let w' := exec (on_error server) w in
  w' = exec (Socket.close server 1011) w
  /\ Socket.is_open (sockets w') server = false
  /\ (Socket.is_open (sockets w) server = true ->
      sockets w' !! server = Some (Closed 1011))
  /\ roster w' = roster w /\ sessions w' = sessions w
  /\ stored_room w' = stored_room w /\ sent w' = sent w.
Proof.
  intros w'.
  assert (E : w' = exec (Socket.close server 1011) w).
  { subst w'. unfold on_error. rewrite exec_bind. reflexivity. }
  clearbody w'. subst w'.
  destruct (close_effects server 1011 w)
    as (H1 & H2 & _ & H4 & _ & _ & H7 & H8 & _).
  repeat split; try assumption.
  rewrite !roster_stored, H4. reflexivity.
Qed.

Lemma error_only_closes_witness :
  Socket.is_open (sockets Scenario.with_bob) 3 = true
  /\ sockets (exec (on_error 3) Scenario.with_bob) !! 3%nat
     = Some (Closed 1011).
Proof.
  assert (H : Socket.is_open (sockets Scenario.with_bob) 3 = true)
    by reflexivity.
  split; [exact H|].
  exact (proj1 (proj2 (proj2 (error_only_closes 3 Scenario.with_bob))) H).
Defined.

(** Loading and mutating the room leave invites and listeners alone. *)
Lemma getRoom_frame (w : World) :
  stored_invites (exec _getRoom w) = stored_invites w
  /\ listening (exec _getRoom w) = listening w.
Proof.
  unfold exec. destruct (stored_room w) as [r|] eqn:E.
  - rewrite (getRoom_stored w r E). auto.
  - rewrite (getRoom_absent w E). auto.
Qed.

Lemma mutate_frame (m : Mutation) (w : World) :
  stored_invites (exec (mutate m) w) = stored_invites w
  /\ listening (exec (mutate m) w) = listening w.
Proof.
  destruct (getRoom_frame w) as (H1 & H2). revert H1 H2.
  unfold exec.
  destruct (mutate m w) as [u w2] eqn:Em.
  destruct m as [p|id|byId type content]; simpl in Em;
    [unfold _addParticipant in Em|unfold _removeParticipant in Em
    |unfold _setFocus in Em];
    unfold bind at 1 in Em; destruct (_getRoom w) as [room w1];
    injection Em as _ <-; simpl; auto.
Qed.

(** The readers of an existing room return its fields and write
    nothing. *)
Lemma publicState_stored (w : World) (r : Room) :
  stored_room w = Some r ->
  _publicState w =
  ({| ps_startedAt := startedAt r; ps_participants := participants r;
      ps_focus := focus r |}, w).
Proof.
  intros H. unfold _publicState, bind. rewrite (getRoom_stored w r H).
  reflexivity.
Qed.

Lemma getFocus_stored (w : World) (r : Room) :
  stored_room w = Some r -> _getFocus w = (focus r, w).
Proof.
  intros H. unfold _getFocus, bind. rewrite (getRoom_stored w r H).
  reflexivity.
Qed.

Lemma sessions_get_delete (k : string) (m : list (string * Session)) :
  Sessions.get k (Sessions.delete k m) = None.
Proof.
  unfold Sessions.delete. induction m as [|[k' v] m IH]; [reflexivity|].
  destruct (String.eqb_spec k k') as [->|Hne].
  - rewrite filter_cons_False; [exact IH|].
    simpl. rewrite String.eqb_refl. exact id.
  - rewrite filter_cons_True.
    + simpl. destruct (String.eqb_spec k k'); [contradiction|exact IH].
    + simpl. destruct (String.eqb_spec k k'); [contradiction|exact I].
Qed.

(** The close listener, step by step. *)
Lemma on_close_run (clientId : string) (w : World) :
  let room := eval _getRoom w in
  let w' := exec (on_close clientId) w in
  sessions w' = Sessions.delete clientId (sessions w)
  /\ Sessions.get clientId (sessions w') = None
  /\ roster w' =
     filter (fun x => negb (String.eqb (p_id x) clientId)) (roster w)
  /\ (exists ev,
        timeline (eval _getRoom w') = (timeline room ++ [ev])%list
        /\ t_kind ev = "leave" /\ t_by ev = clientId)
  /\ sent w' =
     (sent w
      ++ deliveries
           (JsonText (Presence {| ps_startedAt := startedAt room;
                                  ps_participants := roster w';
                                  ps_focus := focus room |}))
           (sockets w) (Sessions.delete clientId (sessions w)))%list
  /\ sockets w' = sockets w
  /\ stored_invites w' = stored_invites w.
Proof.
  intros room w'.
  set (w1 := set_sessions (Sessions.delete clientId (sessions w)) w).
  assert (Hroom1 : _getRoom w1 = (room, set_sessions
            (Sessions.delete clientId (sessions w)) (exec _getRoom w))).
  { subst room w1. unfold eval, exec.
    destruct (stored_room w) as [r|] eqn:E.
    - rewrite (getRoom_stored w r E).
      apply getRoom_stored. exact E.
    - rewrite (getRoom_absent w E).
      rewrite (getRoom_absent (set_sessions _ w) E). reflexivity. }
  destruct (mutate_step (Leave clientId) w1)
    as (ev & room' & Hk & Hb & Ht & Hst & _ & Hs & Hp & Hf).
  destruct (mutate_hub (Leave clientId) w1) as (Hses & Hsock & Hsent & _).
  simpl mutate in *. simpl kind_of in *. simpl actor_of in *.
  unfold eval in Ht, Hst, Hp, Hf. rewrite Hroom1 in Ht, Hst, Hp, Hf.
  simpl in Ht, Hst, Hp, Hf.
  set (w2 := exec (_removeParticipant clientId) w1) in *.
  assert (Hinv2 : stored_invites w2 = stored_invites w).
  { subst w2. apply (mutate_frame (Leave clientId) w1). }
  assert (Hrun : w' = exec (_broadcast (Presence
                   {| ps_startedAt := startedAt room';
                      ps_participants := participants room';
                      ps_focus := focus room' |})) w2).
  { subst w'. unfold on_close. rewrite exec_bind.
    change (exec (modify _) w) with w1. rewrite exec_bind. fold w2.
    rewrite exec_bind. unfold eval, exec at 2.
    rewrite (publicState_stored w2 room' Hs). reflexivity. }
  clearbody w2 w'.
  assert (Hst' : stored_room w' = Some room')
    by (rewrite Hrun, broadcast_run; exact Hs).
  assert (Hg : eval _getRoom w' = room')
    by (unfold eval; rewrite (getRoom_stored _ _ Hst'); reflexivity).
  assert (Hr' : roster w' = participants room')
    by (unfold roster; rewrite Hg; reflexivity).
  assert (Hold : roster w = participants room) by reflexivity.
  rewrite Hg, Hr', Hold.
  split; [rewrite Hrun, broadcast_run; simpl; rewrite Hses; reflexivity|].
  split; [rewrite Hrun, broadcast_run; simpl; rewrite Hses;
          apply sessions_get_delete|].
  split; [exact Hp|].
  split; [exists ev; repeat split; assumption|].
  split; [|split].
  - rewrite Hrun, broadcast_run. simpl.
    rewrite Hses, Hsock, Hsent, Hst, Hf. reflexivity.
  - rewrite Hrun, broadcast_run. simpl. rewrite Hsock. reflexivity.
  - rewrite Hrun, broadcast_run. simpl. exact Hinv2.
Qed.

(** X11.  The close listener is the whole cleanup of a connection: the session
    is unregistered, the participants with its id leave the roster while
    the others keep their order, one [leave] event by that id is
    appended, and every remaining connection that takes frames gets one
    [presence] frame with the new roster; the closed connection gets
    none. *)
Theorem close_cleans_up (clientId : string) (w : World) :
  let room := eval _getRoom w in
  let w' := exec (on_close clientId) w in
  sessions w' = Sessions.delete clientId (sessions w)
  /\ Sessions.get clientId (sessions w') = None
  /\ roster w' =
     filter (fun x => negb (String.eqb (p_id x) clientId)) (roster w)
  /\ (exists ev,
        timeline (eval _getRoom w') = (timeline room ++ [ev])%list
        /\ t_kind ev = "leave" /\ t_by ev = clientId)
  /\ sent w' =
     (sent w
      ++ deliveries
           (JsonText (Presence {| ps_startedAt := startedAt room;
                                  ps_participants := roster w';
                                  ps_focus := focus room |}))
           (sockets w) (Sessions.delete clientId (sessions w)))%list
  /\ sockets w' = sockets w
  /\ stored_invites w' = stored_invites w.
Proof. exact (on_close_run clientId w). Qed.

Lemma accept_server (socks : list SocketState) :
  <[S (length socks) := Accepted]> (socks ++ [Created; Created])%list
  = (socks ++ [Created; Accepted])%list.
Proof. induction socks as [|x l IH]; simpl; [reflexivity|]. f_equal. exact IH. Qed.

Lemma sessions_set_in (k : string) (v : Session) (m : list (string * Session)) :
  (k, v) ∈ Sessions.set k v m.
Proof.
  induction m as [|[k' v'] m IH]; simpl; [left|].
  destruct (String.eqb k k'); [left|right; exact IH].
Qed.

(** The upgrade, step by step. *)
Lemma upgrade_run (name role : string) (w : World) :
  let n := length (sockets w) in
  let id := uuids w (uuid_reads w) in
  let w' := exec (upgrade name role) w in
  eval (upgrade name role) w
  = Returned {| status := 101; body := NoBody; webSocket := Some n |}
  /\ sockets w' = (sockets w ++ [Created; Accepted])%list
  /\ sessions w'
     = Sessions.set id {| s_ws := S n; s_name := name; s_role := role |}
         (sessions w)
  /\ listening w' = (listening w ++ [(S n, id)])%list
  /\ stored_invites w' = stored_invites w
  /\ exists (joinedAt : Z) (snapshot : PublicState),
       roster w'
       = (roster w ++ [ {| p_id := id; p_name := name; p_role := role;
                           p_joinedAt := joinedAt |} ])%list
       /\ ps_participants snapshot = roster w'
       /\ sent w'
          = (sent w
             ++ (S n, JsonText (Presence snapshot))
                :: deliveries (JsonText (Presence snapshot))
                     (sockets w') (sessions w'))%list
       /\ (S n, JsonText (Presence snapshot))
          ∈ deliveries (JsonText (Presence snapshot))
              (sockets w') (sessions w')
       /\ exists older join,
            timeline (eval _getRoom w') = (older ++ [join])%list
            /\ length older = length (timeline (eval _getRoom w))
            /\ t_kind join = "join" /\ t_by join = id.
Proof.
  intros n id w'.
  assert (Hin : forall data socks,
            Socket.is_open socks (S n) = true ->
            (S n, data)
            ∈ deliveries data socks
                (Sessions.set id
                   {| s_ws := S n; s_name := name; s_role := role |}
                   (sessions w))).
  { intros data socks Hopen. unfold deliveries.
    apply (list_elem_of_fmap_2
             (fun kv : string * Session => (s_ws (snd kv), data))
             _ (id, {| s_ws := S n; s_name := name; s_role := role |})).
    apply list_elem_of_filter. split; [simpl; rewrite Hopen; exact I|].
    apply sessions_set_in. }
  assert (Hopen : Socket.is_open (sockets w ++ [Created; Accepted])%list (S n)
                  = true).
  { rewrite <- accept_server. apply fresh_server_open. }
  subst w'. rewrite !roster_stored. unfold eval, exec.
  destruct (stored_room w) as [r|] eqn:Er.
  - run_upgrade. simpl. rewrite Er. simpl. rewrite fresh_server_open. simpl.
    match goal with
    | |- context [_broadcast ?m ?w0] =>
        rewrite (run_pair (_broadcast m) w0), broadcast_run
    end.
    simpl. rewrite accept_server.
    repeat split; try reflexivity.
    eexists _, (Build_PublicState _ _ _). simpl.
    split; [reflexivity|]. split; [reflexivity|].
    split; [rewrite <- app_assoc; reflexivity|].
    split; [apply Hin, Hopen|].
    eexists _, (Build_TimelineEvent _ _ _).
    split; [reflexivity|]. repeat split; reflexivity.
  - run_upgrade. simpl. rewrite Er. simpl. rewrite fresh_server_open. simpl.
    match goal with
    | |- context [_broadcast ?m ?w0] =>
        rewrite (run_pair (_broadcast m) w0), broadcast_run
    end.
    simpl. rewrite accept_server.
    repeat split; try reflexivity.
    eexists _, (Build_PublicState _ _ _). simpl.
    split; [reflexivity|]. split; [reflexivity|].
    split; [rewrite <- app_assoc; reflexivity|].
    split; [apply Hin, Hopen|].
    eexists [_], (Build_TimelineEvent _ _ _).
    split; [reflexivity|]. repeat split; reflexivity.
Qed.


(** X13.  A connection that comes and goes leaves the roster as it found it:
    when the new session id is not already on the roster, the upgrade
    followed by the close listener of that session restores the roster
    and unregisters the session, and the timeline has grown by the
    [join] and the [leave] of that session. *)
Theorem connect_then_close (name role : string) (w : World) :
  let id := uuids w (uuid_reads w) in
  id ∉ map p_id (roster w) ->
  let w' := exec (on_close id) (exec (upgrade name role) w) in
  roster w' = roster w
  /\ Sessions.get id (sessions w') = None
  /\ exists older join leave,
       timeline (eval _getRoom w') = (older ++ [join; leave])%list
       /\ length older = length (timeline (eval _getRoom w))
       /\ t_kind join = "join" /\ t_kind leave = "leave"
       /\ t_by join = id /\ t_by leave = id.
Proof.
  intros id Hid w'. subst w'.
  destruct (upgrade_run name role w)
    as (_ & _ & _ & _ & _ & joinedAt & snapshot & Hj & _ & _ & _
        & older & join & Htl & Hlen & Hjk & Hjb).
  cbv zeta in Hj, Htl, Hlen. fold id in Hj, Hjb.
  set (w1 := exec (upgrade name role) w) in *. clearbody w1.
  destruct (on_close_run id w1)
    as (_ & Hget & Hr & (leave & Hlt & Hlk & Hlb) & _).
  cbv zeta in Hget, Hr, Hlt.
  split; [|split; [exact Hget|]].
  - rewrite Hr, Hj, filter_app, (remove_absent id _ Hid).
    rewrite filter_cons_False.
    + rewrite filter_nil. apply app_nil_r.
    + simpl. rewrite String.eqb_refl. exact (fun H => H).
  - exists older, join, leave. rewrite Hlt, Htl, <- app_assoc.
    repeat split; assumption.
Qed.

Lemma connect_then_close_witness :
  let w := Scenario.with_ada in
  (uuids w (uuid_reads w) ∉ map p_id (roster w))
  /\ roster (exec (on_close (uuids w (uuid_reads w)))
               (exec (upgrade "Bob" "Gast") w))
     = roster w.
Proof.
  intros w.
  assert (Hid : uuids w (uuid_reads w) ∉ map p_id (roster w)).
  { change (map p_id (roster w)) with ["session-0"].
    change (uuids w (uuid_reads w)) with "session-1".
    intros H. apply list_elem_of_singleton in H. discriminate. }
  split; [exact Hid|].
  exact (proj1 (connect_then_close "Bob" "Gast" w Hid)).
Defined.

(** ** Invariants of the room over all events *)

Create HintDb stored.

Section StoredInvariant.

Variable R : option Room -> Prop.
Variable joiner : string -> string -> Prop.
Variable resettable : Prop.

Hypothesis R_create : forall t, R None -> R (Some (fresh_room t)).
Hypothesis R_reset :
  forall o t, resettable -> R o -> R (Some (fresh_room t)).
Hypothesis R_join :
  forall r p ev,
    joiner (p_name p) (p_role p) ->
    t_kind ev = "join" -> t_by ev = p_id p -> R (Some r) ->
    R (Some {| startedAt := startedAt r; focus := focus r;
               participants := (participants r ++ [p])%list;
               timeline := (timeline r ++ [ev])%list |}).
Hypothesis R_leave :
  forall r id ev,
    t_kind ev = "leave" -> t_by ev = id -> R (Some r) ->
    R (Some {| startedAt := startedAt r; focus := focus r;
               participants :=
                 filter (fun x => negb (String.eqb (p_id x) id))
                        (participants r);
               timeline := (timeline r ++ [ev])%list |}).
Hypothesis R_focus :
  forall r f ev,
    t_kind ev = "set_focus" -> t_by ev = f_author f -> R (Some r) ->
    R (Some {| startedAt := startedAt r; focus := f;
               participants := participants r;
               timeline := (timeline r ++ [ev])%list |}).
Hypothesis joiner_ok : forall req, joiner (ws_name req) (ws_role req).

Lemma stored_frame (f : World -> World) :
  (forall w, stored_room (f w) = stored_room w) ->
  keeps (stored R) (modify f).
Proof.
  intros Hf. apply keeps_modify. intros w H. unfold stored in *.
  rewrite Hf. exact H.
Qed.

Lemma stored_same {A} (c : M A) :
  (forall w, stored_room (exec c w) = stored_room w) -> keeps (stored R) c.
Proof. intros Hc w H. unfold stored in *. rewrite Hc. exact H. Qed.

Lemma now_stored : keeps (stored R) Env.now.
Proof. apply stored_same. reflexivity. Qed.

Lemma randomUUID_stored : keeps (stored R) Env.randomUUID.
Proof. apply stored_same. reflexivity. Qed.

Lemma stringify_stored m : keeps (stored R) (Env.stringify m).
Proof. apply stored_same. reflexivity. Qed.

Lemma makeToken_stored n : keeps (stored R) (makeToken n).
Proof.
  apply stored_same. intros w.
  unfold exec, makeToken, Env.getRandomValues, bind.
  destruct (65536 <? N.of_nat n)%N; reflexivity.
Qed.

Lemma put_invites_stored i : keeps (stored R) (Storage.put_invites i).
Proof. apply stored_same. reflexivity. Qed.

Lemma pair_stored : keeps (stored R) Socket.pair.
Proof. apply stored_same. reflexivity. Qed.

Lemma accept_stored ws : keeps (stored R) (Socket.accept ws).
Proof. apply stored_same. reflexivity. Qed.

Lemma send_stored ws data : keeps (stored R) (Socket.send ws data).
Proof.
  apply stored_same. intros w. unfold exec. rewrite send_run.
  destruct (Socket.is_open (sockets w) ws); reflexivity.
Qed.

Lemma close_stored ws code : keeps (stored R) (Socket.close ws code).
Proof.
  apply stored_same. intros w. rewrite close_run.
  destruct (Socket.is_open (sockets w) ws); reflexivity.
Qed.

Lemma broadcast_stored m : keeps (stored R) (_broadcast m).
Proof. apply stored_same. intros w. rewrite broadcast_run. reflexivity. Qed.

Lemma put_room_stored r : R (Some r) -> keeps (stored R) (Storage.put_room r).
Proof. intros Hr w _. exact Hr. Qed.

(** Loading yields a room that satisfies the property and is the one in
    storage afterwards. *)
Lemma getRoom_stored_inv (w : World) :
  stored R w -> R (Some (eval _getRoom w)) /\ stored R (exec _getRoom w).
Proof.
  intros H. unfold stored in *.
  assert (Hr : R (Some (eval _getRoom w))).
  { unfold eval. destruct (stored_room w) as [r|] eqn:E.
    - rewrite (getRoom_stored w r E). exact H.
    - rewrite (getRoom_absent w E). apply R_create, H. }
  split; [exact Hr|]. rewrite getRoom_persisted. exact Hr.
Qed.

Lemma getRoom_keeps_stored : keeps (stored R) _getRoom.
Proof. intros w H. apply getRoom_stored_inv, H. Qed.

Lemma publicState_stored_inv : keeps (stored R) _publicState.
Proof.
  unfold _publicState.
  apply keeps_bind; [apply getRoom_keeps_stored|intros r; apply keeps_ret].
Qed.

Lemma getFocus_stored_inv : keeps (stored R) _getFocus.
Proof.
  unfold _getFocus.
  apply keeps_bind; [apply getRoom_keeps_stored|intros r; apply keeps_ret].
Qed.

Lemma addParticipant_stored p :
  joiner (p_name p) (p_role p) -> keeps (stored R) (_addParticipant p).
Proof.
  intros Hp w H.
  destruct (getRoom_stored_inv w H) as [Hr _].
  destruct (mutate_step (Join p) w)
    as (ev & room' & Hk & Hb & Ht & Hst & _ & Hs & Hps & Hf).
  simpl in *. unfold stored. rewrite Hs.
  destruct room' as [s f ps tl]. simpl in *. subst s f ps tl.
  apply R_join; assumption.
Qed.

Lemma removeParticipant_stored id : keeps (stored R) (_removeParticipant id).
Proof.
  intros w H.
  destruct (getRoom_stored_inv w H) as [Hr _].
  destruct (mutate_step (Leave id) w)
    as (ev & room' & Hk & Hb & Ht & Hst & _ & Hs & Hps & Hf).
  simpl in *. unfold stored. rewrite Hs.
  destruct room' as [s f ps tl]. simpl in *. subst s f ps tl.
  apply R_leave; assumption.
Qed.

Lemma setFocus_stored_inv byId type content :
  keeps (stored R) (_setFocus byId type content).
Proof.
  intros w H.
  destruct (getRoom_stored_inv w H) as [Hr _].
  destruct (mutate_step (SetFocus byId type content) w)
    as (ev & room' & Hk & Hb & Ht & Hst & _ & Hs & Hps & _ & _ & Ha).
  simpl in *. unfold stored. rewrite Hs.
  destruct room' as [s f ps tl]. simpl in *. subst s ps tl.
  apply R_focus; congruence.
Qed.

Hint Resolve keeps_ret keeps_gets now_stored randomUUID_stored
  stringify_stored makeToken_stored put_invites_stored pair_stored
  accept_stored send_stored close_stored broadcast_stored
  getRoom_keeps_stored publicState_stored_inv getFocus_stored_inv
  removeParticipant_stored setFocus_stored_inv : stored.

Ltac stored_step :=
  first
    [ solve [auto with stored]
    | assumption
    | apply stored_frame; reflexivity
    | apply addParticipant_stored; simpl; assumption
    | apply keeps_bind; [|intro]
    | match goal with
      | |- keeps _ (if ?b then _ else _) => destruct b
      | |- keeps _ (match ?x with _ => _ end) => destruct x
      end ].

Lemma upgrade_stored name role :
  joiner name role -> keeps (stored R) (upgrade name role).
Proof.
  intros Hj. unfold upgrade. cbv zeta.
  repeat stored_step.
Qed.

Lemma on_message_stored clientId server data :
  keeps (stored R) (on_message clientId server data).
Proof. unfold on_message. cbv zeta. repeat stored_step. Qed.

Lemma on_close_stored clientId : keeps (stored R) (on_close clientId).
Proof. unfold on_close. repeat stored_step. Qed.

Lemma on_error_stored server : keeps (stored R) (on_error server).
Proof. unfold on_error. repeat stored_step. Qed.

Lemma fetch_stored req :
  (is_init req = true -> resettable) -> keeps (stored R) (fetch req).
Proof.
  intros Hreset.
  destruct (JsString.endsWith "/ws" (pathname req)) eqn:Hws.
  - rewrite (fetch_ws req Hws).
    pose proof (upgrade_stored (ws_name req) (ws_role req) (joiner_ok req))
      as Hup.
    cbv zeta. repeat stored_step.
  - unfold fetch. fold (is_init req). rewrite Hws.
    destruct (is_init req).
    + intros w H. unfold stored in *.
      rewrite !exec_bind. simpl. apply (R_reset _ _ (Hreset eq_refl) H).
    + cbv zeta. repeat stored_step.
Qed.

Lemma handle_stored ev :
  (resets ev = true -> resettable) -> keeps (stored R) (handle ev).
Proof.
  intros Hreset. destruct ev as [req|server data|server code|server]; simpl.
  - apply keeps_bind; [apply fetch_stored, Hreset|intros _; apply keeps_ret].
  - apply keeps_bind; [apply keeps_gets|intros [clientId|]].
    + apply keeps_bind; [apply on_message_stored|].
      intros _. apply keeps_ret.
    + apply keeps_ret.
  - apply keeps_bind; [apply close_stored|intros _].
    apply keeps_bind; [apply keeps_gets|intros [clientId|]].
    + apply on_close_stored.
    + apply keeps_ret.
  - apply keeps_bind; [apply keeps_gets|intros [clientId|]].
    + apply on_error_stored.
    + apply keeps_ret.
Qed.

Lemma run_stored evs :
  (forall ev, ev ∈ evs -> resets ev = true -> resettable) ->
  keeps (stored R) (run evs).
Proof.
  induction evs as [|ev evs IH]; simpl; intros H.
  - apply keeps_ret.
  - apply keeps_bind.
    + apply handle_stored, H. left.
    + intros _. apply IH. intros ev' Hev'. apply H. right. exact Hev'.
Qed.

End StoredInvariant.

(** X14.  The audit log is append-only: whatever events an existing room
    handles, short of the internal create call, its creation instant
    stays and its timeline only grows at the end. *)
Theorem timeline_is_append_only (evs : list Event) (w : World) (r0 : Room) :
  stored_room w = Some r0 ->
  forallb (fun ev => negb (resets ev)) evs = true ->
  exists r,
    stored_room (exec (run evs) w) = Some r
    /\ startedAt r = startedAt r0
    /\ timeline r0 `prefix_of` timeline r.
Proof.
  intros Hw Hevs.
  apply (run_stored (continues r0) (fun _ _ => True) False).
  - intros t (r & Hr & _). discriminate.
  - intros o t [].
  - intros r p ev _ _ _ (r1 & Hr & Hs & Hp). injection Hr as <-.
    eexists. split; [reflexivity|]. split; [exact Hs|].
    apply prefix_app_r, Hp.
  - intros r id ev _ _ (r1 & Hr & Hs & Hp). injection Hr as <-.
    eexists. split; [reflexivity|]. split; [exact Hs|].
    apply prefix_app_r, Hp.
  - intros r f ev _ _ (r1 & Hr & Hs & Hp). injection Hr as <-.
    eexists. split; [reflexivity|]. split; [exact Hs|].
    apply prefix_app_r, Hp.
  - intros req. exact I.
  - intros ev Hev Hreset. rewrite forallb_forall in Hevs.
    apply list_elem_of_In, Hevs in Hev. rewrite Hreset in Hev. discriminate.
  - exists r0. split; [exact Hw|]. split; reflexivity.
Qed.

Lemma timeline_is_append_only_witness :
  let evs :=
    [ Fetch invite_request;
      Fetch (Scenario.connect_request Scenario.token "Cy" "Gast");
      SocketMessage 1 (Some Scenario.poll_message);
      SocketClose 3 1000 ] in
  let w := Scenario.with_bob in
  let r0 := eval _getRoom w in
  stored_room w = Some r0
  /\ forallb (fun ev => negb (resets ev)) evs = true
  /\ exists r,
       stored_room (exec (run evs) w) = Some r
       /\ timeline r0 `prefix_of` timeline r.
Proof.
  intros evs w r0.
  assert (Hw : stored_room w = Some r0) by (vm_compute; reflexivity).
  assert (Hevs : forallb (fun ev => negb (resets ev)) evs = true)
    by reflexivity.
  split; [exact Hw|]. split; [exact Hevs|].
  destruct (timeline_is_append_only evs w r0 Hw Hevs) as (r & Hr & _ & Hp).
  exists r. split; assumption.
Defined.

(** X15.  From a room that does not exist yet, after any events, the timeline
    readers see opens with the [room_started] event of the room, stamped
    with its [startedAt], and every later entry is a [join], a [leave]
    or a [set_focus]. *)
Theorem timeline_keeps_its_shape (evs : list Event) (w : World) :
  stored_room w = None ->
  timeline_shape (eval _getRoom (exec (run evs) w)).
Proof.
  intros Hw.
  assert (Hfresh : forall t, timeline_shape (fresh_room t)).
  { intros t. exists []. split; [reflexivity|constructor]. }
  assert (Hext : forall r f ps ev,
            mutation_event ev -> timeline_shape r ->
            timeline_shape {| startedAt := startedAt r; focus := f;
                              participants := ps;
                              timeline := (timeline r ++ [ev])%list |}).
  { intros r f ps ev Hev (rest & Ht & Hrest).
    exists (rest ++ [ev])%list. simpl. rewrite Ht. split; [reflexivity|].
    apply Forall_app. split; [exact Hrest|]. constructor; [exact Hev|].
    constructor. }
  assert (Hcreate : forall t, when_stored timeline_shape None ->
                      when_stored timeline_shape (Some (fresh_room t))).
  { intros t _ r Hr. injection Hr as <-. apply Hfresh. }
  assert (Hinv : stored (when_stored timeline_shape) (exec (run evs) w)).
  { apply (run_stored (when_stored timeline_shape) (fun _ _ => True) True).
    - exact Hcreate.
    - intros o t _ _ r Hr. injection Hr as <-. apply Hfresh.
    - intros r p ev _ Hk _ Hr r' Hr'. injection Hr' as <-.
      apply Hext; [left; exact Hk|apply Hr; reflexivity].
    - intros r id ev Hk _ Hr r' Hr'. injection Hr' as <-.
      apply Hext; [right; left; exact Hk|apply Hr; reflexivity].
    - intros r f ev Hk _ Hr r' Hr'. injection Hr' as <-.
      apply Hext; [right; right; exact Hk|apply Hr; reflexivity].
    - intros req. exact I.
    - intros ev _ _. exact I.
    - intros r Hr. unfold stored in *. congruence. }
  destruct (getRoom_stored_inv _ Hcreate _ Hinv) as [Hr _].
  exact (Hr _ eq_refl).
Qed.

Lemma timeline_keeps_its_shape_witness :
  let w := genesis Scenario.steady Scenario.ids Scenario.rnd in
  let evs :=
    [ Fetch invite_request;
      Fetch (Scenario.connect_request Scenario.token "Ada" "Host");
      Fetch init_request;
      SocketClose 1 1000 ] in
  stored_room w = None
  /\ timeline_shape (eval _getRoom (exec (run evs) w)).
Proof.
  intros w evs.
  assert (Hw : stored_room w = None) by reflexivity.
  split; [exact Hw|].
  exact (timeline_keeps_its_shape evs w Hw).
Defined.

Lemma identity_of_request (req : Request) :
  identity_ok (ws_name req) (ws_role req).
Proof.
  destruct (capped_default "name" (searchParams req) 40 ltac:(lia))
    as (N1 & N2 & _).
  destruct (capped_default "role" (searchParams req) 20 ltac:(lia))
    as (R1 & R2 & _).
  repeat split; assumption.
Qed.

Lemma participant_ok_later (tl : list TimelineEvent) (ev : TimelineEvent)
    (p : Participant) :
  participant_ok tl p -> participant_ok (tl ++ [ev])%list p.
Proof.
  intros (Hid & e & He & Hk & Hb). split; [exact Hid|].
  exists e. split; [apply elem_of_app; left; exact He|]. split; assumption.
Qed.

(** X16.  From a room that does not exist yet, after any events, every
    participant on the roster carries a non-empty name of at most 40 and
    a non-empty role of at most 20 code units, and has a [join] event by
    its id on the timeline. *)
Theorem roster_stays_well_formed (evs : list Event) (w : World) :
  stored_room w = None ->
  let room := eval _getRoom (exec (run evs) w) in
  Forall (participant_ok (timeline room)) (participants room).
Proof.
  intros Hw room. subst room.
  assert (Hfresh : forall t, roster_ok (fresh_room t)) by (intros t; constructor).
  assert (Hcreate : forall t, when_stored roster_ok None ->
                      when_stored roster_ok (Some (fresh_room t))).
  { intros t _ r Hr. injection Hr as <-. apply Hfresh. }
  assert (Hinv : stored (when_stored roster_ok) (exec (run evs) w)).
  { apply (run_stored (when_stored roster_ok) identity_ok True).
    - exact Hcreate.
    - intros o t _ _ r Hr. injection Hr as <-. apply Hfresh.
    - intros r p ev Hid Hk Hb Hr r' Hr'. injection Hr' as <-.
      unfold roster_ok. simpl. apply Forall_app. split.
      + eapply Forall_impl; [apply Hr; reflexivity|].
        intros q Hq. apply participant_ok_later, Hq.
      + constructor; [|constructor]. split; [exact Hid|].
        exists ev. split; [|split; assumption].
        apply elem_of_app. right. left.
    - intros r id ev _ _ Hr r' Hr'. injection Hr' as <-.
      unfold roster_ok. simpl.
      apply Forall_forall. intros q Hq.
      apply list_elem_of_filter in Hq as [_ Hq].
      apply participant_ok_later.
      pose proof (Hr r eq_refl) as Hall. unfold roster_ok in Hall.
      rewrite Forall_forall in Hall. apply Hall, Hq.
    - intros r f ev _ _ Hr r' Hr'. injection Hr' as <-.
      unfold roster_ok. simpl.
      eapply Forall_impl; [apply Hr; reflexivity|].
      intros q Hq. apply participant_ok_later, Hq.
    - apply identity_of_request.
    - intros ev _ _. exact I.
    - intros r Hr. unfold stored in *. congruence. }
  destruct (getRoom_stored_inv _ Hcreate _ Hinv) as [Hr _].
  exact (Hr _ eq_refl).
Qed.

Lemma roster_stays_well_formed_witness :
  let w := genesis Scenario.steady Scenario.ids Scenario.rnd in
  let evs :=
    [ Fetch invite_request;
      Fetch (Scenario.connect_request Scenario.token "   " "");
      SocketMessage 1 (Some Scenario.poll_message) ] in
  stored_room w = None
  /\ Forall (participant_ok (timeline (eval _getRoom (exec (run evs) w))))
            (participants (eval _getRoom (exec (run evs) w))).
Proof.
  intros w evs.
  assert (Hw : stored_room w = None) by reflexivity.
  split; [exact Hw|].
  exact (roster_stays_well_formed evs w Hw).
Defined.

(** ** Reading and re-creating the room *)

(** X17.  Reading creates the room at most once.  On an existing room
    [_publicState] and [_getFocus] return its fields and leave the world
    as it is; on a missing room the first read writes the fresh room,
    once, and a second read finds it and writes nothing. *)
Theorem readers_create_once (w : World) :
  (forall r, stored_room w = Some r ->
     _publicState w =
       ({| ps_startedAt := startedAt r; ps_participants := participants r;
           ps_focus := focus r |}, w)
     /\ _getFocus w = (focus r, w))
  /\ (stored_room w = None ->
      let t := clock w (clock_reads w) in
      eval _publicState w =
        {| ps_startedAt := t; ps_participants := [];
           ps_focus := fresh_focus t |}
      /\ eval _getFocus w = fresh_focus t
      /\ puts (exec _publicState w) = (puts w ++ [PutRoom (fresh_room t)])%list
      /\ puts (exec _getFocus w) = (puts w ++ [PutRoom (fresh_room t)])%list)
  /\ _publicState (exec _publicState w)
     = (eval _publicState w, exec _publicState w)
  /\ _getFocus (exec _publicState w)
     = (ps_focus (eval _publicState w), exec _publicState w).
Proof.
  split; [|split; [|split]].
  - intros r Hr. split; [apply publicState_stored|apply getFocus_stored];
      exact Hr.
  - intros Hn t. subst t. unfold eval, exec, _publicState, _getFocus, bind.
    rewrite (getRoom_absent w Hn). repeat split; reflexivity.
  - assert (E : exec _publicState w = exec _getRoom w
                /\ eval _publicState w =
                   {| ps_startedAt := startedAt (eval _getRoom w);
                      ps_participants := participants (eval _getRoom w);
                      ps_focus := focus (eval _getRoom w) |}).
    { unfold _publicState. rewrite exec_bind, eval_bind. split; reflexivity. }
    destruct E as [E1 E2]. rewrite E1, E2.
    apply publicState_stored, getRoom_persisted.
  - assert (E : exec _publicState w = exec _getRoom w
                /\ ps_focus (eval _publicState w) = focus (eval _getRoom w)).
    { unfold _publicState. rewrite exec_bind, eval_bind. split; reflexivity. }
    destruct E as [E1 E2]. rewrite E1, E2.
    apply getFocus_stored, getRoom_persisted.
Qed.

Lemma readers_create_once_witness :
  let w := genesis Scenario.steady Scenario.ids Scenario.rnd in
  stored_room w = None
  /\ puts (exec _publicState w) = (puts w ++ [PutRoom (fresh_room 1000)])%list.
Proof.
  intros w.
  assert (Hn : stored_room w = None) by reflexivity.
  split; [exact Hn|].
  exact (proj1 (proj2 (proj2 (proj1 (proj2 (readers_create_once w)) Hn)))).
Defined.

(** The branches of [fetch] are told apart by the request alone. *)
Lemma fetch_init_run (req : Request) (w : World) :
  is_init req = true ->
  let t := clock w (clock_reads w) in
  fetch req w =
  (text_response "ok" 200,
   set_puts (puts w ++ [PutRoom (fresh_room t); PutInvites ∅])%list
     (set_stored_invites (Some ∅)
        (set_stored_room (Some (fresh_room t))
           (set_clock_reads (S (clock_reads w)) w)))).
Proof.
  intros Hi t. unfold fetch. fold (is_init req). rewrite Hi.
  unfold bind, Env.now, Storage.put_room, Storage.put_invites, gets, modify,
    ret. simpl. rewrite <- app_assoc. reflexivity.
Qed.

(** X18.  The internal create call re-creates the room whatever was there:
    the roster, the focus, the timeline and every invite are gone, while
    the registered sessions, their sockets and listeners stay as they
    are. *)
Theorem init_wipes_the_room (req : Request) (w : World) :
  is_init req = true ->
  let t := clock w (clock_reads w) in
  let w' := exec (fetch req) w in
  eval (fetch req) w = text_response "ok" 200
  /\ stored_room w' = Some (fresh_room t)
  /\ roster w' = []
  /\ stored_invites w' = Some ∅
  /\ puts w' = (puts w ++ [PutRoom (fresh_room t); PutInvites ∅])%list
  /\ sessions w' = sessions w /\ sockets w' = sockets w
  /\ listening w' = listening w /\ sent w' = sent w
  /\ (forall next : Request,
        JsString.endsWith "/ws" (pathname next) = true ->
        ws_token next <> "" ->
        JsObject.inherited (ws_token next) = false ->
        eval (fetch next) w' = text_response "Invalid invite" 401).
Proof.
  intros Hi t w'.
  pose proof (fetch_init_run req w Hi) as E. fold t in E.
  assert (Ee : eval (fetch req) w = text_response "ok" 200)
    by (unfold eval; rewrite E; reflexivity).
  assert (Ew : w' = snd (fetch req w)) by reflexivity.
  rewrite E in Ew. cbn [snd] in Ew. clearbody w' t. subst w'.
  split; [exact Ee|].
  repeat split; try reflexivity.
  intros next Hws Hne Hin.
  rewrite (connect_outcome next _ Hws).
  cbn [stored_invites set_puts set_stored_invites default from_option id].
  rewrite (proj2 (truthy_nonempty _) Hne).
  unfold JsObject.get. rewrite lookup_empty, Hin. reflexivity.
Qed.

Lemma init_wipes_the_room_witness :
  let w := Scenario.with_bob in
  let next := Scenario.connect_request Scenario.token "Cy" "Gast" in
  is_init init_request = true
  /\ JsString.endsWith "/ws" (pathname next) = true
  /\ ws_token next <> ""
  /\ JsObject.inherited (ws_token next) = false
  /\ roster (exec (fetch init_request) w) = []
  /\ sessions (exec (fetch init_request) w) = sessions w
  /\ eval (fetch next) (exec (fetch init_request) w)
     = text_response "Invalid invite" 401.
Proof.
  intros w next.
  assert (Hi : is_init init_request = true) by reflexivity.
  assert (Hws : JsString.endsWith "/ws" (pathname next) = true)
    by reflexivity.
  assert (Hne : ws_token next <> "") by discriminate.
  assert (Hin : JsObject.inherited (ws_token next) = false)
    by (vm_compute; reflexivity).
  split; [exact Hi|]. split; [exact Hws|]. split; [exact Hne|].
  split; [exact Hin|].
  destruct (init_wipes_the_room init_request w Hi)
    as (_ & _ & Hr & _ & _ & Hs & _ & _ & _ & Hnext).
  split; [exact Hr|]. split; [exact Hs|].
  exact (Hnext next Hws Hne Hin).
Defined.

(** ** Witnesses and frames of the request branches *)

Lemma clampStr_shape_witness :
  let v := Some (JString "Ada") in
  clean_front (units "Ada") /\ clean_back (units "Ada")
  /\ (String.length "Ada" <= 40)%nat
  /\ clampStr v 40 = Some "Ada".
Proof.
  intros v.
  assert (Hf : clean_front (units "Ada")) by reflexivity.
  assert (Hb : clean_back (units "Ada")) by reflexivity.
  assert (Hl : (String.length "Ada" <= 40)%nat) by (simpl; lia).
  split; [exact Hf|]. split; [exact Hb|]. split; [exact Hl|].
  exact (proj1 (proj2 (proj2 (proj2 (clampStr_shape v 40))))
           "Ada" eq_refl Hf Hb Hl).
Defined.

Lemma expired_invite_is_forgotten_witness :
  let w := Scenario.invited in
  let req := Scenario.connect_request Scenario.token "Ada" "Host" in
  let e := {| createdAt := 1005; ttlMs := INVITE_TTL_MS |} in
  JsString.endsWith "/ws" (pathname req) = true
  /\ ws_token req <> ""
  /\ JsObject.inherited (ws_token req) = false
  /\ default ∅ (stored_invites w) !! ws_token req = Some e
  /\ clock w (clock_reads w) - createdAt e > ttlMs e
  /\ eval (fetch req) w = text_response "Invite expired" 401
  /\ eval (fetch req) (exec (fetch req) w)
     = text_response "Invalid invite" 401.
Proof.
  intros w req e.
  assert (Hws : JsString.endsWith "/ws" (pathname req) = true)
    by reflexivity.
  assert (Hne : ws_token req <> "") by discriminate.
  assert (Hin : JsObject.inherited (ws_token req) = false)
    by (vm_compute; reflexivity).
  assert (He : default ∅ (stored_invites w) !! ws_token req = Some e)
    by (vm_compute; reflexivity).
  assert (Hage : clock w (clock_reads w) - createdAt e > ttlMs e)
    by (vm_compute; reflexivity).
  split; [exact Hws|]. split; [exact Hne|]. split; [exact Hin|].
  split; [exact He|]. split; [exact Hage|].
  destruct (expired_invite_is_forgotten req w e Hws Hne Hin He Hage)
    as (H1 & _ & _ & H2 & _).
  split; [exact H1|exact H2].
Defined.

Lemma validation_of_own_keys_witness :
  let w := Scenario.opened in
  let req := Scenario.connect_request Scenario.token "Ada" "Host" in
  JsString.endsWith "/ws" (pathname req) = true
  /\ JsObject.inherited (ws_token req) = false
  /\ (eval (fetch req) w = upgraded w <->
      ws_token req ≠ "" /\
      exists e, default ∅ (stored_invites w) !! ws_token req = Some e
                /\ clock w (clock_reads w) - createdAt e <= ttlMs e).
Proof.
  intros w req.
  assert (Hws : JsString.endsWith "/ws" (pathname req) = true)
    by reflexivity.
  assert (Hin : JsObject.inherited (ws_token req) = false)
    by (vm_compute; reflexivity).
  split; [exact Hws|]. split; [exact Hin|].
  exact (proj1 (validation_of_own_keys req w Hws Hin)).
Defined.

Lemma getRandomValues_run (n : nat) (w : World) :
  Env.getRandomValues n w =
  if (65536 <? N.of_nat n)%N then (None, w)
  else (Some (map (fun i => entropy w (entropy_reads w + i)%nat) (seq 0 n)),
        set_entropy_reads (entropy_reads w + n)%nat w).
Proof.
  unfold Env.getRandomValues. destruct (65536 <? N.of_nat n)%N; reflexivity.
Qed.

Lemma makeToken_of_bytes (n : nat) (w : World) :
  makeToken n w =
  (option_map token_of_bytes (eval (Env.getRandomValues n) w),
   exec (Env.getRandomValues n) w).
Proof.
  unfold makeToken, bind, ret, eval, exec.
  destruct (Env.getRandomValues n w). reflexivity.
Qed.

(** X3.  [makeToken(n)] within the quota of [crypto.getRandomValues],
    65536 bytes: it uses up exactly [n] readings of the random source
    and changes nothing else; the token has [ceil(4 n / 3)] characters,
    all URL-safe; and a token determines the number of bytes and the
    bytes it was made of.  Above the quota it throws, and no byte is
    drawn. *)
Theorem makeToken_any_length (n : nat) (w : World) :
  ((N.of_nat n <= 65536)%N ->
   exists (bytes : list byte) (token : string),
     eval (Env.getRandomValues n) w = Some bytes
     /\ makeToken n w
        = (Some token, set_entropy_reads (entropy_reads w + n)%nat w)
     /\ token = token_of_bytes bytes
     /\ length bytes = n
     /\ String.length token = ((4 * n + 2) / 3)%nat
     /\ forallb url_safe (list_ascii_of_string token) = true
     /\ (forall (n' : nat) (w' : World),
           eval (makeToken n') w' = Some token ->
           n' = n /\ eval (Env.getRandomValues n') w' = Some bytes))
  /\ ((65536 < N.of_nat n)%N -> makeToken n w = (None, w)).
Proof.
  assert (Hlen : forall m u bs,
            eval (Env.getRandomValues m) u = Some bs -> length bs = m).
  { intros m u bs. unfold eval. rewrite getRandomValues_run.
    destruct (65536 <? N.of_nat m)%N; [discriminate|].
    intros [= <-]. rewrite length_map, length_seq. reflexivity. }
  split.
  - intros Hq.
    assert (Hrun : Env.getRandomValues n w =
              (Some (map (fun i => entropy w (entropy_reads w + i)%nat)
                         (seq 0 n)),
               set_entropy_reads (entropy_reads w + n)%nat w)).
    { rewrite getRandomValues_run.
      destruct (N.ltb_spec 65536 (N.of_nat n)) as [H|_]; [lia|reflexivity]. }
    set (bytes := map (fun i => entropy w (entropy_reads w + i)%nat)
                      (seq 0 n)) in *.
    assert (Hb : length bytes = n)
      by (unfold bytes; rewrite length_map, length_seq; reflexivity).
    clearbody bytes.
    assert (He : eval (Env.getRandomValues n) w = Some bytes)
      by (unfold eval; rewrite Hrun; reflexivity).
    exists bytes, (token_of_bytes bytes).
    split; [exact He|].
    split; [rewrite makeToken_of_bytes, He; unfold exec; rewrite Hrun;
            reflexivity|].
    split; [reflexivity|]. split; [exact Hb|].
    split; [rewrite token_length_any, Hb; reflexivity|].
    split; [apply token_safe_any|].
    intros n' w' E.
    assert (E' : option_map token_of_bytes (eval (Env.getRandomValues n') w')
                 = Some (token_of_bytes bytes))
      by (rewrite <- E; unfold eval at 2; rewrite makeToken_of_bytes;
          reflexivity).
    destruct (eval (Env.getRandomValues n') w') as [bs|] eqn:Ebs;
      [|discriminate].
    injection E' as E'. apply token_injective_any in E'. subst bs.
    split; [|reflexivity].
    rewrite <- (Hlen n' w' bytes Ebs). exact Hb.
  - intros Hq. rewrite makeToken_of_bytes. unfold eval, exec.
    rewrite getRandomValues_run.
    destruct (N.ltb_spec 65536 (N.of_nat n)) as [_|H]; [reflexivity|lia].
Qed.

Lemma makeToken_any_length_witness :
  let w := genesis Scenario.steady Scenario.ids Scenario.rnd in
  (N.of_nat 18 <= 65536)%N
  /\ (65536 < N.of_nat (N.to_nat 65537))%N
  /\ makeToken 18 w
     = (Some Scenario.token, set_entropy_reads 18 w)
  /\ makeToken (N.to_nat 65537) w = (None, w).
Proof.
  intros w.
  assert (H1 : (N.of_nat 18 <= 65536)%N) by (vm_compute; discriminate).
  assert (H2 : (65536 < N.of_nat (N.to_nat 65537))%N)
    by (vm_compute; reflexivity).
  split; [exact H1|]. split; [exact H2|].
  split; [|exact (proj2 (makeToken_any_length (N.to_nat 65537) w) H2)].
  destruct (proj1 (makeToken_any_length 18 w) H1)
    as (bytes & token & He & Hrun & Ht & _).
  rewrite Hrun. f_equal. f_equal. rewrite Ht.
  assert (Hb : Some bytes
               = Some (map (fun i => Scenario.rnd (0 + i)%nat) (seq 0 18)))
    by (rewrite <- He; reflexivity).
  injection Hb as ->. vm_compute. reflexivity.
Defined.

(** The internal invite call is recognised by method, host and path
    alone; nothing else of the request is read. *)
Lemma invite_any (req : Request) :
  is_invite req = true -> fetch req = fetch invite_request.
Proof.
  unfold is_invite. intros H.
  apply andb_prop in H as [H Hp]. apply andb_prop in H as [Hm Hh].
  apply String.eqb_eq in Hp.
  unfold fetch. rewrite Hm, Hh, Hp. reflexivity.
Qed.

(** X7.  Issuing an invite adds one entry and removes none: the new
    token maps to the clock reading and the TTL of fifteen minutes,
    every other key of the invite set, expired or not, stays as it was,
    and the room and its connections are not touched. *)
Theorem invite_adds_one_key (req : Request) (w : World) :
  is_invite req = true ->
  let before := default ∅ (stored_invites w) in
  let w' := exec (fetch req) w in
  let after := default ∅ (stored_invites w') in
  exists token : string,
    eval (makeToken 18) w = Some token
    /\ JsObject.get after token
       = JsObject.Own {| createdAt := clock w (clock_reads w);
                         ttlMs := 15 * 60 * 1000 |}
    /\ (forall k, k <> token -> after !! k = before !! k)
    /\ (forall k, is_Some (before !! k) -> is_Some (after !! k))
    /\ no_upgrade w w'.
Proof.
  intros Hi before w' after.
  assert (Ew : w' = exec (fetch invite_request) w)
    by (unfold w'; rewrite (invite_any req Hi); reflexivity).
  destruct (makeToken_bytes w) as (a & _ & Htoken).
  set (token := token_of_bytes a) in *.
  destruct (invite_issues w token Htoken) as (_ & Hs & _ & _).
  destruct (invite_frame w) as (_ & _ & _ & F1 & F2 & F3 & F4 & F5).
  assert (Ea : after = <[token := {| createdAt := clock w (clock_reads w);
                                     ttlMs := INVITE_TTL_MS |}]> before).
  { unfold after. rewrite Ew, Hs. reflexivity. }
  clearbody token before w' after. subst after w'.
  exists token. split; [exact Htoken|].
  split; [|split; [|split]].
  - unfold JsObject.get. rewrite lookup_insert_eq. reflexivity.
  - intros k Hk. apply lookup_insert_ne. congruence.
  - intros k Hk. destruct (decide (k = token)) as [->|Hne].
    + rewrite lookup_insert_eq. eexists. reflexivity.
    + rewrite lookup_insert_ne by congruence. exact Hk.
  - unfold no_upgrade. repeat split; assumption.
Qed.

Lemma invite_adds_one_key_witness :
  let w := Scenario.opened in
  is_invite invite_request = true
  /\ exists token,
       eval (makeToken 18) w = Some token
       /\ (forall k, k <> token ->
             default ∅ (stored_invites (exec (fetch invite_request) w)) !! k
             = default ∅ (stored_invites w) !! k)
       /\ no_upgrade w (exec (fetch invite_request) w).
Proof.
  intros w.
  assert (Hi : is_invite invite_request = true) by reflexivity.
  split; [exact Hi|].
  destruct (invite_adds_one_key invite_request w Hi)
    as (token & Ht & _ & H1 & _ & H2).
  exists token. split; [exact Ht|]. split; [exact H1|exact H2].
Defined.

(** X19.  Only the internal create call and an accepted connection touch
    the room: for any other request, whatever it is answered, the stored
    room, the sessions, the sockets, the listeners and the frames sent
    are what they were. *)
Theorem only_init_and_upgrade_touch_the_room (req : Request) (w : World) :
  is_init req = false ->
  eval (fetch req) w <> upgraded w ->
  no_upgrade w (exec (fetch req) w).
Proof.
  intros Hi Hup.
  assert (Hsame : no_upgrade w w) by (unfold no_upgrade; repeat split).
  destruct (is_invite req) eqn:Hv.
  - rewrite (invite_any req Hv).
    destruct (invite_frame w) as (_ & _ & _ & F1 & F2 & F3 & F4 & F5).
    unfold no_upgrade. repeat split; assumption.
  - destruct (JsString.endsWith "/ws" (pathname req)) eqn:Hws.
    + pose proof (connect_outcome req w Hws) as Ho.
      pose proof (connect_world req w Hws) as Hw.
      cbv zeta in Ho, Hw.
      destruct (negb (JsString.truthy (ws_token req)));
        [rewrite Hw; exact Hsame|].
      destruct (JsObject.get (default ∅ (stored_invites w)) (ws_token req))
        as [e| |].
      * destruct (clock w (clock_reads w) - createdAt e >? ttlMs e).
        -- apply Hw.
        -- contradiction.
      * contradiction.
      * rewrite Hw. exact Hsame.
    + unfold fetch. fold (is_init req) (is_invite req).
      rewrite Hi, Hv, Hws. exact Hsame.
Qed.

Lemma only_init_and_upgrade_touch_the_room_witness :
  let w := Scenario.invited in
  let req := Scenario.connect_request Scenario.token "Ada" "Host" in
  is_init req = false
  /\ eval (fetch req) w <> upgraded w
  /\ no_upgrade w (exec (fetch req) w).
Proof.
  intros w req.
  assert (Hi : is_init req = false) by reflexivity.
  assert (Hup : eval (fetch req) w <> upgraded w)
    by (vm_compute; discriminate).
  split; [exact Hi|]. split; [exact Hup|].
  exact (only_init_and_upgrade_touch_the_room req w Hi Hup).
Defined.

(** ** The Worker: routes, replies and the rooms they reach *)

Lemma append_cons (c : ascii) (a b : string) :
  String c a ++ b = String c (a ++ b).
Proof. reflexivity. Qed.

Lemma append_nil (b : string) : "" ++ b = b.
Proof. reflexivity. Qed.

Lemma strip_prefix_spec (p s r : string) :
  strip_prefix p s = Some r <-> s = p ++ r.
Proof.
  revert s. induction p as [|a p IH]; intros s;
    rewrite ?append_cons, ?append_nil; simpl.
  - split; [intros [= ->]|intros ->]; reflexivity.
  - destruct s as [|b s].
    + split; discriminate.
    + destruct (Ascii.eqb_spec a b) as [->|Hne].
      * rewrite IH. split; [intros ->; reflexivity|intros [= ->]; reflexivity].
      * split; [discriminate|intros [= E _]; congruence].
Qed.

Lemma segment_splits (s : string) :
  s = fst (segment s) ++ snd (segment s)
  /\ slashless (fst (segment s))
  /\ (snd (segment s) = "" \/ exists t, snd (segment s) = String "/" t).
Proof.
  induction s as [|c s (IH1 & IH2 & IH3)]; simpl.
  - split; [reflexivity|]. split; [constructor|]. left. reflexivity.
  - destruct (Ascii.eqb_spec c "/") as [->|Hne]; simpl.
    + split; [reflexivity|]. split; [constructor|]. right. eexists.
      reflexivity.
    + split; [exact (f_equal (String c) IH1)|]. split; [|exact IH3].
      constructor; assumption.
Qed.

Lemma segment_of_app (a t : string) :
  slashless a -> segment (a ++ String "/" t) = (a, String "/" t).
Proof.
  induction a as [|c a IH]; intros Ha;
    rewrite ?append_cons, ?append_nil; simpl.
  - reflexivity.
  - inversion Ha as [|? ? Hc Ha']; subst.
    destruct (Ascii.eqb_spec c "/") as [E|_]; [contradiction|].
    rewrite (IH Ha'). reflexivity.
Qed.

(** The two patterns match exactly the paths [/room/<segment><suffix>]
    with a non-empty segment free of slashes, and capture the segment. *)
Lemma room_path_spec (suffix path seg : string) :
  (exists t, suffix = String "/" t) ->
  room_path suffix path = Some seg
  <-> path = "/room/" ++ seg ++ suffix /\ seg <> "" /\ slashless seg.
Proof.
  intros (t & ->). unfold room_path. split.
  - destruct (strip_prefix "/room/" path) as [rest|] eqn:Ep; [|discriminate].
    apply strip_prefix_spec in Ep.
    destruct (segment_splits rest) as (H1 & H2 & _).
    destruct (String.eqb_spec (fst (segment rest)) "") as [|Hne];
      [discriminate|].
    destruct (String.eqb_spec (snd (segment rest)) (String "/" t)) as [E|];
      [|discriminate].
    intros [= <-]. rewrite E in H1.
    split; [rewrite <- H1; exact Ep|split; assumption].
  - intros (-> & Hne & Hs).
    assert (Ep : strip_prefix "/room/" ("/room/" ++ seg ++ String "/" t)
                 = Some (seg ++ String "/" t))
      by (apply strip_prefix_spec; reflexivity).
    rewrite Ep, (segment_of_app seg t Hs). cbn [fst snd].
    rewrite String.eqb_refl.
    destruct (String.eqb_spec seg "") as [|_]; [contradiction|]. reflexivity.
Qed.

Lemma substring_whole (b : string) :
  String.substring 0 (String.length b) b = b.
Proof. induction b as [|c b IH]; simpl; [reflexivity|]. rewrite IH. reflexivity. Qed.

Lemma substring_tail (a b : string) :
  String.substring (String.length a) (String.length b) (a ++ b) = b.
Proof.
  induction a as [|c a IH]; rewrite ?append_cons, ?append_nil; simpl;
    [apply substring_whole|exact IH].
Qed.

Lemma length_append (a b : string) :
  String.length (a ++ b) = (String.length a + String.length b)%nat.
Proof.
  induction a as [|c a IH]; rewrite ?append_cons, ?append_nil; simpl;
    [reflexivity|]. rewrite IH. reflexivity.
Qed.

Lemma endsWith_append (a b : string) : JsString.endsWith b (a ++ b) = true.
Proof.
  unfold JsString.endsWith. rewrite length_append.
  replace (String.length a + String.length b - String.length b)%nat
    with (String.length a) by lia.
  rewrite substring_tail, String.eqb_refl.
  destruct (Nat.leb_spec (String.length b)
              (String.length a + String.length b)) as [_|H]; [reflexivity|lia].
Qed.

Lemma append_assoc (a b c : string) : (a ++ b) ++ c = a ++ (b ++ c).
Proof.
  induction a as [|x a IH]; rewrite ?append_cons, ?append_nil;
    [reflexivity|]. rewrite IH. reflexivity.
Qed.

Lemma room_path_ends (suffix path seg : string) :
  (exists t, suffix = String "/" t) ->
  room_path suffix path = Some seg ->
  JsString.endsWith suffix path = true.
Proof.
  intros Hs H. apply (room_path_spec _ _ _ Hs) in H as (-> & _ & _).
  rewrite <- append_assoc. apply endsWith_append.
Qed.

Lemma stub_reply (roomId : string) (r : Request) (c : Worker.Cloud) :
  fst (Worker.stub_fetch roomId r c) = eval (fetch r) (Worker.rooms c roomId).
Proof. reflexivity. Qed.

Lemma stub_rooms (roomId : string) (r : Request) (c : Worker.Cloud) (k : string) :
  Worker.rooms (snd (Worker.stub_fetch roomId r c)) k
  = if String.eqb k roomId then exec (fetch r) (Worker.rooms c roomId)
    else Worker.rooms c k.
Proof. reflexivity. Qed.

Lemma stub_uuids (roomId : string) (r : Request) (c : Worker.Cloud) :
  Worker.edge_uuids (snd (Worker.stub_fetch roomId r c)) = Worker.edge_uuids c
  /\ Worker.edge_uuid_reads (snd (Worker.stub_fetch roomId r c))
     = Worker.edge_uuid_reads c.
Proof. split; reflexivity. Qed.

(** The handler in terms of where the request is sent. *)
Lemma worker_rooms (decode : string -> option string) (req : Request)
    (c : Worker.Cloud) (k : string) :
  Worker.rooms (snd (Worker.fetch decode req c)) k
  = match relayed_to decode req c with
    | Some (roomId, r) =>
        if String.eqb k roomId then exec (fetch r) (Worker.rooms c roomId)
        else Worker.rooms c k
    | None => Worker.rooms c k
    end.
Proof.
  unfold Worker.fetch, relayed_to, Worker.is_create.
  destruct (String.eqb (method req) "OPTIONS"); [reflexivity|].
  destruct (String.eqb (method req) "POST" && String.eqb (pathname req) "/room")
    eqn:Ec.
  - cbv zeta. rewrite stub_reply.
    destruct (eval (fetch init_request) _); cbn [snd]; rewrite stub_rooms;
      reflexivity.
  - destruct (String.eqb_spec (method req) "POST") as [Em|Hm].
    + destruct (room_path "/invite" (pathname req)) as [m1|].
      * destruct (decode m1) as [roomId|]; [|reflexivity].
        cbv zeta. cbn [snd option_map]. apply stub_rooms.
      * rewrite Em. reflexivity.
    + destruct (String.eqb (method req) "GET"); [|reflexivity].
      destruct (room_path "/ws" (pathname req)) as [m1|]; [|reflexivity].
      destruct (decode m1) as [roomId|]; [|reflexivity].
      cbv zeta. cbn [snd option_map]. apply stub_rooms.
Qed.

(** A request that is sent to a room is no internal create call, unless
    it is [POST /room]; what [GET /room/<id>/ws] sends is handled by
    the WebSocket branch. *)
Lemma relayed_request (decode : string -> option string) (req : Request)
    (c : Worker.Cloud) (roomId : string) (r : Request) :
  relayed_to decode req c = Some (roomId, r) ->
  (Worker.is_create req = true
   /\ roomId = Worker.edge_uuids c (Worker.edge_uuid_reads c)
   /\ r = init_request)
  \/ (Worker.is_create req = false /\ is_init r = false
      /\ (r = invite_request
          \/ (r = req /\ is_invite r = false
              /\ JsString.endsWith "/ws" (pathname r) = true))).
Proof.
  unfold relayed_to.
  destruct (String.eqb (method req) "OPTIONS"); [discriminate|].
  destruct (Worker.is_create req).
  { intros [= <- <-]. left. repeat split. }
  destruct (String.eqb_spec (method req) "POST") as [Em|Hm].
  - destruct (room_path "/invite" (pathname req)) as [m1|]; [|discriminate].
    destruct (decode m1); [|discriminate].
    intros [= <- <-]. right. repeat split. left. reflexivity.
  - destruct (String.eqb (method req) "GET"); [|discriminate].
    destruct (room_path "/ws" (pathname req)) as [m1|] eqn:Ep; [|discriminate].
    destruct (decode m1); [|discriminate].
    intros [= <- <-]. right. split; [reflexivity|].
    assert (Hpost : String.eqb (method req) "POST" = false)
      by (apply String.eqb_neq; exact Hm).
    unfold is_init, is_invite. rewrite Hpost. split; [reflexivity|].
    right. repeat split.
    apply (room_path_ends "/ws" _ m1); [eexists; reflexivity|exact Ep].
Qed.

Lemma fetch_continues (req : Request) (w : World) (r0 : Room) :
  is_init req = false ->
  continues r0 (stored_room w) ->
  continues r0 (stored_room (exec (fetch req) w)).
Proof.
  intros Hi Hw.
  apply (fetch_stored (continues r0) (fun _ _ => True) False).
  - intros t (r & Hr & _). discriminate.
  - intros o t [].
  - intros r p ev _ _ _ (r1 & Hr & Hs & Hp). injection Hr as <-.
    eexists. split; [reflexivity|]. split; [exact Hs|].
    apply prefix_app_r, Hp.
  - intros r. exact I.
  - rewrite Hi. discriminate.
  - exact Hw.
Qed.

(** X20.  A request reaches at most one room: of any two rooms, one is
    after the request exactly what it was before. *)
Theorem one_room_per_request (decode : string -> option string)
    (req : Request) (c : Worker.Cloud) (k1 k2 : string) :
  k1 <> k2 ->
  Worker.rooms (snd (Worker.fetch decode req c)) k1 = Worker.rooms c k1
  \/ Worker.rooms (snd (Worker.fetch decode req c)) k2 = Worker.rooms c k2.
Proof.
  intros Hk. rewrite !worker_rooms.
  destruct (relayed_to decode req c) as [[roomId r]|]; [|left; reflexivity].
  destruct (String.eqb_spec k1 roomId) as [E1|_]; [|left; reflexivity].
  destruct (String.eqb_spec k2 roomId) as [E2|_]; [|right; reflexivity].
  congruence.
Qed.

Lemma one_room_per_request_witness :
  let c := {| Worker.rooms := fun _ => Scenario.opened;
              Worker.edge_uuids := Scenario.ids;
              Worker.edge_uuid_reads := 0 |} in
  let req := {| method := "POST"; hostname := "rooms.example";
                pathname := "/room/R/invite"; searchParams := [] |} in
  "R" <> "Q"
  /\ (Worker.rooms (snd (Worker.fetch Some req c)) "R" = Worker.rooms c "R"
      \/ Worker.rooms (snd (Worker.fetch Some req c)) "Q"
         = Worker.rooms c "Q").
Proof.
  intros c req.
  assert (Hk : "R" <> "Q") by discriminate.
  split; [exact Hk|].
  exact (one_room_per_request Some req c "R" "Q" Hk).
Defined.

(** X21.  No request from outside re-creates an existing room, short of
    [POST /room] drawing the name of that room as its UUID: the room
    keeps its creation instant, and its timeline only grows at the
    end. *)
Theorem outside_requests_cannot_reset_a_room
    (decode : string -> option string) (req : Request) (c : Worker.Cloud)
    (k : string) (r0 : Room) :
  stored_room (Worker.rooms c k) = Some r0 ->
  (Worker.is_create req = true ->
   Worker.edge_uuids c (Worker.edge_uuid_reads c) <> k) ->
  exists r,
    stored_room (Worker.rooms (snd (Worker.fetch decode req c)) k) = Some r
    /\ startedAt r = startedAt r0
    /\ timeline r0 `prefix_of` timeline r.
Proof.
  intros Hk Hfresh.
  assert (H0 : continues r0 (stored_room (Worker.rooms c k))).
  { exists r0. split; [exact Hk|]. split; reflexivity. }
  change (continues r0
            (stored_room (Worker.rooms (snd (Worker.fetch decode req c)) k))).
  rewrite worker_rooms.
  destruct (relayed_to decode req c) as [[roomId r]|] eqn:Er; [|exact H0].
  destruct (String.eqb_spec k roomId) as [->|_]; [|exact H0].
  destruct (relayed_request decode req c roomId r Er)
    as [(Hc & Hid & _)|(_ & Hi & _)].
  - symmetry in Hid. contradiction (Hfresh Hc Hid).
  - apply fetch_continues; assumption.
Qed.

Lemma outside_requests_cannot_reset_a_room_witness :
  let c := {| Worker.rooms := fun _ => Scenario.with_bob;
              Worker.edge_uuids := Scenario.ids;
              Worker.edge_uuid_reads := 0 |} in
  let req := {| method := "GET"; hostname := "do";
                pathname := "/room/R/ws";
                searchParams := [("token", Scenario.token)] |} in
  let r0 := eval _getRoom Scenario.with_bob in
  stored_room (Worker.rooms c "R") = Some r0
  /\ (Worker.is_create req = true ->
      Worker.edge_uuids c (Worker.edge_uuid_reads c) <> "R")
  /\ exists r,
       stored_room (Worker.rooms (snd (Worker.fetch Some req c)) "R") = Some r
       /\ timeline r0 `prefix_of` timeline r.
Proof.
  intros c req r0.
  assert (Hk : stored_room (Worker.rooms c "R") = Some r0)
    by (vm_compute; reflexivity).
  assert (Hf : Worker.is_create req = true ->
               Worker.edge_uuids c (Worker.edge_uuid_reads c) <> "R")
    by discriminate.
  split; [exact Hk|]. split; [exact Hf|].
  destruct (outside_requests_cannot_reset_a_room Some req c "R" r0 Hk Hf)
    as (r & Hr & _ & Hp).
  exists r. split; assumption.
Defined.

(** X22.  [POST /room]: the reply is [{ roomId }] with the UUID just
    drawn, status 200, the CORS headers and the JSON content type; the
    room of that name is created anew, with an empty invite set,
    whatever it held; one UUID is used up and every other room is left
    alone. *)
Theorem create_room (decode : string -> option string) (req : Request)
    (c : Worker.Cloud) :
  Worker.is_create req = true ->
  let roomId := Worker.edge_uuids c (Worker.edge_uuid_reads c) in
  let w := Worker.rooms c roomId in
  let t := clock w (clock_reads w) in
  let c' := snd (Worker.fetch decode req c) in
  fst (Worker.fetch decode req c)
  = Worker.Answered
      {| Worker.b_status := 200;
         Worker.b_headers :=
           (Worker.CORS
            ++ [("Content-Type", "application/json; charset=utf-8")])%list;
         Worker.b_body := Worker.Stringified (Worker.RoomId roomId) |}
  /\ stored_room (Worker.rooms c' roomId) = Some (fresh_room t)
  /\ stored_invites (Worker.rooms c' roomId) = Some ∅
  /\ sessions (Worker.rooms c' roomId) = sessions w
  /\ Worker.edge_uuid_reads c' = S (Worker.edge_uuid_reads c)
  /\ Worker.edge_uuids c' = Worker.edge_uuids c
  /\ (forall k, k <> roomId -> Worker.rooms c' k = Worker.rooms c k).
Proof.
  intros Hc roomId w t c'.
  assert (Hm : String.eqb (method req) "OPTIONS" = false).
  { unfold Worker.is_create in Hc. apply andb_prop in Hc as [Hm _].
    apply String.eqb_eq in Hm. rewrite Hm. reflexivity. }
  assert (Hinit : is_init init_request = true) by reflexivity.
  pose proof (fetch_init_run init_request w Hinit) as Hrun. fold t in Hrun.
  assert (Hrel : relayed_to decode req c = Some (roomId, init_request)).
  { unfold relayed_to. rewrite Hm, Hc. reflexivity. }
  assert (Hrooms : forall k,
             Worker.rooms c' k
             = if String.eqb k roomId then exec (fetch init_request) w
               else Worker.rooms c k).
  { intros k. unfold c'. rewrite worker_rooms, Hrel. reflexivity. }
  assert (Hfst : fst (Worker.fetch decode req c)
                 = Worker.Answered (Worker.json (Worker.RoomId roomId) 200)
                 /\ Worker.edge_uuid_reads c' = S (Worker.edge_uuid_reads c)
                 /\ Worker.edge_uuids c' = Worker.edge_uuids c).
  { unfold c', Worker.fetch. unfold Worker.is_create in Hc.
    rewrite Hm, Hc. cbv zeta. rewrite stub_reply.
    change (Worker.rooms _ (Worker.edge_uuids c (Worker.edge_uuid_reads c)))
      with w.
    assert (Ev : eval (fetch init_request) w = text_response "ok" 200)
      by (unfold eval; rewrite Hrun; reflexivity).
    rewrite Ev. unfold text_response. cbn [fst snd].
    split; [reflexivity|]. split; reflexivity. }
  destruct Hfst as (Hreply & Hreads & Hids).
  assert (Hw : exec (fetch init_request) w
               = set_puts (puts w ++ [PutRoom (fresh_room t); PutInvites ∅])%list
                   (set_stored_invites (Some ∅)
                      (set_stored_room (Some (fresh_room t))
                         (set_clock_reads (S (clock_reads w)) w))))
    by (unfold exec; rewrite Hrun; reflexivity).
  clearbody c' t w.
  split; [exact Hreply|].
  rewrite (Hrooms roomId), String.eqb_refl, Hw.
  repeat split; try assumption.
  intros k Hk. rewrite Hrooms.
  destruct (String.eqb_spec k roomId); [contradiction|reflexivity].
Qed.

Lemma create_room_witness :
  let c := {| Worker.rooms := fun _ => Scenario.with_bob;
              Worker.edge_uuids := Scenario.ids;
              Worker.edge_uuid_reads := 0 |} in
  let req := {| method := "POST"; hostname := "rooms.example";
                pathname := "/room"; searchParams := [] |} in
  Worker.is_create req = true
  /\ stored_invites
       (Worker.rooms (snd (Worker.fetch Some req c)) (Scenario.ids 0))
     = Some ∅.
Proof.
  intros c req.
  assert (Hc : Worker.is_create req = true) by reflexivity.
  split; [exact Hc|].
  exact (proj1 (proj2 (proj2 (create_room Some req c Hc)))).
Defined.

Lemma cors_kept (extra : Worker.Headers) (h v : string) :
  (forall k x, In (k, x) extra -> k = "Content-Type") ->
  In (h, v) Worker.CORS ->
  Worker.get h (Worker.spread Worker.CORS extra) = Some v.
Proof.
  intros Hextra Hin. unfold Worker.spread.
  assert (Hgen : forall o : Worker.Headers,
             Worker.get h o = Some v ->
             Worker.get h
               (fold_left
                  (fun o kv => Worker.assign (fst kv) (snd kv) o) extra o)
             = Some v).
  { induction extra as [|[k x] extra IH]; intros o Ho; [exact Ho|].
    cbn [fold_left fst snd]. apply IH.
    - intros k' x' Hk. apply (Hextra k' x'). right. exact Hk.
    - assert (Hk : k = "Content-Type") by (apply (Hextra k x); left; reflexivity).
      assert (Hh : String.eqb h k = false).
      { subst k.
        destruct Hin as [[= <- <-]|[[= <- <-]|[[= <- <-]|[]]]]; reflexivity. }
      clear -Ho Hh. induction o as [|[k' v'] o IHo]; [discriminate|].
      cbn [Worker.assign].
      destruct (String.eqb_spec k k') as [<-|Hne].
      + cbn [Worker.get] in *. rewrite Hh in *. exact Ho.
      + cbn [Worker.get] in *.
        destruct (String.eqb h k'); [exact Ho|apply IHo, Ho]. }
  apply Hgen.
  destruct Hin as [[= <- <-]|[[= <- <-]|[[= <- <-]|[]]]]; reflexivity.
Qed.

Lemma connect_status (req : Request) (w : World) :
  JsString.endsWith "/ws" (pathname req) = true ->
  exists r, eval (fetch req) w = Returned r
            /\ (status r = 401 \/ status r = 101).
Proof.
  intros Hws. pose proof (connect_outcome req w Hws) as Ho.
  cbv zeta in Ho. rewrite Ho. unfold text_response, upgraded.
  destruct (negb (JsString.truthy (ws_token req)));
    [eexists; split; [reflexivity|left; reflexivity]|].
  destruct (JsObject.get (default ∅ (stored_invites w)) (ws_token req))
    as [e| |].
  - destruct (clock w (clock_reads w) - createdAt e >? ttlMs e);
      eexists; (split; [reflexivity|]); [left|right]; reflexivity.
  - eexists; split; [reflexivity|right; reflexivity].
  - eexists; split; [reflexivity|left; reflexivity].
Qed.

(** X23.  What the worker replies.  A response of its own carries the
    three CORS headers and is the 204 of an [OPTIONS] request, the 200
    of [POST /room] or the 404 of a request that is sent nowhere.  A
    relayed reply is what the room it was sent to returned, with status
    200, 401 or 101: the rooms' own [Not found] is never reached, and
    no room throws.  The handler throws only when
    [decodeURIComponent] does. *)
Theorem router_replies (decode : string -> option string) (req : Request)
    (c : Worker.Cloud) :
  match fst (Worker.fetch decode req c) with
  | Worker.Answered r =>
      (forall h v, In (h, v) Worker.CORS ->
                   Worker.get h (Worker.b_headers r) = Some v)
      /\ ((method req = "OPTIONS" /\ Worker.b_status r = 204
           /\ Worker.b_body r = Worker.Raw "")
          \/ (Worker.is_create req = true /\ Worker.b_status r = 200
              /\ Worker.b_body r
                 = Worker.Stringified
                     (Worker.RoomId
                        (Worker.edge_uuids c (Worker.edge_uuid_reads c))))
          \/ (relayed_to decode req c = None /\ Worker.b_status r = 404
              /\ Worker.b_body r
                 = Worker.Stringified (Worker.Error "Not found")))
  | Worker.Relayed o =>
      exists roomId r resp,
        relayed_to decode req c = Some (roomId, r)
        /\ o = eval (fetch r) (Worker.rooms c roomId)
        /\ o = Returned resp
        /\ (status resp = 200 \/ status resp = 401 \/ status resp = 101)
  | Worker.Thrown =>
      exists m1, decode m1 = None
                 /\ (room_path "/invite" (pathname req) = Some m1
                     \/ room_path "/ws" (pathname req) = Some m1)
  end.
Proof.
  assert (Hct : forall k x : string,
             In (k, x) [("Content-Type", "application/json; charset=utf-8")] ->
             k = "Content-Type").
  { intros k x [[= <- _]|[]]. reflexivity. }
  assert (Hnone : forall k x : string, In (k, x) [] -> k = "Content-Type")
    by (intros k x []).
  unfold Worker.fetch, relayed_to, Worker.is_create.
  destruct (String.eqb_spec (method req) "OPTIONS") as [Eo|_].
  { cbn [fst Worker.resp Worker.b_headers Worker.b_status Worker.b_body].
    split; [intros h v; apply cors_kept; exact Hnone|].
    left. repeat split. exact Eo. }
  destruct (String.eqb (method req) "POST" && String.eqb (pathname req) "/room")
    eqn:Ec.
  { cbv zeta. rewrite stub_reply.
    assert (Ev : forall w, eval (fetch init_request) w = text_response "ok" 200).
    { intros w. unfold eval.
      rewrite (fetch_init_run init_request w eq_refl). reflexivity. }
    rewrite Ev. unfold text_response.
    cbn [fst Worker.json Worker.resp Worker.b_headers Worker.b_status
         Worker.b_body].
    split; [intros h v; apply cors_kept; exact Hct|].
    right. left. repeat split. }
  destruct (String.eqb_spec (method req) "POST") as [Em|Hm].
  - destruct (room_path "/invite" (pathname req)) as [m1|] eqn:Ep.
    + destruct (decode m1) as [roomId|] eqn:Ed.
      * cbv zeta. cbn [fst option_map]. rewrite stub_reply.
        destruct (makeToken_bytes (Worker.rooms c roomId)) as (a & _ & Ht).
        destruct (invite_issues (Worker.rooms c roomId) _ Ht) as (He & _).
        eexists roomId, invite_request, _.
        split; [reflexivity|]. split; [reflexivity|].
        split; [exact He|]. left. reflexivity.
      * cbn [fst]. exists m1. split; [exact Ed|left; reflexivity].
    + rewrite Em. cbn [fst Worker.bad Worker.json Worker.resp
                       Worker.b_headers Worker.b_status Worker.b_body].
      split; [intros h v; apply cors_kept; exact Hct|].
      right. right. repeat split.
  - destruct (String.eqb (method req) "GET").
    + destruct (room_path "/ws" (pathname req)) as [m1|] eqn:Ep.
      * destruct (decode m1) as [roomId|] eqn:Ed.
        -- cbv zeta. cbn [fst option_map]. rewrite stub_reply.
           assert (Hws : JsString.endsWith "/ws" (pathname req) = true)
             by (apply (room_path_ends "/ws" _ m1);
                 [eexists; reflexivity|exact Ep]).
           destruct (connect_status req (Worker.rooms c roomId) Hws)
             as (resp & Hr & Hst).
           exists roomId, req, resp.
           split; [reflexivity|]. split; [reflexivity|].
           split; [exact Hr|]. right. exact Hst.
        -- cbn [fst]. exists m1. split; [exact Ed|right; reflexivity].
      * cbn [fst Worker.bad Worker.json Worker.resp
             Worker.b_headers Worker.b_status Worker.b_body].
        split; [intros h v; apply cors_kept; exact Hct|].
        right. right. repeat split.
    + cbn [fst Worker.bad Worker.json Worker.resp
           Worker.b_headers Worker.b_status Worker.b_body].
      split; [intros h v; apply cors_kept; exact Hct|].
      right. right. repeat split.
Qed.

Lemma worker_relays (decode : string -> option string) (req : Request)
    (c : Worker.Cloud) (roomId : string) (r : Request) :
  Worker.is_create req = false ->
  relayed_to decode req c = Some (roomId, r) ->
  fst (Worker.fetch decode req c)
  = Worker.Relayed (eval (fetch r) (Worker.rooms c roomId)).
Proof.
  unfold Worker.fetch, relayed_to, Worker.is_create. intros Hc.
  destruct (String.eqb (method req) "OPTIONS"); [discriminate|].
  rewrite Hc.
  destruct (String.eqb_spec (method req) "POST") as [Em|Hm].
  - destruct (room_path "/invite" (pathname req)) as [m1|]; [|discriminate].
    destruct (decode m1) as [id|]; [|discriminate].
    intros [= <- <-]. reflexivity.
  - destruct (String.eqb (method req) "GET"); [|discriminate].
    destruct (room_path "/ws" (pathname req)) as [m1|]; [|discriminate].
    destruct (decode m1) as [id|]; [|discriminate].
    intros [= <- <-]. reflexivity.
Qed.

(** X24.  An invite opens the room it was issued for and no other.  After
    [POST /room/<id>/invite] was relayed to a room, a connection request
    that carries the issued token and is routed to that room is
    upgraded, as long as that room's clock has not passed the TTL; routed
    to any other room, whose invite set does not happen to hold the
    token, it is answered [Invalid invite]. *)
Theorem invite_opens_its_own_room (decode : string -> option string)
    (inv con : Request) (c : Worker.Cloud) (roomId : string)
    (token : string) :
  relayed_to decode inv c = Some (roomId, invite_request) ->
  let c1 := snd (Worker.fetch decode inv c) in
  let w := Worker.rooms c roomId in
  eval (makeToken 18) w = Some token ->
  searchParams_get "token" (searchParams con) = Some (JString token) ->
  (relayed_to decode con c1 = Some (roomId, con) ->
   clock w (2 + clock_reads w)%nat - clock w (clock_reads w)
   <= INVITE_TTL_MS ->
   fst (Worker.fetch decode con c1)
   = Worker.Relayed (upgraded (Worker.rooms c1 roomId)))
  /\ (forall other,
        other <> roomId ->
        relayed_to decode con c1 = Some (other, con) ->
        default ∅ (stored_invites (Worker.rooms c other)) !! token = None ->
        fst (Worker.fetch decode con c1)
        = Worker.Relayed (text_response "Invalid invite" 401)).
Proof.
  intros Hinv c1 w Htoken Hq.
  assert (Hrooms : forall k,
             Worker.rooms c1 k
             = if String.eqb k roomId then exec (fetch invite_request) w
               else Worker.rooms c k).
  { intros k. unfold c1. rewrite worker_rooms, Hinv. reflexivity. }
  destruct (makeToken_bytes w) as (a & Ha & Hbytes).
  destruct (invite_issues w token Htoken) as (_ & Hset & _).
  destruct (invite_frame w) as (Hc & Hr & _).
  cbv zeta in Hset, Hc, Hr.
  rewrite Htoken in Hbytes. injection Hbytes as Hbytes.
  clearbody c1. subst token.
  pose proof (token_survives_clamp a con Ha Hq) as Htok.
  destruct (token_is_own_key a Ha) as [Hne Hown].
  assert (Hroute : forall k, relayed_to decode con c1 = Some (k, con) ->
             JsString.endsWith "/ws" (pathname con) = true
             /\ fst (Worker.fetch decode con c1)
                = Worker.Relayed (eval (fetch con) (Worker.rooms c1 k))).
  { intros k Hk.
    destruct (relayed_request decode con c1 k con Hk)
      as [(Hcr & _ & Hcon)|(Hcr & Hi & [Hcon|(_ & _ & Hws)])].
    - rewrite Hcon in Hcr. discriminate.
    - rewrite Hcon in Hq. discriminate.
    - split; [exact Hws|]. apply worker_relays; assumption. }
  split.
  - intros Hcon Hage. destruct (Hroute roomId Hcon) as [Hws ->].
    f_equal. rewrite Hrooms, String.eqb_refl.
    apply (own_key_upgrades con (exec (fetch invite_request) w)
             {| createdAt := clock w (clock_reads w);
                ttlMs := INVITE_TTL_MS |} Hws).
    + rewrite Htok. exact Hne.
    + rewrite Htok, Hset. apply lookup_insert_eq.
    + rewrite Hc, Hr. exact Hage.
  - intros other Hother Hcon Hnone. destruct (Hroute other Hcon) as [Hws ->].
    f_equal. rewrite Hrooms.
    destruct (String.eqb_spec other roomId) as [|_]; [contradiction|].
    rewrite (connect_outcome con _ Hws). cbv zeta.
    rewrite Htok, (proj2 (truthy_nonempty _) Hne). cbn [negb].
    unfold JsObject.get. rewrite Hnone, Hown. reflexivity.
Qed.

Lemma invite_opens_its_own_room_witness :
  let c := {| Worker.rooms :=
                fun k =>
                  if String.eqb k "R"
                  then exec (fetch init_request)
                         (genesis Scenario.steady Scenario.ids Scenario.rnd)
                  else genesis Scenario.steady Scenario.ids Scenario.rnd;
              Worker.edge_uuids := Scenario.ids;
              Worker.edge_uuid_reads := 0 |} in
  let inv := {| method := "POST"; hostname := "rooms.example";
                pathname := "/room/R/invite"; searchParams := [] |} in
  let con := Scenario.connect_request Scenario.token "Ada" "Host" in
  let c1 := snd (Worker.fetch Some inv c) in
  relayed_to Some inv c = Some ("R", invite_request)
  /\ eval (makeToken 18) (Worker.rooms c "R") = Some Scenario.token
  /\ searchParams_get "token" (searchParams con)
     = Some (JString Scenario.token)
  /\ relayed_to Some con c1 = Some ("R", con)
  /\ fst (Worker.fetch Some con c1)
     = Worker.Relayed (upgraded (Worker.rooms c1 "R")).
Proof.
  intros c inv con c1.
  assert (Hinv : relayed_to Some inv c = Some ("R", invite_request))
    by reflexivity.
  assert (Ht : eval (makeToken 18) (Worker.rooms c "R")
               = Some Scenario.token) by (vm_compute; reflexivity).
  assert (Hq : searchParams_get "token" (searchParams con)
               = Some (JString Scenario.token)) by reflexivity.
  assert (Hcon : relayed_to Some con c1 = Some ("R", con)) by reflexivity.
  assert (Hage : clock (Worker.rooms c "R")
                   (2 + clock_reads (Worker.rooms c "R"))%nat
                 - clock (Worker.rooms c "R")
                     (clock_reads (Worker.rooms c "R")) <= INVITE_TTL_MS)
    by (vm_compute; discriminate).
  split; [exact Hinv|]. split; [exact Ht|]. split; [exact Hq|].
  split; [exact Hcon|].
  exact (proj1 (invite_opens_its_own_room Some inv con c "R" Scenario.token
                  Hinv Ht Hq)
           Hcon Hage).
Defined.

(** X25.  The two room routes.  [^\/room\/([^/]+)\/invite$] and
    [^\/room\/([^/]+)\/ws$] match exactly the paths
    [/room/<segment>/invite] and [/room/<segment>/ws] with a non-empty
    segment free of slashes, capture that segment, and never match the
    same path; a path the second matches ends in [/ws], which is what
    the room looks for. *)
Theorem room_routes (path seg : string) :
  (room_path "/invite" path = Some seg
   <-> path = "/room/" ++ seg ++ "/invite" /\ seg <> "" /\ slashless seg)
  /\ (room_path "/ws" path = Some seg
      <-> path = "/room/" ++ seg ++ "/ws" /\ seg <> "" /\ slashless seg)
  /\ (room_path "/invite" path = Some seg -> room_path "/ws" path = None)
  /\ (room_path "/ws" path = Some seg ->
      JsString.endsWith "/ws" path = true
      /\ path <> "/init" /\ path <> "/invite" /\ path <> "/room").
Proof.
  split; [apply room_path_spec; eexists; reflexivity|].
  split; [apply room_path_spec; eexists; reflexivity|].
  split.
  - unfold room_path.
    destruct (strip_prefix "/room/" path) as [rest|]; [|discriminate].
    destruct (String.eqb_spec (snd (segment rest)) "/invite") as [->|];
      [|rewrite andb_false_r; discriminate].
    intros _. rewrite andb_false_r. reflexivity.
  - intros H.
    assert (Hws : JsString.endsWith "/ws" path = true)
      by (apply (room_path_ends "/ws" _ seg); [eexists; reflexivity|exact H]).
    split; [exact Hws|].
    repeat split; intros ->; discriminate.
Qed.
